(** * mars-gym: arm scoring pipeline and contextual-bandit models

    A shallow embedding of the parts of
    - [recommendation/model/contextual_bandits.py]
    - [src/mars_gym/simulation/training.py]
    - [recommendation/task/model/base.py]
    - [tools/eval_viz/plot.py]
    that the specification talks about, followed by the properties
    established for them.

    Conventions.  Python's [None] is [option]; a raised exception is the
    [Raise] branch of [result]; a method that mutates [self] or the
    random generator threads an explicit state.  Index-mapped integers
    (users, items, arms) are naturals, scores are rationals (floats
    that are numbers compare exactly like the rationals they denote);
    NaN comes in where the code's handling of it is at stake. *)

From Stdlib Require Import QArith.
From stdpp Require Import gmap strings list fin_maps sorting.

Open Scope string_scope.
Open Scope nat_scope.
Open Scope list_scope.

(** ** Python exceptions and fallible computations *)

Inductive exn :=
  | TypeError | ValueError | KeyError | IndexError | AttributeError
  | RuntimeError | UnboundLocalError | NotImplementedError | OSError
  | ZeroDivisionError | KeyboardInterrupt | SystemExit.

(** [isinstance(e, Exception)]: everything but the two classes that
    derive from [BaseException] directly. *)
Definition is_Exception (e : exn) : bool :=
  match e with
  | KeyboardInterrupt | SystemExit => false
  | _ => true
  end.

Inductive result (A : Type) :=
  | Ok (a : A)
  | Raise (e : exn).
Arguments Ok {A} a.
Arguments Raise {A} e.

#[export] Instance result_ret : MRet result := fun A a => Ok a.
#[export] Instance result_bind : MBind result := fun A B f r =>
  match r with
  | Ok a => f a
  | Raise e => Raise e
  end.
#[export] Instance result_fmap : FMap result := fun A B f r =>
  match r with
  | Ok a => Ok (f a)
  | Raise e => Raise e
  end.

Definition succeeds {A} (r : result A) : Prop := ∃ a, r = Ok a.
Definition fails {A} (r : result A) : Prop := ∃ e, r = Raise e.

Definition is_ok {A} (r : result A) : bool :=
  match r with Ok _ => true | Raise _ => false end.

(** Monadic left fold: a [for] loop whose body may raise. *)
Fixpoint foldM {A B} (f : A → B → result A) (a : A) (l : list B) : result A :=
  match l with
  | [] => Ok a
  | b :: l' => a' ← f a b; foldM f a' l'
  end.

(** Monadic map: a list comprehension whose element may raise. *)
Fixpoint mapM_result {A B} (f : A → result B) (l : list A) : result (list B) :=
  match l with
  | [] => Ok []
  | a :: l' => b ← f a; bs ← mapM_result f l'; Ok (b :: bs)
  end.

(** ** Tensors *)

(** A two-dimensional float tensor (batch x features). *)
Record tensor := Tensor {
  rows : nat;
  cols : nat;
  entry : nat → nat → Q
}.

(** A one-dimensional float tensor. *)
Record vector := Vector {
  len : nat;
  elt : nat → Q
}.

Definition Qsum (n : nat) (f : nat → Q) : Q :=
  foldr Qplus 0%Q (f <$> seq 0 n).

(** [v.unsqueeze(1)] *)
Definition unsqueeze1 (v : vector) : tensor :=
  Tensor (len v) 1 (fun i _ => elt v i).

(** [torch.cat((a, b), dim=1)] on two tensors. *)
Definition cat2 (a b : tensor) : result tensor :=
  if decide (rows a = rows b)
  then Ok (Tensor (rows a) (cols a + cols b)
             (fun i j => if decide (j < cols a) then entry a i j
                         else entry b i (j - cols a)))
  else Raise RuntimeError.

(** [torch.cat(ts, dim=1)] on a Python sequence: a [None] element is a
    [TypeError], an empty sequence and a batch mismatch are
    [RuntimeError]s. *)
Fixpoint torch_cat_from (acc : tensor) (ts : list (option tensor)) : result tensor :=
  match ts with
  | [] => Ok acc
  | None :: _ => Raise TypeError
  | Some t :: ts' => acc' ← cat2 acc t; torch_cat_from acc' ts'
  end.

Definition torch_cat (ts : list (option tensor)) : result tensor :=
  if decide (Forall is_Some ts) then
    match ts with
    | Some t :: ts' => torch_cat_from t ts'
    | _ => Raise RuntimeError
    end
  else Raise TypeError.

(** [torch.sum(x, dim=1)] *)
Definition torch_sum1 (x : tensor) : vector :=
  Vector (rows x) (fun i => Qsum (cols x) (entry x i)).

(** [F.relu] *)
Definition relu (x : tensor) : tensor :=
  Tensor (rows x) (cols x) (fun i j => if Qle_bool 0 (entry x i j) then entry x i j else 0%Q).

(** [torch.bmm(a.unsqueeze(1), b.unsqueeze(2)).squeeze(1)]: the row-wise
    dot product, one column wide. *)
Definition bmm_dot (a b : tensor) : result tensor :=
  if decide (rows a = rows b ∧ cols a = cols b)
  then Ok (Tensor (rows a) 1
             (fun i _ => Qsum (cols a) (fun k => entry a i k * entry b i k)%Q))
  else Raise RuntimeError.

(** [nn.Linear(in_features, out_features)] *)
Record Linear := mkLinear {
  in_features : nat;
  out_features : nat;
  weight : nat → nat → Q;
  bias : nat → Q
}.

Definition Linear_call (l : Linear) (x : tensor) : result tensor :=
  if decide (cols x = in_features l)
  then Ok (Tensor (rows x) (out_features l)
             (fun i o => Qsum (in_features l)
                           (fun k => entry x i k * weight l o k)%Q
                         + bias l o)%Q)
  else Raise RuntimeError.

(** Calling a module on a Python value that may be [None]. *)
Definition Linear_call_py (l : Linear) (x : option tensor) : result tensor :=
  match x with
  | Some t => Linear_call l t
  | None => Raise TypeError
  end.

(** [nn.Embedding(num_embeddings, embedding_dim)] *)
Record Embedding := mkEmbedding {
  num_embeddings : nat;
  embedding_dim : nat;
  table : nat → nat → Q
}.

Definition Embedding_call (e : Embedding) (ids : list nat) : result tensor :=
  if decide (Forall (fun i => i < num_embeddings e) ids)
  then Ok (Tensor (length ids) (embedding_dim e)
             (fun i j => table e (nth i ids 0) j))
  else Raise IndexError.

(** [nn.Conv2d(1, out_channels, kernel_size)] *)
Record Conv2d := mkConv2d {
  out_channels : nat;
  kernel_size : nat * nat
}.

(** The library operations whose numerics are outside this development:
    the sigmoid, L2 normalisation, the text branch (word embedding
    followed by [conv_block]), and the initialiser passed as
    [weight_init], by default [lecun_normal_init] of
    [recommendation.utils].  The initialiser is handed a weight, here
    its shape, and fills it in place or raises. *)
Class Torch := {
  sigmoid : Q → Q;
  F_normalize : tensor → tensor;
  weight_init : list nat → result (list nat → Q);
  tensor3 : Type;
  Embedding_call3 : Embedding → list (list nat) → result tensor3;
  conv_block_op : list Conv2d → tensor3 → result tensor
}.

Section Models.
Context `{Torch}.

Definition torch_sigmoid (x : tensor) : tensor :=
  Tensor (rows x) (cols x) (fun i j => sigmoid (entry x i j)).

Definition torch_sigmoid1 (v : vector) : vector :=
  Vector (len v) (fun i => sigmoid (elt v i)).

(** [nn.Linear(in_features, out_features)] as built.  [init_weights]
    overwrites its parameters before the constructor of the model
    returns. *)
Definition nn_Linear (n_in n_out : nat) : Linear :=
  mkLinear n_in n_out (fun _ _ => 0%Q) (fun _ => 0%Q).

(** [init_weights] on an [nn.Linear]: [weight_init] on its weight, of
    shape (out_features, in_features), and a bias filled with 0.1. *)
Definition init_weights (module : Linear) : result Linear :=
  w ← weight_init [out_features module; in_features module];
  Ok (mkLinear (in_features module) (out_features module)
        (fun o k => w [o; k]) (fun _ => 1 # 10)).

(** [init_weights] on a layer that is an attribute only when its input
    dimension is positive. *)
Definition init_weights_attr (module : option Linear) : result (option Linear) :=
  match module with
  | Some l => Some <$> init_weights l
  | None => Ok None
  end.

(** [init_weights] on an [nn.Conv2d(1, out_channels, kernel_size)],
    whose weight has the shape (out_channels, 1, height, width). *)
Definition init_weights_Conv2d (module : Conv2d) : result Conv2d :=
  _ ← weight_init [out_channels module; 1; (kernel_size module).1;
                   (kernel_size module).2];
  Ok module.

(** [nn.Embedding(n, dim)] followed by [weight_init] on its weight. *)
Definition new_Embedding (n dim : nat) : result Embedding :=
  w ← weight_init [n; dim];
  Ok (mkEmbedding n dim (fun i j => w [i; j])).

(** *** LogisticRegression *)

Record LogisticRegression := mkLR { lr_linear : Linear }.

(** [self.apply(self.init_weights)] *)
Definition LogisticRegression_apply (self : LogisticRegression)
    : result LogisticRegression :=
  linear ← init_weights (lr_linear self);
  Ok (mkLR linear).

Definition LogisticRegression_init (n_factors : nat) : result LogisticRegression :=
  LogisticRegression_apply (mkLR (nn_Linear n_factors 1)).

(** [x = v if self.none_tensor(x) else torch.cat((x, v), dim=1)] *)
Definition cat_or_take (x v : option tensor) : result (option tensor) :=
  match x with
  | None => Ok v
  | Some _ => Some <$> torch_cat [x; v]
  end.

Definition LogisticRegression_predict (self : LogisticRegression)
    (item_representation user_representation context_representation : option tensor)
    : result tensor :=
  let x := context_representation in
  x ← (if user_representation is Some _ then cat_or_take x user_representation
       else Ok x);
  x ← (if item_representation is Some _ then cat_or_take x item_representation
       else Ok x);
  torch_sigmoid <$> Linear_call_py (lr_linear self) x.

(** *** DeepFactorizationMachine *)

(** The [context], [item] and [user] layers are attributes that
    [__init__] sets only when the matching input dimension is positive;
    reading a missing one is an [AttributeError]. *)
Record DeepFactorizationMachine := mkDFM {
  dfm_context : option Linear;
  dfm_item : option Linear;
  dfm_user : option Linear;
  dfm_linear : Linear;
  dfm_deep : bool;
  dfm_hidden_layers : list Linear;
  dfm_deep_linear_out : Linear;
  dfm_order : nat
}.

Definition getattr {A} (attr : option A) : result A :=
  match attr with
  | Some a => Ok a
  | None => Raise AttributeError
  end.

(** [[nn.Linear(input_dnn if i == 0 else hidden_layers[i - 1], layer_size)
      for i, layer_size in enumerate(hidden_layers)]] *)
Fixpoint nn_hidden_layers (prev : nat) (hidden_layers : list nat) : list Linear :=
  match hidden_layers with
  | [] => []
  | layer_size :: rest => nn_Linear prev layer_size :: nn_hidden_layers layer_size rest
  end.

(** [self.apply(self.init_weights)]: the layers in the order in which
    they were made attributes. *)
Definition DeepFactorizationMachine_apply (self : DeepFactorizationMachine)
    : result DeepFactorizationMachine :=
  context ← init_weights_attr (dfm_context self);
  item ← init_weights_attr (dfm_item self);
  user ← init_weights_attr (dfm_user self);
  linear ← init_weights (dfm_linear self);
  hidden_layers ← mapM_result init_weights (dfm_hidden_layers self);
  deep_linear_out ← init_weights (dfm_deep_linear_out self);
  Ok (mkDFM context item user linear (dfm_deep self) hidden_layers deep_linear_out
        (dfm_order self)).

Definition DeepFactorizationMachine_init
    (n_factors context_input_dim item_input_dim user_input_dim order : nat)
    (deep : bool) (hidden_layers : list nat) : result DeepFactorizationMachine :=
  let input_dnn := 0 in
  let '(context, input_dnn) :=
    if decide (0 < context_input_dim)
    then (Some (nn_Linear context_input_dim n_factors), input_dnn + n_factors)
    else (None, input_dnn) in
  let '(item, input_dnn) :=
    if decide (0 < item_input_dim)
    then (Some (nn_Linear item_input_dim n_factors), input_dnn + n_factors)
    else (None, input_dnn) in
  let '(user, input_dnn) :=
    if decide (0 < user_input_dim)
    then (Some (nn_Linear user_input_dim n_factors), input_dnn + n_factors)
    else (None, input_dnn) in
  let linear := nn_Linear (context_input_dim + item_input_dim + user_input_dim) 1 in
  let layers := nn_hidden_layers input_dnn hidden_layers in
  (* hidden_layers[-1] *)
  match last hidden_layers with
  | None => Raise IndexError
  | Some last_size =>
      DeepFactorizationMachine_apply
        (mkDFM context item user linear deep layers (nn_Linear last_size 1) order)
  end.

(** [itertools.combinations(l, k)] *)
Fixpoint combinations {A} (l : list A) (k : nat) : list (list A) :=
  match k with
  | 0 => [[]]
  | S k' =>
      match l with
      | [] => []
      | x :: l' => (cons x <$> combinations l' k') ++ combinations l' (S k')
      end
  end.

(** One [if not self.none_tensor(r): latent_vectors.append(layer(r))]. *)
Definition append_latent (layer : option Linear) (r : option tensor)
    (latent_vectors : list tensor) : result (list tensor) :=
  match r with
  | None => Ok latent_vectors
  | Some t => l ← getattr layer; v ← Linear_call l t; Ok (latent_vectors ++ [v])
  end.

(** The first-order loop
    [for v in [item, user, context]: x = v if none(x) else cat((x, v))]. *)
Definition first_order (item_representation user_representation
    context_representation : option tensor) : result (option tensor) :=
  foldM cat_or_take None
    [item_representation; user_representation; context_representation].

(** The body of [for a, b in combinations(latent_vectors, k)]. *)
Definition interaction_step (x : tensor) (combo : list tensor) : result tensor :=
  match combo with
  | [a; b] => dot ← bmm_dot a b; cat2 x dot
  | _ => Raise ValueError
  end.

Definition DeepFactorizationMachine_predict (self : DeepFactorizationMachine)
    (item_representation user_representation context_representation : option tensor)
    : result vector :=
  let latent_vectors := [] in
  latent_vectors ← append_latent (dfm_context self) context_representation latent_vectors;
  latent_vectors ← append_latent (dfm_item self) item_representation latent_vectors;
  latent_vectors ← append_latent (dfm_user self) user_representation latent_vectors;
  (* 1st order interactions *)
  x ← first_order item_representation user_representation context_representation;
  x ← Linear_call_py (dfm_linear self) x;
  (* higher order interactions *)
  x ← foldM (fun x k => foldM interaction_step x (combinations latent_vectors k))
        x (seq 2 (dfm_order self - 1));
  (* deep model *)
  x ← (if dfm_deep self then
         v ← torch_cat (Some <$> latent_vectors);
         v ← foldM (fun v layer => relu <$> Linear_call layer v) v (dfm_hidden_layers self);
         v ← Linear_call (dfm_deep_linear_out self) v;
         cat2 x v
       else Ok x);
  Ok (torch_sigmoid1 (torch_sum1 x)).

(** *** ContextualBandit *)

(** The constructor's arguments.  [numerical_content_dim] defaults to
    [None]. *)
Record ContextualBandit_args := mkArgs {
  n_users : nat;
  n_items : nat;
  n_factors : nat;
  vocab_size : nat;
  word_embeddings_size : nat;
  num_filters : nat;
  filter_sizes : list nat;
  use_buys_visits : bool;
  user_embeddings : bool;
  item_embeddings : bool;
  use_numerical_content : bool;
  numerical_content_dim : option nat;
  context_embeddings : bool;
  use_textual_content : bool;
  use_normalize : bool;
  binary : bool;
  predictor : string;
  fm_order : nat;
  fm_deep : bool;
  fm_hidden_layers : list nat
}.

Inductive Predictor :=
  | PLogisticRegression (m : LogisticRegression)
  | PDeepFactorizationMachine (m : DeepFactorizationMachine).

(** The constructed module.  [self.user_embeddings] and
    [self.item_embeddings] hold the flag [False] ([None] here) or the
    embedding module that replaced it. *)
Record ContextualBandit := mkCB {
  cb_user_embeddings : option Embedding;
  cb_item_embeddings : option Embedding;
  cb_word_embeddings : option Embedding;
  cb_convs1 : list Conv2d;
  cb_use_numerical_content : bool;
  cb_use_textual_content : bool;
  cb_use_normalize : bool;
  cb_use_buys_visits : bool;
  cb_predictor : Predictor
}.

(** [self.apply(self.init_weights)] as far as it reaches into the
    predictor. *)
Definition Predictor_apply (p : Predictor) : result Predictor :=
  match p with
  | PLogisticRegression m => PLogisticRegression <$> LogisticRegression_apply m
  | PDeepFactorizationMachine m =>
      PDeepFactorizationMachine <$> DeepFactorizationMachine_apply m
  end.

Definition ContextualBandit_init (a : ContextualBandit_args) : result ContextualBandit :=
  let user_input_dim := 0 in
  let item_input_dim := 0 in
  let context_input_dim := 0 in
  '(user_emb, user_input_dim) ←
    (if user_embeddings a then
       emb ← new_Embedding (n_users a) (n_factors a);
       Ok (Some emb, n_factors a)
     else Ok (None, user_input_dim));
  '(item_emb, item_input_dim) ←
    (if item_embeddings a then
       emb ← new_Embedding (n_items a) (n_factors a);
       Ok (Some emb, n_factors a)
     else Ok (None, item_input_dim));
  '(word_emb, convs1, item_input_dim) ←
    (if use_textual_content a then
       let convs1 :=
         (fun K => mkConv2d (num_filters a) (K, word_embeddings_size a))
           <$> filter_sizes a in
       let item_input_dim :=
         item_input_dim + sum_list ((fun K => K * num_filters a) <$> filter_sizes a) in
       emb ← new_Embedding (vocab_size a) (word_embeddings_size a);
       Ok (Some emb, convs1, item_input_dim)
     else Ok (None, [], item_input_dim));
  context_input_dim ←
    (if context_embeddings a then
       let context_input_dim :=
         if use_buys_visits a then context_input_dim + 2 else context_input_dim in
       if use_numerical_content a then
         match numerical_content_dim a with
         | Some d => Ok (context_input_dim + d)
         | None => Raise TypeError
         end
       else Ok context_input_dim
     else Ok context_input_dim);
  pred ←
    (if decide (predictor a = "logistic_regression") then
       PLogisticRegression <$>
         LogisticRegression_init (item_input_dim + context_input_dim + user_input_dim)
     else if decide (predictor a = "factorization_machine") then
       PDeepFactorizationMachine <$>
         DeepFactorizationMachine_init (n_factors a) context_input_dim item_input_dim
           user_input_dim (fm_order a) (fm_deep a) (fm_hidden_layers a)
     else Raise NotImplementedError);
  (* self.apply(self.init_weights): the convolutions, then the predictor *)
  convs1 ← mapM_result init_weights_Conv2d convs1;
  pred ← Predictor_apply pred;
  Ok (mkCB user_emb item_emb word_emb convs1 (use_numerical_content a)
        (use_textual_content a) (use_normalize a) (use_buys_visits a) pred).

(** [normalize]: [None] passes through. *)
Definition ContextualBandit_normalize (x : option tensor) : option tensor :=
  F_normalize <$> x.

Definition conv_block (self : ContextualBandit) (x : tensor3) : result tensor :=
  conv_block_op (cb_convs1 self) x.

Definition compute_item_embeddings (self : ContextualBandit)
    (item_ids : list nat) (name description category : list (list nat))
    : result (option tensor) :=
  let x : option tensor := None in
  x ← (if cb_use_textual_content self then
         we ← getattr (cb_word_embeddings self);
         emb_name ← Embedding_call3 we name;
         emb_description ← Embedding_call3 we description;
         emb_category ← Embedding_call3 we category;
         cnn_category ← conv_block self emb_category;
         cnn_description ← conv_block self emb_description;
         cnn_name ← conv_block self emb_name;
         Some <$> torch_cat [Some cnn_category; Some cnn_description; Some cnn_name]
       else Ok x);
  x ← (if cb_item_embeddings self is Some emb then
         item_embs ← Embedding_call emb item_ids;
         cat_or_take x (Some item_embs)
       else Ok x);
  Ok (if cb_use_normalize self then ContextualBandit_normalize x else x).

Definition compute_context_embeddings (self : ContextualBandit)
    (info : tensor) (visits buys : vector) : result (option tensor) :=
  let x : option tensor := None in
  x ← (if cb_use_numerical_content self then cat_or_take x (Some info) else Ok x);
  x ← (if cb_use_buys_visits self then
         match x with
         | None => Some <$> torch_cat [Some (unsqueeze1 visits); Some (unsqueeze1 buys)]
         | Some _ => Some <$> torch_cat [x; Some (unsqueeze1 visits); Some (unsqueeze1 buys)]
         end
       else Ok x);
  Ok (if cb_use_normalize self then ContextualBandit_normalize x else x).

(** The local [out] is bound only in the [use_normalize] branch; the
    [return out] reads it. *)
Definition compute_user_embeddings (self : ContextualBandit) (user_ids : list nat)
    : result tensor :=
  emb ← (if cb_user_embeddings self is Some e then Ok e else Raise TypeError);
  user_emb ← Embedding_call emb user_ids;
  let out : option tensor :=
    if cb_use_normalize self then ContextualBandit_normalize (Some user_emb)
    else None in
  match out with
  | Some o => Ok o
  | None => Raise UnboundLocalError
  end.

(** The seven components unpacked from [item_content]. *)
Record item_content := mkItemContent {
  ic_item_ids : list nat;
  ic_name : list (list nat);
  ic_description : list (list nat);
  ic_category : list (list nat);
  ic_info : tensor;
  ic_visits : vector;
  ic_buys : vector
}.

(** [prob] is two-dimensional for the logistic regression and
    one-dimensional for the factorization machine. *)
Inductive prob :=
  | Prob2 (t : tensor)
  | Prob1 (v : vector).

Definition Predictor_predict (p : Predictor)
    (item_representation user_representation context_representation : option tensor)
    : result prob :=
  match p with
  | PLogisticRegression m =>
      Prob2 <$> LogisticRegression_predict m item_representation
                  user_representation context_representation
  | PDeepFactorizationMachine m =>
      Prob1 <$> DeepFactorizationMachine_predict m item_representation
                  user_representation context_representation
  end.

(** [forward]; the four trailing arguments are returned untouched. *)
Definition ContextualBandit_forward {X : Type} (self : ContextualBandit)
    (user_ids : list nat) (content : item_content)
    (user_item_visits user_item_buys user_visits item_visits : X)
    : result (prob * X * X * X * X) :=
  context_representation ←
    compute_context_embeddings self (ic_info content) (ic_visits content) (ic_buys content);
  item_representation ←
    compute_item_embeddings self (ic_item_ids content) (ic_name content)
      (ic_description content) (ic_category content);
  user_representation ←
    (if cb_user_embeddings self is Some _
     then Some <$> compute_user_embeddings self user_ids
     else Ok None);
  p ← Predictor_predict (cb_predictor self) item_representation
        user_representation context_representation;
  Ok (p, user_item_visits, user_item_buys, user_visits, item_visits).

End Models.

(** ** Data frames and observations *)

(** Item metadata carried under [ITEM_METADATA_KEY]. *)
Definition metadata := list (string * list Q).

(** Cell and dictionary values.  [VArr] is an integer index array (a list
    of arms), [VVec] a float array (an indicator vector, a list of
    scores); [VNaN] is the filler pandas uses for a missing cell. *)
Inductive value :=
  | VInt (n : nat)
  | VFloat (q : Q)
  | VStr (s : string)
  | VArr (a : list nat)
  | VVec (v : list Q)
  | VMeta (m : metadata)
  | VNone
  | VNaN.

(** An observation is a [dict]. *)
Abbreviation observation := (gmap string value).

(** [ob[key]] *)
Definition getitem (ob : observation) (key : string) : result value :=
  match ob !! key with
  | Some v => Ok v
  | None => Raise KeyError
  end.

(** A data frame: ordered column labels and rows, every row defined on
    exactly the column labels. *)
Record DataFrame := mkDF {
  df_columns : list string;
  df_rows : list (gmap string value)
}.

(** [len(df)] *)
Definition df_len (df : DataFrame) : nat := length (df_rows df).

(** One record of [pd.DataFrame(columns=..., data=...)]: the cells of
    the requested columns, [NaN] where the dict has no such key. *)
Definition record_row (columns : list string) (d : gmap string value)
    : gmap string value :=
  list_to_map ((fun c => (c, default VNaN (d !! c))) <$> columns).

(** [pd.DataFrame(columns=columns, data=data)] for a list of dicts. *)
Definition pd_DataFrame (columns : list string) (data : list (gmap string value))
    : DataFrame :=
  mkDF columns (record_row columns <$> data).

(** [df[c] = v] for a scalar [v]: overwrite the column, or append it. *)
Definition set_column_scalar (c : string) (v : value) (df : DataFrame) : DataFrame :=
  mkDF (if decide (c ∈ df_columns df) then df_columns df else df_columns df ++ [c])
       (insert c v <$> df_rows df).

(** [if c not in df: df[c] = v] *)
Definition fill_missing_column (c : string) (v : value) (df : DataFrame) : DataFrame :=
  if decide (c ∈ df_columns df) then df else set_column_scalar c v df.

(** The cell of row [i] under column [c], if the frame has both. *)
Definition cell (df : DataFrame) (i : nat) (c : string) : option value :=
  if decide (c ∈ df_columns df) then df_rows df !! i ≫= (fun row => row !! c)
  else None.

(** [df[c] = vs] for a list [vs]: its length must match the frame. *)
Definition set_column_list (c : string) (vs : list value) (df : DataFrame)
    : result DataFrame :=
  if decide (length vs = df_len df) then
    Ok (mkDF (if decide (c ∈ df_columns df) then df_columns df else df_columns df ++ [c])
             (zip_with (fun row v => <[c := v]> row) (df_rows df) vs))
  else Raise ValueError.

(** Column labels of [pd.concat]: the union, in order of appearance. *)
Fixpoint union_columns (seen : list string) (dfs : list DataFrame) : list string :=
  match dfs with
  | [] => seen
  | df :: dfs' =>
      union_columns (seen ++ filter (fun c => c ∉ seen) (df_columns df)) dfs'
  end.

(** [pd.concat(dfs)]: rows in order, realigned on the union of columns;
    an empty list of frames is a [ValueError]. *)
Definition pd_concat (dfs : list DataFrame) : result DataFrame :=
  match dfs with
  | [] => Raise ValueError
  | _ =>
      let columns := union_columns [] dfs in
      Ok (mkDF columns (record_row columns <$> concat (df_rows <$> dfs)))
  end.

(** [df.to_dict("records")] *)
Definition to_dict_records (df : DataFrame) : list observation := df_rows df.

(** An index-mapped integer column, read as numbers. *)
Definition index_column (df : DataFrame) (c : string) : result (list nat) :=
  if decide (c ∈ df_columns df) then
    mapM_result (fun row => match row !! c with
                            | Some (VInt n) => Ok n
                            | _ => Raise TypeError
                            end) (df_rows df)
  else Raise KeyError.

(** [Series.unique()]: distinct values in order of first appearance. *)
Fixpoint unique_from (seen : list nat) (l : list nat) : list nat :=
  match l with
  | [] => []
  | x :: l' =>
      if decide (x ∈ seen) then unique_from seen l'
      else x :: unique_from (x :: seen) l'
  end.

Definition unique (l : list nat) : list nat := unique_from [] l.

(** ** numpy helpers *)

(** [np.flatnonzero(v)]: positions of the non-zero entries, ascending. *)
Fixpoint flatnonzero_from {A} (nonzero : A → bool) (i : nat) (v : list A) : list nat :=
  match v with
  | [] => []
  | x :: v' =>
      if nonzero x then i :: flatnonzero_from nonzero (S i) v'
      else flatnonzero_from nonzero (S i) v'
  end.

Definition Q_nonzero (q : Q) : bool := negb (Qeq_bool q 0).
Definition nat_nonzero (n : nat) : bool := negb (Nat.eqb n 0).

(** [np.flatnonzero] on a Python value: arrays position-wise, anything
    else as a one-element array that holds the value.  [NaN] is not
    zero; a string and a [dict] count as non-zero unless empty, [None]
    counts as zero.  No value makes it raise. *)
Definition np_flatnonzero (v : value) : result (list nat) :=
  match v with
  | VVec l => Ok (flatnonzero_from Q_nonzero 0 l)
  | VArr l => Ok (flatnonzero_from nat_nonzero 0 l)
  | VInt n => Ok (flatnonzero_from nat_nonzero 0 [n])
  | VFloat q => Ok (flatnonzero_from Q_nonzero 0 [q])
  | VStr s => Ok (if decide (s = "") then [] else [0])
  | VMeta m => Ok (if m is [] then [] else [0])
  | VNone => Ok []
  | VNaN => Ok [0]
  end.

(** [np.zeros(n)] *)
Definition np_zeros (n : nat) : list Q := replicate n 0%Q.

(** [items[arms] = 1]: every listed position, all of them in range
    here, is set to one. *)
Definition set_ones (arms : list nat) (items : list Q) : list Q :=
  foldl (fun items a => <[a := 1%Q]> items) items arms.

(** A value used as an integer index array. *)
Definition as_index_array (v : value) : result (list nat) :=
  match v with
  | VArr l => Ok l
  | VVec _ => Raise IndexError
  | _ => Raise TypeError
  end.

(** ** The random generator and [random.shuffle] *)

(** The generator: an unbounded stream of raw draws and a cursor. *)
Record rng := mkRng {
  draws : nat → nat;
  cursor : nat
}.

(** [randbelow(n)] for positive [n]. *)
Definition randbelow (n : nat) (g : rng) : nat * rng :=
  (draws g (cursor g) `mod` n, mkRng (draws g) (S (cursor g))).

(** [x[i], x[j] = x[j], x[i]] *)
Definition swap (x : list nat) (i j : nat) : list nat :=
  match x !! i, x !! j with
  | Some xi, Some xj => <[j := xi]> (<[i := xj]> x)
  | _, _ => x
  end.

(** [for i in reversed(range(1, len(x))): j = randbelow(i + 1); swap] *)
Fixpoint shuffle_from (i : nat) (x : list nat) (g : rng) : list nat * rng :=
  match i with
  | 0 => (x, g)
  | S i' =>
      let '(j, g') := randbelow (i + 1) g in
      shuffle_from i' (swap x i j) g'
  end.

Definition random_shuffle (x : list nat) (g : rng) : list nat * rng :=
  shuffle_from (length x - 1) x g.

(** ** Project configuration *)

Record Column := mkColumn { name : string }.

(** The fields of [ProjectConfig] that the arm-scoring code reads.
    [available_arms_column_name] is [None] or a string; both [None] and
    the empty string are falsy. *)
Record ProjectConfig := mkConfig {
  user_column : Column;
  item_column : Column;
  other_input_columns : list Column;
  output_column : Column;
  auxiliar_output_columns : list Column;
  hist_view_column_name : string;
  hist_output_column_name : string;
  available_arms_column_name : option string
}.

(** Truthiness of [available_arms_column_name]. *)
Definition arms_column (cfg : ProjectConfig) : option string :=
  match available_arms_column_name cfg with
  | Some c => if decide (c = "") then None else Some c
  | None => None
  end.

(** ** Datasets and agents *)

(** Modelled from the spec: [InteractionsDataset] (mars_gym.data.dataset),
    the dataset class behind the per-arm feature contexts.  It wraps the
    concatenated per-arm data frame; slicing it yields, first, the tuple
    of input arrays (one array per input column, one entry per row of
    the slice) from which the network builds the contexts, and, second,
    the output array. *)
Record InteractionsDataset := mkDataset {
  ds_data_frame : DataFrame;
  ds_metadata : value;
  ds_input_columns : list string;
  ds_output_column : string
}.

Definition InteractionsDataset_init (data_frame : DataFrame) (meta : value)
    (cfg : ProjectConfig) : InteractionsDataset :=
  mkDataset data_frame meta
    (name (user_column cfg) :: name (item_column cfg)
       :: (name <$> other_input_columns cfg))
    (name (output_column cfg)).

Definition dataset_len (ds : InteractionsDataset) : nat :=
  df_len (ds_data_frame ds).

(** The per-arm contexts of one observation: a tuple of arrays. *)
Abbreviation contexts := (list (list value)).

Definition column_cells (rs : list (gmap string value)) (c : string) : list value :=
  (fun r => default VNaN (r !! c)) <$> rs.

(** [l[i:j]] *)
Definition py_slice {A} (l : list A) (i j : nat) : list A :=
  take (j - i) (drop i l).

(** [obs_dataset[i:j]] *)
Definition dataset_getitem (ds : InteractionsDataset) (i j : nat)
    : contexts * list value :=
  let rs := py_slice (df_rows (ds_data_frame ds)) i j in
  (column_cells rs <$> ds_input_columns ds, column_cells rs (ds_output_column ds)).

(** What [Trial.predict] hands back: a tensor, or a nested tuple of
    tensors. *)
Inductive model_output :=
  | OutTensor (t : tensor)
  | OutTuple (ts : list (list tensor)).

(** [BanditPolicy] (mars_gym.model.bandit): the reward model, run over a
    whole dataset by [Trial.predict], and the score function of the
    policies that have no reward model. *)
Record BanditPolicy := mkBandit {
  reward_model : option (InteractionsDataset → result model_output);
  calculate_scores : list nat → contexts → list Q
}.

(** [BanditAgent] (mars_gym.model.agent) *)
Record BanditAgent := mkAgent {
  bandit : BanditPolicy;
  rank : list nat → contexts → list Q → list nat * list Q;
  act : list nat → contexts → list Q → nat
}.

(** [t.reshape(-1).tolist()] *)
Definition reshape_tolist (t : tensor) : list Q :=
  concat ((fun i => entry t i <$> seq 0 (cols t)) <$> seq 0 (rows t)).

(** ** SupervisedModelTraining *)

(** The attributes of the task that the arm-scoring code only reads. *)
Record SupervisedModelTraining := mkTask {
  project_config : ProjectConfig;
  train_data_frame : DataFrame;
  val_data_frame : DataFrame;
  embeddings_for_metadata : option metadata
}.

(** The attributes it mutates: the [_unique_items] cache (an array that
    [random.shuffle] permutes in place through a view), the generator
    of the [random] module, and the cached test data frame. *)
Record State := mkState {
  _unique_items : option (list nat);
  random_state : rng;
  _test_data_frame : DataFrame
}.

(** An array returned by [_get_arm_indices]: a fresh one, or the view
    [self._unique_items[:100]] that aliases the cache. *)
Inductive arm_array :=
  | Owned (a : list nat)
  | UniqueItemsView.

Definition read_arm_array (st : State) (a : arm_array) : list nat :=
  match a with
  | Owned l => l
  | UniqueItemsView => take 100 (default [] (_unique_items st))
  end.

Section Training.
(** [ITEM_METADATA_KEY] (mars_gym.gym.envs.recsys) *)
Variable ITEM_METADATA_KEY : string.

Definition get_data_frame_for_indexing (self : SupervisedModelTraining)
    : result DataFrame :=
  pd_concat [train_data_frame self; val_data_frame self].

(** The item column of the combined train and validation data. *)
Definition training_items (self : SupervisedModelTraining) : result (list nat) :=
  df ← get_data_frame_for_indexing self;
  index_column df (name (item_column (project_config self))).

Definition unique_items (self : SupervisedModelTraining) (st : State)
    : result (list nat * State) :=
  match _unique_items st with
  | Some u => Ok (u, st)
  | None =>
      items ← training_items self;
      let u := unique items in
      Ok (u, mkState (Some u) (random_state st) (_test_data_frame st))
  end.

Definition obs_columns (self : SupervisedModelTraining) : list string :=
  [name (user_column (project_config self))]
    ++ (name <$> other_input_columns (project_config self)).

Definition _get_arm_indices (self : SupervisedModelTraining) (ob : observation)
    (st : State) : result (arm_array * State) :=
  match arms_column (project_config self) with
  | Some c =>
      v ← getitem ob c;
      arm_indices ← np_flatnonzero v;
      let '(arm_indices, g) := random_shuffle arm_indices (random_state st) in
      Ok (Owned arm_indices, mkState (_unique_items st) g (_test_data_frame st))
  | None =>
      '(u, st) ← unique_items self st;
      let '(shuffled, g) := random_shuffle (take 100 u) (random_state st) in
      Ok (UniqueItemsView,
          mkState (Some (shuffled ++ drop 100 u)) g (_test_data_frame st))
  end.

Definition _get_arm_scores (agent : BanditAgent) (ob_dataset : InteractionsDataset)
    : result (list Q) :=
  model ← (if reward_model (bandit agent) is Some m then Ok m else Raise TypeError);
  model_output ← model ob_dataset;
  scores_tensor ←
    match model_output with
    | OutTensor t => Ok t
    | OutTuple ts =>
        match ts with
        | (t :: _) :: _ => Ok t
        | _ => Raise IndexError
        end
    end;
  Ok (reshape_tolist scores_tensor).

Definition _fill_hist_columns (self : SupervisedModelTraining) (ob_df : DataFrame)
    : DataFrame :=
  let cfg := project_config self in
  let ob_df := fill_missing_column (hist_view_column_name cfg) (VInt 0) ob_df in
  let ob_df := fill_missing_column (hist_output_column_name cfg) (VInt 0) ob_df in
  ob_df.

(** The frame as [pd.DataFrame(columns=..., data=data)] builds it. *)
Definition ob_frame (self : SupervisedModelTraining) (ob : observation)
    (arm_indices : list nat) : DataFrame :=
  let item := name (item_column (project_config self)) in
  let data := (fun arm_index => <[item := VInt arm_index]> ob) <$> arm_indices in
  pd_DataFrame (obs_columns self ++ [item]) data.

(** The step that fills the output column. *)
Definition fill_output_column (self : SupervisedModelTraining) (ob_df : DataFrame)
    : DataFrame :=
  fill_missing_column (name (output_column (project_config self))) (VInt 1) ob_df.

(** [for column in columns: if column.name not in df.columns:
    df[column.name] = v] *)
Definition fill_missing_columns (columns : list Column) (v : value) (ob_df : DataFrame)
    : DataFrame :=
  foldl (fun ob_df column => fill_missing_column (name column) v ob_df) ob_df columns.

(** The loop over the auxiliary output columns. *)
Definition fill_auxiliar_columns (self : SupervisedModelTraining) (ob_df : DataFrame)
    : DataFrame :=
  fill_missing_columns (auxiliar_output_columns (project_config self)) (VInt 0) ob_df.

Definition _create_ob_data_frame (self : SupervisedModelTraining) (ob : observation)
    (arm_indices : list nat) : DataFrame :=
  let ob_df := ob_frame self ob arm_indices in
  let ob_df := _fill_hist_columns self ob_df in
  let ob_df := fill_output_column self ob_df in
  fill_auxiliar_columns self ob_df.

(** [[self._get_arm_indices(ob) for ob in obs]] *)
Fixpoint get_all_arm_indices (self : SupervisedModelTraining) (obs : list observation)
    (st : State) : result (list arm_array * State) :=
  match obs with
  | [] => Ok ([], st)
  | ob :: obs' =>
      '(a, st) ← _get_arm_indices self ob st;
      '(rest, st) ← get_all_arm_indices self obs' st;
      Ok (a :: rest, st)
  end.

(** The two loops [i = 0; for ob_df in ob_dfs: ...[i : i + len(ob_df)];
    i += len(ob_df)]. *)
Fixpoint slices {A} (get : nat → nat → A) (i : nat) (lens : list nat) : list A :=
  match lens with
  | [] => []
  | n :: lens' => get i (i + n) :: slices get (i + n) lens'
  end.

Definition _prepare_for_agent (self : SupervisedModelTraining) (agent : BanditAgent)
    (obs : list observation) (st : State)
    : result ((list contexts * list (list nat) * list (list Q)) * State) :=
  '(arm_arrays, st) ← get_all_arm_indices self obs st;
  (* the arrays are read only now, after every shuffle has run *)
  let arm_indices_list := read_arm_array st <$> arm_arrays in
  let ob_dfs := zip_with (_create_ob_data_frame self) obs arm_indices_list in
  all ← pd_concat ob_dfs;
  ob0 ← (if obs is ob :: _ then Ok ob else Raise IndexError);
  meta ← getitem ob0 ITEM_METADATA_KEY;
  let obs_dataset := InteractionsDataset_init all meta (project_config self) in
  let arm_contexts_list :=
    slices (fun i j => (dataset_getitem obs_dataset i j).1) 0 (df_len <$> ob_dfs) in
  arm_scores_list ←
    (if reward_model (bandit agent) is Some _ then
       all_arm_scores ← _get_arm_scores agent obs_dataset;
       Ok (slices (py_slice all_arm_scores) 0 (df_len <$> ob_dfs))
     else
       Ok (zip_with (calculate_scores (bandit agent)) arm_indices_list arm_contexts_list));
  Ok ((arm_contexts_list, arm_indices_list, arm_scores_list), st).


End Training.

(** ** Saving the test set predictions *)

(** Python's [sorted] makes a copy and runs the list sort on it: the run
    the list starts with is found by [count_run] (a strictly descending
    run is reversed in place) and every later element is put in its
    place by the binary insertion of [binarysort].  The only comparison
    is [<].  Lists of 64 elements and more are cut into several such
    runs that are merged; where [<] is a total order, as on floats none
    of which is NaN, the outcome is the one stable ascending arrangement
    either way. *)
Section ListSort.
Context {A : Type} (lt : A → A → bool).

Fixpoint run_ascending (prev : A) (l : list A) : nat :=
  match l with
  | [] => 0
  | x :: l' => if lt x prev then 0 else S (run_ascending x l')
  end.

Fixpoint run_descending (prev : A) (l : list A) : nat :=
  match l with
  | [] => 0
  | x :: l' => if lt x prev then S (run_descending x l') else 0
  end.

(** The length of the leading run and whether it is descending. *)
Definition count_run (l : list A) : nat * bool :=
  match l with
  | [] => (0, false)
  | [x] => (1, false)
  | x :: y :: l' =>
      if lt y x then (2 + run_descending y l', true)
      else (2 + run_ascending y l', false)
  end.

(** The search loop of [binarysort] between positions [l] and [r] of the
    elements before the pivot: [p = l + ((r - l) >> 1)], then [r = p] if
    [pivot < *p] and [l = p + 1] otherwise, while [l < r]. *)
Fixpoint bisect (steps : nat) (before : list A) (pivot : A) (l r : nat) : nat :=
  match steps with
  | 0 => l
  | S steps' =>
      if decide (l < r) then
        let p := l + (r - l) / 2 in
        match before !! p with
        | Some x =>
            if lt pivot x then bisect steps' before pivot l p
            else bisect steps' before pivot (p + 1) r
        | None => l
        end
      else l
  end.

(** One round of [binarysort]: the pivot moves to where the search
    ended. *)
Definition binary_insert (before : list A) (pivot : A) : list A :=
  let l := bisect (length before) before pivot 0 (length before) in
  take l before ++ pivot :: drop l before.

Definition binarysort (run rest : list A) : list A := foldl binary_insert run rest.

Definition list_sort (l : list A) : list A :=
  let '(n, descending) := count_run l in
  let run := take n l in
  let run := if descending then reverse run else run in
  binarysort run (drop n l).

End ListSort.

(** [x < y] on the scores. *)
Definition Qlt_bool (x y : Q) : bool := negb (Qle_bool y x).

Definition sorted (l : list Q) : list Q := list_sort Qlt_bool l.

(** [list(reversed(sorted(action_scores)))] *)
Definition action_scores (arm_scores : list Q) : list Q := reverse (sorted arm_scores).

(** A Python float: a number or NaN.  The rationals above are the
    floats that are numbers; a reward model can also put out NaN. *)
Inductive float :=
  | Finite (q : Q)
  | NaN.

(** [x < y] on floats: false as soon as one side is NaN. *)
Definition float_lt (x y : float) : bool :=
  match x, y with
  | Finite a, Finite b => Qlt_bool a b
  | _, _ => false
  end.

(** [list(reversed(sorted(action_scores)))] on scores that may be NaN. *)
Definition action_scores_float (arm_scores : list float) : list float :=
  reverse (list_sort float_lt arm_scores).

(** [len(v)] *)
Definition py_len (v : value) : result nat :=
  match v with
  | VArr l => Ok (length l)
  | VVec l => Ok (length l)
  | VStr s => Ok (String.length s)
  | VMeta m => Ok (length m)
  | _ => Raise TypeError
  end.

(** A value used as a single integer index. *)
Definition as_index (v : value) : result nat :=
  match v with
  | VInt n => Ok n
  | _ => Raise TypeError
  end.

Section Predictions.
Variable ITEM_METADATA_KEY : string.

(** The first half of the loop body of [_save_test_set_predictions]. *)
Definition set_item_metadata (self : SupervisedModelTraining) (ob : observation)
    : observation :=
  <[ITEM_METADATA_KEY :=
      match embeddings_for_metadata self with
      | Some m => VMeta m
      | None => VNone
      end]> ob.

(** The second half: the available arms become an indicator vector. *)
Definition indicator_conversion (self : SupervisedModelTraining) (ob : observation)
    : result observation :=
  let cfg := project_config self in
  match arms_column cfg with
  | Some c =>
      v ← getitem ob c;
      n ← py_len v;
      available_arms ←
        (if decide (n = 0) then
           logged ← getitem ob (name (item_column cfg));
           i ← as_index logged;
           Ok [i]
         else as_index_array v);
      let items := np_zeros (max_list available_arms + 1) in
      let items := set_ones available_arms items in
      Ok (<[c := VVec items]> ob)
  | None => Ok ob
  end.

Definition prepare_observation (self : SupervisedModelTraining) (ob : observation)
    : result observation :=
  indicator_conversion self (set_item_metadata self ob).

Definition rank_all (agent : BanditAgent) (arm_contexts_list : list contexts)
    (arm_indices_list : list (list nat)) (arm_scores_list : list (list Q))
    : list (list nat * list Q) :=
  zip_with (fun ci arm_scores => rank agent ci.2 ci.1 arm_scores)
    (zip arm_contexts_list arm_indices_list) arm_scores_list.

(** Returns the frame written to the predictions CSV; the cached test
    data frame is the same, mutated, object.  [self.clean()] deletes the
    cached datasets and the cached train data frame: [train_data_frame
    self] is the frame the property of that name yields from there on,
    when the arms are drawn from the training items. *)
Definition _save_test_set_predictions (self : SupervisedModelTraining)
    (agent : BanditAgent) (st : State) : result (DataFrame * State) :=
  let obs := to_dict_records (_test_data_frame st) in
  obs ← mapM_result (prepare_observation self) obs;
  '((arm_contexts_list, arm_indices_list, arm_scores_list), st) ←
    _prepare_for_agent ITEM_METADATA_KEY self agent obs st;
  let ranked := rank_all agent arm_contexts_list arm_indices_list arm_scores_list in
  let sorted_actions_list := fst <$> ranked in
  let proba_actions_list := snd <$> ranked in
  let action_scores_list := action_scores <$> arm_scores_list in
  df ← set_column_list "sorted_actions" (VArr <$> sorted_actions_list)
         (_test_data_frame st);
  df ← set_column_list "prob_actions" (VVec <$> proba_actions_list) df;
  df ← set_column_list "action_scores" (VVec <$> action_scores_list) df;
  Ok (df, mkState (_unique_items st) (random_state st) df).

End Predictions.

(** ** Running a training task *)

Abbreviation path := (list string).

Inductive node :=
  | Dir
  | File (content : string).

Abbreviation filesystem := (gmap path node).

(** What a task touches besides its own attributes: the files, the pool
    of free CUDA devices, the seed last installed, and the mlflow run
    log of the older task class. *)
Inductive mlflow_event :=
  | SetExperiment (class_name : string)
  | StartRun (run_name : string)
  | LogParam (key : string)
  | EndRun (finished : bool).

Record World := mkWorld {
  fs : filesystem;
  cuda_available : list nat;
  seeded : option nat;
  mlflow_log : list mlflow_event
}.

Definition set_fs (w : World) (f : filesystem) : World :=
  mkWorld f (cuda_available w) (seeded w) (mlflow_log w).

Definition log_mlflow (w : World) (e : mlflow_event) : World :=
  mkWorld (fs w) (cuda_available w) (seeded w) (mlflow_log w ++ [e]).

(** [os.makedirs(p, exist_ok=True)]: every ancestor and [p] itself become
    directories; a regular file in the way is an [OSError]. *)
Definition makedirs (p : path) (f : filesystem) : result filesystem :=
  foldM (fun f q => match f !! q with
                    | Some (File _) => Raise OSError
                    | _ => Ok (<[q := Dir]> f)
                    end)
        f ((fun n => take n p) <$> seq 1 (length p)).

(** [open(p, "w")] followed by a write: the parent must be a directory
    and [p] must not be one. *)
Definition write_file (p : path) (content : string) (f : filesystem)
    : result filesystem :=
  match f !! removelast p, f !! p with
  | Some Dir, Some Dir => Raise OSError
  | Some Dir, _ => Ok (<[p := File content]> f)
  | _, _ => Raise OSError
  end.

(** [shutil.rmtree(p)]: [p] must be a directory; it goes with everything
    below it. *)
Definition rmtree (p : path) (f : filesystem) : result filesystem :=
  match f !! p with
  | Some Dir => Ok (filter (fun kv => ¬ p `prefix_of` kv.1) f)
  | _ => Raise OSError
  end.

(** The attributes of a training task that [run] reads.  [train] is the
    abstract method: it changes the world and returns or raises. *)
Record TrainingTask := mkTraining {
  task_class_name : string;
  task_id : string;
  output_path : path;
  params_file : string;
  param_kwargs : list (string * string);
  params_json : string;
  seed : nat;
  device : string;
  device_id : option nat;
  train : World → result unit * World
}.

Definition seed_everything (self : TrainingTask) (w : World) : World :=
  mkWorld (fs w) (cuda_available w) (Some (seed self)) (mlflow_log w).

(** [_save_params] of [_BaseModelTraining] *)
Definition _save_params (self : TrainingTask) (w : World) : result unit * World :=
  match write_file (output_path self ++ [params_file self]) (params_json self) (fs w) with
  | Ok f => (Ok (), set_fs w f)
  | Raise e => (Raise e, w)
  end.

(** The [finally] clause.  [self.device_id] is a property that caches
    its value in [_device_id] when it is first read; [device_id] is
    that cached value, as [train] leaves it once it has selected its
    device. *)
Definition release_device (self : TrainingTask) (w : World) : World :=
  if decide (device self = "cuda") then
    mkWorld (fs w)
            (match device_id self with
             | Some d => cuda_available w ++ [d]
             | None => cuda_available w
             end)
            (seeded w) (mlflow_log w)
  else w.

(** [try: self.train() / except Exception: rmtree; raise / finally: ...] *)
Definition guarded_train (self : TrainingTask) (w : World) : result unit * World :=
  match train self w with
  | (Ok tt, w) => (Ok tt, release_device self w)
  | (Raise e, w) =>
      if is_Exception e then
        match rmtree (output_path self) (fs w) with
        | Ok f => (Raise e, release_device self (set_fs w f))
        | Raise e' => (Raise e', release_device self w)
        end
      else (Raise e, release_device self w)
  end.

(** What [_BaseModelTraining.run] does before the [try]: seeding, the
    output directory, the parameter file. *)
Definition _BaseModelTraining_prologue (self : TrainingTask) (w : World)
    : result unit * World :=
  let w := seed_everything self w in
  match makedirs (output_path self) (fs w) with
  | Raise e => (Raise e, w)
  | Ok f => _save_params self (set_fs w f)
  end.

(** [_BaseModelTraining.run] *)
Definition _BaseModelTraining_run (self : TrainingTask) (w : World)
    : result unit * World :=
  match _BaseModelTraining_prologue self w with
  | (Raise e, w) => (Raise e, w)
  | (Ok _, w) => guarded_train self w
  end.

(** [_save_params] of the older [BaseModelTraining]: it also logs every
    parameter to mlflow. *)
Definition BaseModelTraining_save_params (self : TrainingTask) (w : World)
    : result unit * World :=
  match _save_params self w with
  | (Raise e, w) => (Raise e, w)
  | (Ok tt, w) =>
      (Ok tt, foldl (fun w kv => log_mlflow w (LogParam kv.1)) w (param_kwargs self))
  end.

(** Leaving [with mlflow.start_run(...)]: the run is closed as finished
    or failed and the outcome passes through. *)
Definition end_run (r : result unit * World) : result unit * World :=
  (r.1, log_mlflow r.2 (EndRun (is_ok r.1))).

(** What [BaseModelTraining.run] does before the [try]. *)
Definition BaseModelTraining_prologue (self : TrainingTask) (w : World)
    : result unit * World :=
  let w := seed_everything self w in
  let w := log_mlflow w (SetExperiment (task_class_name self)) in
  let w := log_mlflow w (StartRun (task_id self)) in
  match makedirs (output_path self) (fs w) with
  | Raise e => (Raise e, w)
  | Ok f => BaseModelTraining_save_params self (set_fs w f)
  end.

(** [BaseModelTraining.run] *)
Definition BaseModelTraining_run (self : TrainingTask) (w : World)
    : result unit * World :=
  end_run
    match BaseModelTraining_prologue self w with
    | (Raise e, w) => (Raise e, w)
    | (Ok _, w) => guarded_train self w
    end.

(** ** Reference quantities and sample data *)

(** The input dimensions the constructor of [ContextualBandit]
    accumulates, as functions of its arguments.  The context dimension
    is undefined when numerical content is requested for the context
    without a [numerical_content_dim]. *)
Definition user_input_dim (a : ContextualBandit_args) : nat :=
  if user_embeddings a then n_factors a else 0.

Definition item_input_dim (a : ContextualBandit_args) : nat :=
  (if item_embeddings a then n_factors a else 0)
  + (if use_textual_content a
     then sum_list ((fun K => K * num_filters a) <$> filter_sizes a) else 0).

Definition context_input_dim (a : ContextualBandit_args) : option nat :=
  if context_embeddings a then
    let base := if use_buys_visits a then 2 else 0 in
    if use_numerical_content a then (fun d => base + d) <$> numerical_content_dim a
    else Some base
  else Some 0.

(** The weight [weight_init] leaves behind for a shape it accepts, and
    the layers and embedding tables that come out of the constructors
    when it accepts theirs. *)
Definition weights_of `{Torch} (shape : list nat) : list nat → Q :=
  match weight_init shape with
  | Ok w => w
  | Raise _ => fun _ => 0%Q
  end.

Definition initialised `{Torch} (n_in n_out : nat) : Linear :=
  mkLinear n_in n_out (fun o k => weights_of [n_out; n_in] [o; k]) (fun _ => 1 # 10).

Definition initialised_Embedding `{Torch} (n dim : nat) : Embedding :=
  mkEmbedding n dim (fun i j => weights_of [n; dim] [i; j]).

Fixpoint initialised_hidden_layers `{Torch} (prev : nat) (hidden_layers : list nat)
    : list Linear :=
  match hidden_layers with
  | [] => []
  | layer_size :: rest =>
      initialised prev layer_size :: initialised_hidden_layers layer_size rest
  end.

(** The initialiser accepts every one of the given shapes. *)
Definition accepts `{Torch} (shapes : list (list nat)) : Prop :=
  Forall (fun shape => succeeds (weight_init shape)) shapes.

(** The shapes of the embedding tables the constructor of
    [ContextualBandit] initialises, in its order, and of the
    convolutions its closing [self.apply(self.init_weights)] reaches. *)
Definition embedding_shapes (a : ContextualBandit_args) : list (list nat) :=
  (if user_embeddings a then [[n_users a; n_factors a]] else [])
  ++ (if item_embeddings a then [[n_items a; n_factors a]] else [])
  ++ (if use_textual_content a then [[vocab_size a; word_embeddings_size a]] else []).

Definition conv_shapes (a : ContextualBandit_args) : list (list nat) :=
  if use_textual_content a
  then (fun K => [num_filters a; 1; K; word_embeddings_size a]) <$> filter_sizes a
  else [].

(** The representations that are present, in the order in which
    [LogisticRegression.predict] joins them: context, user, item. *)
Definition present (item_representation user_representation
    context_representation : option tensor) : list tensor :=
  omap id [context_representation; user_representation; item_representation].

(** A [None] representation that follows a present one in the order
    item, user, context of the first-order loop. *)
Definition none_after_present (item_representation user_representation
    context_representation : option tensor) : Prop :=
  (is_Some item_representation
     ∧ (user_representation = None ∨ context_representation = None))
  ∨ (is_Some user_representation ∧ context_representation = None).

(** What an initialiser that scales by the fan-in divides by: the
    product of all dimensions of the weight but the first. *)
Definition fan_in (shape : list nat) : nat := foldr Nat.mul 1 (tail shape).

(** Rational stand-ins for the numeric kernels, to run the models on
    sample inputs: the "fast sigmoid", an L1 normalisation, a pooling
    that keeps shapes only, and an initialiser that leaves constant
    weights and, dividing by the fan-in as the default
    [lecun_normal_init] does, raises [ZeroDivisionError] on a weight
    without inputs. *)
Definition rational_torch : Torch := {|
  sigmoid := fun x => ((1 # 2) + x / (2 * (1 + (if Qle_bool 0 x then x else - x))))%Q;
  F_normalize := fun t =>
    Tensor (rows t) (cols t)
      (fun i j => entry t i j
                  / Qsum (cols t) (fun k => if Qle_bool 0 (entry t i k)
                                            then entry t i k else - entry t i k))%Q;
  weight_init := fun shape =>
    if decide (fan_in shape = 0) then Raise ZeroDivisionError
    else Ok (fun _ => (1 # 4)%Q);
  tensor3 := list (list (list Q));
  Embedding_call3 := fun e ids =>
    if decide (Forall (Forall (fun i => i < num_embeddings e)) ids)
    then Ok ((fun row : list nat =>
               (fun i : nat => table e i <$> seq 0 (embedding_dim e)) <$> row) <$> ids)
    else Raise IndexError;
  conv_block_op := fun convs x =>
    Ok (Tensor (length x) (sum_list (out_channels <$> convs)) (fun _ _ => 0%Q))
|}.

Definition sample_tensor (r c : nat) : tensor :=
  Tensor r c (fun i j => (Z.of_nat (i + j) # 3)%Q).

Definition sample_args (pred : string) (normalize : bool) (hidden : list nat)
    : ContextualBandit_args :=
  {| n_users := 4; n_items := 5; n_factors := 2; vocab_size := 10;
     word_embeddings_size := 3; num_filters := 2; filter_sizes := [1; 3; 5];
     use_buys_visits := true; user_embeddings := true; item_embeddings := true;
     use_numerical_content := true; numerical_content_dim := Some 3;
     context_embeddings := true; use_textual_content := false;
     use_normalize := normalize; binary := false; predictor := pred;
     fm_order := 1; fm_deep := false; fm_hidden_layers := hidden |}.



Definition sample_content : item_content :=
  {| ic_item_ids := [0; 1]; ic_name := [[1]; [2]]; ic_description := [[1]; [2]];
     ic_category := [[1]; [2]]; ic_info := sample_tensor 2 3;
     ic_visits := Vector 2 (fun _ => 1%Q); ic_buys := Vector 2 (fun _ => 0%Q) |}.

(** A factorization machine for models without item features: context
    and user inputs of width two, no deep part. *)
Definition dfm_without_item : result DeepFactorizationMachine :=
  @DeepFactorizationMachine_init rational_torch 2 2 0 2 1 false [4].

(** One with context features only. *)
Definition dfm_context_only : result DeepFactorizationMachine :=
  @DeepFactorizationMachine_init rational_torch 2 2 0 0 1 false [4].

(** The states a task goes through: the [_unique_items] cache starts
    empty and is written by [_get_arm_indices] only; the generator and
    the test data frame may be anything. *)
Inductive reachable (self : SupervisedModelTraining) : State → Prop :=
  | reachable_init g df :
      reachable self (mkState None g df)
  | reachable_get_arm_indices st ob a st' :
      reachable self st →
      _get_arm_indices self ob st = Ok (a, st') →
      reachable self st'
  | reachable_other st g df :
      reachable self st →
      reachable self (mkState (_unique_items st) g df).

(** What the cache holds once filled: the unique training items, the
    first hundred of them in some order. *)
Definition cache_inv (self : SupervisedModelTraining) (st : State) : Prop :=
  ∀ u, _unique_items st = Some u →
    ∃ items, training_items self = Ok items
             ∧ take 100 u ≡ₚ take 100 (unique items)
             ∧ drop 100 u = drop 100 (unique items).

(** Sample project: users, items, one further input, a click output. *)
Definition sample_config (arms : option string) : ProjectConfig :=
  mkConfig (mkColumn "user") (mkColumn "item") [mkColumn "hour"]
    (mkColumn "clicked") [mkColumn "ps"] "hist_view" "hist_clicked" arms.

Definition sample_row (user item hour clicked : nat) (arms : list nat)
    : gmap string value :=
  list_to_map [("user", VInt user); ("item", VInt item); ("hour", VInt hour);
               ("clicked", VInt clicked); ("arms", VArr arms)].

Definition sample_train_frame : DataFrame :=
  mkDF ["user"; "item"; "hour"; "clicked"; "arms"]
    [sample_row 0 2 9 1 [2; 4]; sample_row 1 4 10 0 [4; 1]; sample_row 0 2 11 1 [2]].

Definition sample_val_frame : DataFrame :=
  mkDF ["user"; "item"; "hour"; "clicked"; "arms"]
    [sample_row 1 1 12 1 [1; 2]].

Definition sample_test_frame : DataFrame :=
  mkDF ["user"; "item"; "hour"; "clicked"; "arms"]
    [sample_row 0 4 13 1 [3; 1; 4]; sample_row 1 3 14 0 []].

Definition sample_task (arms : option string) : SupervisedModelTraining :=
  mkTask (sample_config arms) sample_train_frame sample_val_frame None.

Definition sample_rng : rng := mkRng (fun n => 7 * n + 3) 0.

Definition sample_state : State := mkState None sample_rng sample_test_frame.

(** A sample agent: its reward model scores row [i] of a dataset with
    [(i mod 3 + 1) / 4]; it ranks arms in reverse order of arrival. *)
Definition sample_bandit : BanditPolicy :=
  mkBandit
    (Some (fun ds => Ok (OutTensor
                           (Tensor (dataset_len ds) 1
                              (fun i _ => (Z.of_nat (i `mod` 3 + 1) # 4)%Q)))))
    (fun arm_indices _ => (fun a => (Z.of_nat a # 10)%Q) <$> arm_indices).

Definition sample_agent : BanditAgent :=
  mkAgent sample_bandit
    (fun arm_indices _ arm_scores => (reverse arm_indices, arm_scores))
    (fun arm_indices _ _ => hd 0 arm_indices).

(** The same bandit behind an agent that ranks arms as they come. *)
Definition sample_agent_in_order : BanditAgent :=
  mkAgent sample_bandit
    (fun arm_indices _ arm_scores => (arm_indices, arm_scores))
    (fun arm_indices _ _ => hd 0 arm_indices).

(** A test frame that already has a column named [action_scores], as
    the predictions file of an earlier run would. *)
Definition scored_test_frame : DataFrame :=
  set_column_scalar "action_scores" (VInt 7) sample_test_frame.

Definition scored_state : State := mkState None sample_rng scored_test_frame.

(** Appending a column label unless it is there. *)
Definition add_column (columns : list string) (c : string) : list string :=
  if decide (c ∈ columns) then columns else columns ++ [c].

(** The three columns [_save_test_set_predictions] assigns. *)
Definition prediction_columns : list string :=
  ["sorted_actions"; "prob_actions"; "action_scores"].






(** The values that occur in a list, and how many distinct ones there
    are. *)
Definition values (l : list nat) : gset nat := list_to_set l.

Definition distinct (l : list nat) : nat := size (values l).

(** A sample training task and three [train] methods: one that writes
    its summary and is interrupted, one that writes it and fails with an
    ordinary error, one that completes. *)
Definition sample_output : path := ["output"; "models"; "task_1"].

Definition train_then (outcome : result unit) (w : World) : result unit * World :=
  match write_file (sample_output ++ ["summary.txt"]) "summary" (fs w) with
  | Ok f => (outcome, set_fs w f)
  | Raise e => (Raise e, w)
  end.

Definition sample_training (outcome : result unit) : TrainingTask :=
  mkTraining "SupervisedModelTraining" "task_1" sample_output "params.json"
    [("seed", "42")] "seed: 42" 42 "cuda" (Some 0) (train_then outcome).

Definition empty_world : World := mkWorld ∅ [] None [].

(** ** Shapes *)

(** A tensor of [B] rows and [w] columns. *)
Definition sized (B w : nat) (t : tensor) : Prop := rows t = B ∧ cols t = w.

(** A representation that fits an input dimension [d] of a constructor:
    a batch of [B] rows of width [d] when the dimension is positive,
    [None] when it is zero. *)
Definition fits (B d : nat) (r : option tensor) : Prop :=
  match r with
  | Some t => 0 < d ∧ sized B d t
  | None => d = 0
  end.

(** Layers in which each one takes what the one before it puts out,
    starting from width [prev]. *)
Fixpoint chained (prev : nat) (layers : list Linear) : Prop :=
  match layers with
  | [] => True
  | l :: layers' => in_features l = prev ∧ chained (out_features l) layers'
  end.

(** The width that comes out of such a chain. *)
Definition chain_out (prev : nat) (layers : list Linear) : nat :=
  default prev (out_features <$> last layers).

(** A normalisation that keeps the shape of its argument, as
    [F.normalize] does. *)
Definition keeps_shape (f : tensor → tensor) : Prop :=
  ∀ t, rows (f t) = rows t ∧ cols (f t) = cols t.

(** What the first-order loop of [DeepFactorizationMachine.predict]
    can join: a context representation, and an item representation only
    together with a user representation. *)
Definition joinable (item_representation user_representation
    context_representation : option tensor) : Prop :=
  is_Some context_representation
  ∧ (is_Some item_representation → is_Some user_representation).

(** A representation that is present exactly when [on] holds, and is
    then a batch of [B] rows of width [w]. *)
Definition shaped (B w : nat) (on : bool) (r : option tensor) : Prop :=
  match r with
  | Some t => on = true ∧ sized B w t
  | None => on = false
  end.

(** The width of what [compute_context_embeddings] puts together. *)
Definition context_width (a : ContextualBandit_args) (info : tensor) : nat :=
  (if use_numerical_content a then cols info else 0)
  + (if use_buys_visits a then 2 else 0).

(** The inputs of [forward] form one batch of [B] rows. *)
Definition batch (B : nat) (user_ids : list nat) (content : item_content) : Prop :=
  length user_ids = B ∧ length (ic_item_ids content) = B
  ∧ rows (ic_info content) = B
  ∧ len (ic_visits content) = B ∧ len (ic_buys content) = B.

(** Every user and item index is inside the embedding tables. *)
Definition known_ids (a : ContextualBandit_args) (user_ids : list nat)
    (content : item_content) : Prop :=
  Forall (fun i => i < n_users a) user_ids
  ∧ Forall (fun i => i < n_items a) (ic_item_ids content).

(** ** Python dictionaries *)

(** A Python [dict]: its items in insertion order, every key once. *)
Abbreviation dict A B := (list (A * B)).

(** [d[k]] *)
Fixpoint dict_get {A B} `{EqDecision A} (d : dict A B) (k : A) : result B :=
  match d with
  | [] => Raise KeyError
  | (k', v) :: d' => if decide (k' = k) then Ok v else dict_get d' k
  end.

(** [d[k] = v]: an old key keeps its place, a new one goes last. *)
Fixpoint dict_set {A B} `{EqDecision A} (k : A) (v : B) (d : dict A B) : dict A B :=
  match d with
  | [] => [(k, v)]
  | (k', v') :: d' => if decide (k' = k) then (k, v) :: d' else (k', v') :: dict_set k v d'
  end.

(** [{k: v for k, v in items}] and [d.update(items)] *)
Definition dict_update {A B} `{EqDecision A} (d : dict A B) (items : list (A * B))
    : dict A B :=
  foldl (fun d kv => dict_set kv.1 kv.2 d) d items.

Definition dict_of {A B} `{EqDecision A} (items : list (A * B)) : dict A B :=
  dict_update [] items.

(** [max(xs)] *)
Definition py_max (xs : list nat) : result nat :=
  match xs with
  | [] => Raise ValueError
  | _ => Ok (max_list xs)
  end.

(** ** The index mapping and the cached data frames *)

(** The properties of [_BaseModelTraining] that load the data frames and
    build the index mapping call each other and keep their results in
    attributes of the task; the mapping is also pickled next to the
    task's output.  The names of that class live in a module of their
    own. *)
Module Indexing.

(** [IOType], as far as the task looks at it. *)
Inductive IOType := INDEXABLE | INDEXABLE_ARRAY | NUMBER.

#[export] Instance IOType_eq_dec : EqDecision IOType.
Proof. solve_decision. Defined.

(** A column of the project: its name, its type, and the column whose
    index it shares, if any. *)
Record Column := mkColumn {
  name : string;
  type : IOType;
  same_index_as : option string
}.

(** Truthiness of [column.same_index_as]. *)
Definition shares_index (column : Column) : option string :=
  match same_index_as column with
  | Some c => if decide (c = "") then None else Some c
  | None => None
  end.

Record ProjectConfig := mkConfig {
  all_columns : list Column;
  user_column : Column;
  item_column : Column
}.

(** [Dict[str, Dict[Any, int]]]: per column, raw value to index. *)
Abbreviation Mapping := (dict string (dict value nat)).

(** The functions of [mars_gym.utils.index_mapping] and
    [mars_gym.data.utils] that the properties call, and the dataset
    class: their code is not part of this development, so everything
    below holds for whatever they compute.  [transform_with_indexing]
    rewrites a frame in place; here it returns the rewritten frame. *)
Class Utils := {
  preprocess_interactions_data_frame : DataFrame → ProjectConfig → DataFrame;
  transform_with_indexing : DataFrame → Mapping → ProjectConfig → DataFrame;
  create_index_mapping : list value → dict value nat;
  create_index_mapping_from_arrays : list value → dict value nat;
  Dataset : Type
}.

(** The files of a task: its three inputs, and below its output
    directory, if that exists, the pickled index mapping. *)
Record Disk := mkDisk {
  train_csv : DataFrame;
  val_csv : DataFrame;
  test_csv : DataFrame;
  output_dir : bool;
  index_mapping_file : option Mapping
}.

Section Task.
Context `{Utils}.

(** The task object: its configuration, the disk, and the attributes
    the properties set and delete ([None], or [false] for a flag: the
    attribute does not exist). *)
Record Task := mkTask {
  project_config : ProjectConfig;
  disk : Disk;
  _train_data_frame : option DataFrame;
  _val_data_frame : option DataFrame;
  _test_data_frame : option DataFrame;
  _train_data_frame_indexed : bool;
  _val_data_frame_indexed : bool;
  _test_data_frame_indexed : bool;
  _creating_index_mapping : bool;
  _index_mapping : option Mapping;
  _train_dataset : option Dataset;
  _val_dataset : option Dataset;
  _test_dataset : option Dataset;
  _metadata_data_frame : option (option DataFrame);
  _n_users : option nat;
  _n_items : option nat
}.

(** A freshly constructed task. *)
Definition new_Task (cfg : ProjectConfig) (d : Disk) : Task :=
  mkTask cfg d None None None false false false false None None None None None None None.

(** A method: it returns or raises, and leaves the attributes as they
    are at that point. *)
Definition M (A : Type) : Type := Task → result A * Task.

Definition ret {A} (a : A) : M A := fun s => (Ok a, s).
Definition raise {A} (e : exn) : M A := fun s => (Raise e, s).
Definition bind {A B} (m : M A) (k : A → M B) : M B :=
  fun s => match m s with
           | (Ok a, s') => k a s'
           | (Raise e, s') => (Raise e, s')
           end.
Definition lift {A} (r : result A) : M A := fun s => (r, s).
Definition modify (f : Task → Task) : M unit := fun s => (Ok (), f s).

(** The three data frame properties differ in the attributes they use. *)
Inductive split := Train | Val | Test.

#[export] Instance split_eq_dec : EqDecision split.
Proof. solve_decision. Defined.

Definition read_csv (which : split) (d : Disk) : DataFrame :=
  match which with Train => train_csv d | Val => val_csv d | Test => test_csv d end.

Definition data_frame_attr (which : split) (s : Task) : option DataFrame :=
  match which with
  | Train => _train_data_frame s
  | Val => _val_data_frame s
  | Test => _test_data_frame s
  end.

Definition indexed_attr (which : split) (s : Task) : bool :=
  match which with
  | Train => _train_data_frame_indexed s
  | Val => _val_data_frame_indexed s
  | Test => _test_data_frame_indexed s
  end.

Definition set_data_frame (which : split) (v : option DataFrame) (s : Task) : Task :=
  mkTask (project_config s) (disk s)
    (if which is Train then v else _train_data_frame s)
    (if which is Val then v else _val_data_frame s)
    (if which is Test then v else _test_data_frame s)
    (_train_data_frame_indexed s) (_val_data_frame_indexed s) (_test_data_frame_indexed s)
    (_creating_index_mapping s) (_index_mapping s)
    (_train_dataset s) (_val_dataset s) (_test_dataset s) (_metadata_data_frame s)
    (_n_users s) (_n_items s).

Definition set_indexed (which : split) (s : Task) : Task :=
  mkTask (project_config s) (disk s)
    (_train_data_frame s) (_val_data_frame s) (_test_data_frame s)
    (if which is Train then true else _train_data_frame_indexed s)
    (if which is Val then true else _val_data_frame_indexed s)
    (if which is Test then true else _test_data_frame_indexed s)
    (_creating_index_mapping s) (_index_mapping s)
    (_train_dataset s) (_val_dataset s) (_test_dataset s) (_metadata_data_frame s)
    (_n_users s) (_n_items s).

Definition set_creating_index_mapping (b : bool) (s : Task) : Task :=
  mkTask (project_config s) (disk s)
    (_train_data_frame s) (_val_data_frame s) (_test_data_frame s)
    (_train_data_frame_indexed s) (_val_data_frame_indexed s) (_test_data_frame_indexed s)
    b (_index_mapping s)
    (_train_dataset s) (_val_dataset s) (_test_dataset s) (_metadata_data_frame s)
    (_n_users s) (_n_items s).

Definition set_index_mapping (m : Mapping) (s : Task) : Task :=
  mkTask (project_config s) (disk s)
    (_train_data_frame s) (_val_data_frame s) (_test_data_frame s)
    (_train_data_frame_indexed s) (_val_data_frame_indexed s) (_test_data_frame_indexed s)
    (_creating_index_mapping s) (Some m)
    (_train_dataset s) (_val_dataset s) (_test_dataset s) (_metadata_data_frame s)
    (_n_users s) (_n_items s).

Definition set_disk (d : Disk) (s : Task) : Task :=
  mkTask (project_config s) d
    (_train_data_frame s) (_val_data_frame s) (_test_data_frame s)
    (_train_data_frame_indexed s) (_val_data_frame_indexed s) (_test_data_frame_indexed s)
    (_creating_index_mapping s) (_index_mapping s)
    (_train_dataset s) (_val_dataset s) (_test_dataset s) (_metadata_data_frame s)
    (_n_users s) (_n_items s).

(** [df[column].values] *)
Definition column_values (df : DataFrame) (column : string) : result (list value) :=
  if decide (column ∈ df_columns df) then Ok (column_cells (df_rows df) column)
  else Raise KeyError.

(** [{column.name: create(df[column.name].values)
      for column in all_columns if column.type == t and not column.same_index_as}] *)
Definition mapping_of_type (t : IOType) (create : list value → dict value nat)
    (cfg : ProjectConfig) (df : DataFrame) : result Mapping :=
  items ← mapM_result
             (fun column => vs ← column_values df (name column);
                            Ok (name column, create vs))
             (filter (fun column => type column = t ∧ shares_index column = None)
                (all_columns cfg));
  Ok (dict_of items).

(** One round of the loop over the columns that share an index: the
    mapping is changed in place. *)
Definition share_index (column : Column) : M unit :=
  fun s =>
    match shares_index column with
    | None => (Ok (), s)
    | Some other =>
        match dict_get (default [] (_index_mapping s)) other with
        | Ok d => (Ok (), set_index_mapping
                            (dict_set (name column) d (default [] (_index_mapping s))) s)
        | Raise e => (Raise e, s)
        end
    end.

Fixpoint for_each {A} (f : A → M unit) (l : list A) : M unit :=
  match l with
  | [] => ret ()
  | a :: l' => bind (f a) (fun _ => for_each f l')
  end.

(** [with open(index_mapping_path, "wb") as f: pickle.dump(m, f)] *)
Definition pickle_dump (m : Mapping) : M unit :=
  fun s =>
    if output_dir (disk s) then
      (Ok (), set_disk (mkDisk (train_csv (disk s)) (val_csv (disk s)) (test_csv (disk s))
                          true (Some m)) s)
    else (Raise OSError, s).

(** The data frame properties and [index_mapping] call each other;
    [depth] is the room left on the call stack, and running out of it
    is Python's [RecursionError], a [RuntimeError]. *)
Fixpoint data_frame (depth : nat) (which : split) : M DataFrame :=
  match depth with
  | 0 => raise RuntimeError
  | S depth =>
      bind (fun s =>
              match data_frame_attr which s with
              | Some df => (Ok df, s)
              | None =>
                  let df := preprocess_interactions_data_frame (read_csv which (disk s))
                              (project_config s) in
                  (Ok df, set_data_frame which (Some df) s)
              end)
        (fun df s =>
           (* Needed in case index_mapping was invoked before *)
           if negb (_creating_index_mapping s) && negb (indexed_attr which s) then
             bind (index_mapping depth)
               (fun m s =>
                  let df := transform_with_indexing df m (project_config s) in
                  (Ok df, set_indexed which (set_data_frame which (Some df) s))) s
           else (Ok df, s))
  end
with index_mapping (depth : nat) : M Mapping :=
  match depth with
  | 0 => raise RuntimeError
  | S depth =>
      fun s =>
        match _index_mapping s with
        | Some m => (Ok m, s)
        | None =>
            match index_mapping_file (disk s) with
            | Some m => (Ok m, set_index_mapping m s)
            | None =>
                bind (modify (set_creating_index_mapping true)) (fun _ =>
                (* df = self.get_data_frame_for_indexing() *)
                bind (data_frame depth Train) (fun train =>
                bind (data_frame depth Val) (fun val =>
                bind (lift (pd_concat [train; val])) (fun df =>
                bind (fun s => (mapping_of_type INDEXABLE create_index_mapping
                                  (project_config s) df, s)) (fun m =>
                bind (modify (set_index_mapping m)) (fun _ =>
                bind (fun s => (mapping_of_type INDEXABLE_ARRAY
                                  create_index_mapping_from_arrays
                                  (project_config s) df, s)) (fun arrays =>
                bind (modify (set_index_mapping (dict_update m arrays))) (fun _ =>
                bind (fun s => for_each share_index (all_columns (project_config s)) s)
                  (fun _ =>
                bind (fun s => pickle_dump (default [] (_index_mapping s)) s) (fun _ =>
                bind (modify (set_creating_index_mapping false)) (fun _ =>
                fun s => (Ok (default [] (_index_mapping s)), s)))))))))))) s
            end
        end
  end.

Definition train_data_frame (depth : nat) : M DataFrame := data_frame depth Train.
Definition val_data_frame (depth : nat) : M DataFrame := data_frame depth Val.
Definition test_data_frame (depth : nat) : M DataFrame := data_frame depth Test.

Definition get_data_frame_for_indexing (depth : nat) : M DataFrame :=
  bind (train_data_frame depth) (fun train =>
  bind (val_data_frame depth) (fun val =>
  lift (pd_concat [train; val]))).

(** [{key: {value_: key_ for key_, value_ in mapping.items()}
      for key, mapping in self.index_mapping.items()}] *)
Definition reverse_dict (mapping : dict value nat) : dict nat value :=
  dict_of ((fun kv => (kv.2, kv.1)) <$> mapping).

Definition reverse_index_mapping (depth : nat) : M (dict string (dict nat value)) :=
  bind (index_mapping depth) (fun m =>
  ret (dict_of ((fun kv => (kv.1, reverse_dict kv.2)) <$> m))).

Definition n_users (depth : nat) : M nat :=
  fun s =>
    match _n_users s with
    | Some n => (Ok n, s)
    | None =>
        bind (index_mapping depth) (fun m =>
        bind (lift (dict_get m (name (user_column (project_config s))))) (fun d =>
        bind (lift (py_max d.*2)) (fun n s =>
        (Ok (n + 1),
         mkTask (project_config s) (disk s)
           (_train_data_frame s) (_val_data_frame s) (_test_data_frame s)
           (_train_data_frame_indexed s) (_val_data_frame_indexed s)
           (_test_data_frame_indexed s) (_creating_index_mapping s) (_index_mapping s)
           (_train_dataset s) (_val_dataset s) (_test_dataset s) (_metadata_data_frame s)
           (Some (n + 1)) (_n_items s))))) s
    end.

Definition n_items (depth : nat) : M nat :=
  fun s =>
    match _n_items s with
    | Some n => (Ok n, s)
    | None =>
        bind (index_mapping depth) (fun m =>
        bind (lift (dict_get m (name (item_column (project_config s))))) (fun d =>
        bind (lift (py_max d.*2)) (fun n s =>
        (Ok (n + 1),
         mkTask (project_config s) (disk s)
           (_train_data_frame s) (_val_data_frame s) (_test_data_frame s)
           (_train_data_frame_indexed s) (_val_data_frame_indexed s)
           (_test_data_frame_indexed s) (_creating_index_mapping s) (_index_mapping s)
           (_train_dataset s) (_val_dataset s) (_test_dataset s) (_metadata_data_frame s)
           (_n_users s) (Some (n + 1)))))) s
    end.

(** The names in [cache_attrs]. *)
Inductive cache_attr :=
  | attr_test_dataset | attr_val_dataset | attr_train_dataset
  | attr_test_data_frame | attr_val_data_frame | attr_train_data_frame
  | attr_metadata_data_frame.

Definition cache_attrs : list cache_attr :=
  [attr_test_dataset; attr_val_dataset; attr_train_dataset;
   attr_test_data_frame; attr_val_data_frame; attr_train_data_frame;
   attr_metadata_data_frame].

(** [if hasattr(self, a): delattr(self, a)] *)
Definition delattr (a : cache_attr) (s : Task) : Task :=
  mkTask (project_config s) (disk s)
    (if a is attr_train_data_frame then None else _train_data_frame s)
    (if a is attr_val_data_frame then None else _val_data_frame s)
    (if a is attr_test_data_frame then None else _test_data_frame s)
    (_train_data_frame_indexed s) (_val_data_frame_indexed s) (_test_data_frame_indexed s)
    (_creating_index_mapping s) (_index_mapping s)
    (if a is attr_train_dataset then None else _train_dataset s)
    (if a is attr_val_dataset then None else _val_dataset s)
    (if a is attr_test_dataset then None else _test_dataset s)
    (if a is attr_metadata_data_frame then None else _metadata_data_frame s)
    (_n_users s) (_n_items s).

Definition cache_cleanup (s : Task) : Task := foldl (fun s a => delattr a s) s cache_attrs.

(** [clean] of [SupervisedModelTraining] *)
Definition clean (s : Task) : Task :=
  delattr attr_train_data_frame (delattr attr_test_dataset (delattr attr_train_dataset s)).

(** Reference quantities: the frame a property reads before any
    indexing, and the mapping the three stages of [index_mapping] build
    from a frame when none of them raises. *)
Definition raw (which : split) (cfg : ProjectConfig) (d : Disk) : DataFrame :=
  preprocess_interactions_data_frame (read_csv which d) cfg.

(** The first step of a data frame property: the frame is read unless
    the attribute is there. *)
Definition load (which : split) (s : Task) : Task :=
  match data_frame_attr which s with
  | Some _ => s
  | None => set_data_frame which (Some (raw which (project_config s) (disk s))) s
  end.

Definition loaded_frame (which : split) (s : Task) : DataFrame :=
  default (raw which (project_config s) (disk s)) (data_frame_attr which s).

Definition share_all (columns : list Column) (m : Mapping) : result Mapping :=
  foldM (fun m column =>
           match shares_index column with
           | None => Ok m
           | Some other => d ← dict_get m other; Ok (dict_set (name column) d m)
           end) m columns.

Definition built_mapping (cfg : ProjectConfig) (df : DataFrame) : result Mapping :=
  m ← mapping_of_type INDEXABLE create_index_mapping cfg df;
  arrays ← mapping_of_type INDEXABLE_ARRAY create_index_mapping_from_arrays cfg df;
  share_all (all_columns cfg) (dict_update m arrays).

End Task.
End Indexing.

(** Stand-ins for the imported functions, to run the properties on
    sample data: no preprocessing, a mapping that numbers the distinct
    integers of a column in order of appearance, and a transformation
    that only tags the frame with the number of mapped columns. *)
Definition sample_utils : Indexing.Utils := {|
  Indexing.preprocess_interactions_data_frame := fun df _ => df;
  Indexing.transform_with_indexing := fun df m _ =>
    set_column_scalar "indexed" (VInt (length m)) df;
  Indexing.create_index_mapping := fun vs =>
    imap (fun i n => (VInt n, i))
      (unique (omap (fun v => if v is VInt n then Some n else None) vs));
  Indexing.create_index_mapping_from_arrays := fun _ => [];
  Indexing.Dataset := unit
|}.

Definition sample_indexing_config : Indexing.ProjectConfig :=
  Indexing.mkConfig
    [Indexing.mkColumn "user" Indexing.INDEXABLE None;
     Indexing.mkColumn "item" Indexing.INDEXABLE None;
     Indexing.mkColumn "hour" Indexing.NUMBER None]
    (Indexing.mkColumn "user" Indexing.INDEXABLE None)
    (Indexing.mkColumn "item" Indexing.INDEXABLE None).

Definition sample_disk (output_dir : bool) : Indexing.Disk :=
  Indexing.mkDisk sample_train_frame sample_val_frame sample_test_frame output_dir None.

(** A disk whose mapping file knows one column, without entries. *)
Definition pickled_disk : Indexing.Disk :=
  Indexing.mkDisk sample_train_frame sample_val_frame sample_test_frame true
    (Some [("user", [])]).

(** ** The evaluation plots *)

(** [l[i]] for an index that is not negative. *)
Definition list_getitem {A} (l : list A) (i : nat) : result A :=
  match l !! i with
  | Some x => Ok x
  | None => Raise IndexError
  end.

(** [enumerate(l)] *)
Definition enumerate {A} (l : list A) : list (nat * A) := imap pair l.

(** [px.colors.qualitative.Plotly], the ten colours of the library. *)
Definition Plotly : list string :=
  ["#636EFA"; "#EF553B"; "#00CC96"; "#AB63FA"; "#FFA15A";
   "#19D3F3"; "#FF6692"; "#B6E880"; "#FF97FF"; "#FECB52"].

(** [get_colors]: the value [dict(color=c)] of a model is kept as [c]. *)
Definition get_colors (models : list string) (color : list string)
    : result (dict string string) :=
  foldM (fun line_dict im =>
           c ← list_getitem color (im.1 `mod` 10);
           Ok (dict_set im.2 c line_dict))
        [] (enumerate models).

(** * Properties *)

(** ** Fallible computations *)

Lemma succeeds_not_fails {A} (r : result A) : succeeds r → ¬ fails r.
Proof. intros [a ->] [e He]. discriminate. Qed.

Lemma fails_bind {A B} (r : result A) (f : A → result B) :
  fails r → fails (r ≫= f).
Proof. intros [e ->]. by exists e. Qed.

Lemma fails_bind_inv {A B} (r : result A) (f : A → result B) :
  (∀ a, r = Ok a → fails (f a)) → fails (r ≫= f).
Proof. destruct r as [a|e]; intros Hf; [by apply Hf | by exists e]. Qed.

Lemma fails_fmap {A B} (r : result A) (f : A → B) : fails r → fails (f <$> r).
Proof. intros [e ->]. by exists e. Qed.

(** ** The contextual-bandit models *)

Section ModelFacts.
Context `{Torch}.


Lemma weights_of_Ok (shape : list nat) (w : list nat → Q) :
  weight_init shape = Ok w → weights_of shape = w.
Proof. intros Hw. unfold weights_of. by rewrite Hw. Qed.

Lemma init_weights_Ok (l l' : Linear) :
  init_weights l = Ok l' →
  succeeds (weight_init [out_features l; in_features l])
  ∧ l' = initialised (in_features l) (out_features l).
Proof.
  unfold init_weights, initialised, weights_of.
  destruct (weight_init _) as [w|e] eqn:Hw; cbn [mbind result_bind]; [|intros [=]].
  intros [= <-]. split; [by eexists | done].
Qed.

Lemma init_weights_accepted (l : Linear) :
  succeeds (weight_init [out_features l; in_features l]) →
  init_weights l = Ok (initialised (in_features l) (out_features l)).
Proof.
  intros [w Hw]. unfold init_weights, initialised, weights_of. by rewrite Hw.
Qed.


(** A second pass of [init_weights] leaves what the first one made. *)
Lemma init_weights_again (l l' : Linear) :
  init_weights l = Ok l' → init_weights l' = Ok l'.
Proof.
  intros [Hw ->]%init_weights_Ok. by rewrite init_weights_accepted.
Qed.

Lemma init_weights_attr_Ok (l l' : option Linear) :
  init_weights_attr l = Ok l' →
  l' = (fun l => initialised (in_features l) (out_features l)) <$> l
  ∧ init_weights_attr l' = Ok l'.
Proof.
  destruct l as [l|]; simpl; [|by intros [= <-]].
  destruct (init_weights l) as [l1|] eqn:Hl; simpl; [|intros [=]]. intros [= <-].
  split; [|simpl; by rewrite (init_weights_again l l1)].
  by apply init_weights_Ok in Hl as [_ ->].
Qed.

Lemma mapM_init_weights_Ok (prev : nat) (hidden : list nat) (ls : list Linear) :
  mapM_result init_weights (nn_hidden_layers prev hidden) = Ok ls →
  ls = initialised_hidden_layers prev hidden
  ∧ mapM_result init_weights ls = Ok ls.
Proof.
  revert prev ls. induction hidden as [|s hidden IH]; intros prev ls; simpl.
  - by intros [= <-].
  - destruct (init_weights (nn_Linear prev s)) as [l|] eqn:Hl; simpl; [|intros [=]].
    destruct (mapM_result init_weights (nn_hidden_layers s hidden)) as [ls'|] eqn:Hls;
      simpl; [|intros [=]].
    intros [= <-]. destruct (IH s ls' Hls) as [-> Hagain].
    pose proof (init_weights_again _ _ Hl) as Hl'.
    apply init_weights_Ok in Hl as [_ ->]. simpl in *. split; [done|].
    by rewrite Hl', Hagain.
Qed.

Lemma LogisticRegression_init_Ok (n : nat) (lr : LogisticRegression) :
  LogisticRegression_init n = Ok lr →
  lr = mkLR (initialised n 1) ∧ LogisticRegression_apply lr = Ok lr.
Proof.
  unfold LogisticRegression_init, LogisticRegression_apply. simpl.
  destruct (init_weights (nn_Linear n 1)) as [l|] eqn:Hl; simpl; [|intros [=]].
  intros [= <-]. simpl. rewrite (init_weights_again _ _ Hl).
  by apply init_weights_Ok in Hl as [_ ->].
Qed.




Lemma DeepFactorizationMachine_init_Ok
    (nf cd id ud order : nat) (deep : bool) (hidden : list nat)
    (m : DeepFactorizationMachine) :
  DeepFactorizationMachine_init nf cd id ud order deep hidden = Ok m →
  (∃ s, last hidden = Some s
     ∧ m = mkDFM (if decide (0 < cd) then Some (initialised cd nf) else None)
                 (if decide (0 < id) then Some (initialised id nf) else None)
                 (if decide (0 < ud) then Some (initialised ud nf) else None)
                 (initialised (cd + id + ud) 1) deep
                 (initialised_hidden_layers
                    ((if decide (0 < cd) then nf else 0)
                     + (if decide (0 < id) then nf else 0)
                     + (if decide (0 < ud) then nf else 0)) hidden)
                 (initialised s 1) order)
  ∧ DeepFactorizationMachine_apply m = Ok m.
Proof.
  unfold DeepFactorizationMachine_init.
  destruct (last hidden) as [s|]; [|repeat case_decide; intros [=]].
  assert (∀ context item user input_dnn,
            DeepFactorizationMachine_apply
              (mkDFM context item user (nn_Linear (cd + id + ud) 1) deep
                 (nn_hidden_layers input_dnn hidden) (nn_Linear s 1) order) = Ok m →
            m = mkDFM ((fun l => initialised (in_features l) (out_features l)) <$> context)
                  ((fun l => initialised (in_features l) (out_features l)) <$> item)
                  ((fun l => initialised (in_features l) (out_features l)) <$> user)
                  (initialised (cd + id + ud) 1) deep
                  (initialised_hidden_layers input_dnn hidden) (initialised s 1) order
            ∧ DeepFactorizationMachine_apply m = Ok m) as Happly.
  { intros context item user input_dnn. unfold DeepFactorizationMachine_apply.
    cbn [dfm_context dfm_item dfm_user dfm_linear dfm_deep dfm_hidden_layers
         dfm_deep_linear_out dfm_order].
    destruct (init_weights_attr context) as [c'|] eqn:Hc; cbn [mbind result_bind];
      [|intros [=]].
    destruct (init_weights_attr item) as [i'|] eqn:Hi; cbn [mbind result_bind];
      [|intros [=]].
    destruct (init_weights_attr user) as [u'|] eqn:Hu; cbn [mbind result_bind];
      [|intros [=]].
    destruct (init_weights (nn_Linear (cd + id + ud) 1)) as [l'|] eqn:Hl;
      cbn [mbind result_bind]; [|intros [=]].
    destruct (mapM_result init_weights (nn_hidden_layers input_dnn hidden)) as [hs|]
      eqn:Hh; cbn [mbind result_bind]; [|intros [=]].
    destruct (init_weights (nn_Linear s 1)) as [o'|] eqn:Ho; cbn [mbind result_bind];
      [|intros [=]].
    intros [= <-].
    cbn [dfm_context dfm_item dfm_user dfm_linear dfm_deep dfm_hidden_layers
         dfm_deep_linear_out dfm_order].
    apply init_weights_attr_Ok in Hc as [-> ->], Hi as [-> ->], Hu as [-> ->].
    cbn [mbind result_bind].
    rewrite (init_weights_again _ _ Hl), (init_weights_again _ _ Ho).
    apply mapM_init_weights_Ok in Hh as [-> ->]. cbn [mbind result_bind].
    apply init_weights_Ok in Hl as [_ ->], Ho as [_ ->]. done. }
  intros Hm. split; [exists s; split; [done|]|].
  - repeat case_decide; apply Happly in Hm as [-> _]; simpl; rewrite ?Nat.add_0_r; done.
  - repeat case_decide; by apply Happly in Hm as [_ ?].
Qed.

Lemma init_weights_convs_shapes (num_filters width : nat) (filter_sizes : list nat) :
  mapM_result init_weights_Conv2d
    ((fun K => mkConv2d num_filters (K, width)) <$> filter_sizes)
  = (fun _ => (fun K => mkConv2d num_filters (K, width)) <$> filter_sizes)
      <$> mapM_result weight_init
            ((fun K => [num_filters; 1; K; width]) <$> filter_sizes).
Proof.
  induction filter_sizes as [|K Ks IH]; [done|].
  rewrite !fmap_cons. cbn [mapM_result]. rewrite IH.
  change (init_weights_Conv2d (mkConv2d num_filters (K, width)))
    with (weight_init [num_filters; 1; K; width]
            ≫= fun _ => Ok (mkConv2d num_filters (K, width))).
  destruct (weight_init [num_filters; 1; K; width]) as [w|]; [|done].
  cbn [mbind result_bind].
  by destruct (mapM_result weight_init _).
Qed.

Lemma accepts_mapM (shapes : list (list nat)) :
  accepts shapes ↔ succeeds (mapM_result weight_init shapes).
Proof.
  unfold accepts. induction shapes as [|shape shapes IH]; simpl.
  - split; [by eexists | constructor].
  - rewrite Forall_cons, IH. split.
    + intros [[w ->] [ws ->]]. by eexists.
    + destruct (weight_init shape) as [w|]; simpl; [|by intros [? [=]]].
      destruct (mapM_result weight_init shapes) as [ws|]; simpl; [|by intros [? [=]]].
      intros _. split; by eexists.
Qed.

(** The convolutions and their re-initialisation, as functions of the
    arguments. *)
Lemma init_convs (a : ContextualBandit_args) :
  mapM_result init_weights_Conv2d
    (if use_textual_content a
     then (fun K => mkConv2d (num_filters a) (K, word_embeddings_size a))
            <$> filter_sizes a
     else [])
  = (fun _ => if use_textual_content a
              then (fun K => mkConv2d (num_filters a) (K, word_embeddings_size a))
                     <$> filter_sizes a
              else [])
      <$> mapM_result weight_init (conv_shapes a).
Proof.
  unfold conv_shapes. destruct (use_textual_content a); [|done].
  apply init_weights_convs_shapes.
Qed.

Lemma new_Embedding_accepted (n dim : nat) :
  succeeds (weight_init [n; dim]) → new_Embedding n dim = Ok (initialised_Embedding n dim).
Proof.
  intros [w Hw]. unfold new_Embedding, initialised_Embedding, weights_of. by rewrite Hw.
Qed.

Lemma embeddings_Raise (a : ContextualBandit_args) (e : exn) :
  mapM_result weight_init (embedding_shapes a) = Raise e →
  ContextualBandit_init a = Raise e.
Proof.
  unfold embedding_shapes, ContextualBandit_init, new_Embedding.
  destruct (user_embeddings a), (item_embeddings a), (use_textual_content a);
    cbn [app mapM_result];
    repeat match goal with
           | |- context [weight_init ?s] =>
               destruct (weight_init s); cbn [mbind result_bind]
           end; intros [=]; by subst.
Qed.

(** Past the embeddings and the context dimension the constructor is
    the dispatch on the predictor name followed by the closing
    [self.apply(self.init_weights)]. *)
Lemma init_reaches_dispatch (a : ContextualBandit_args) (c : nat) :
  accepts (embedding_shapes a) →
  context_input_dim a = Some c →
  ContextualBandit_init a =
    pred ← (if decide (predictor a = "logistic_regression") then
              PLogisticRegression <$>
                LogisticRegression_init (item_input_dim a + c + user_input_dim a)
            else if decide (predictor a = "factorization_machine") then
              PDeepFactorizationMachine <$>
                DeepFactorizationMachine_init (n_factors a) c (item_input_dim a)
                  (user_input_dim a) (fm_order a) (fm_deep a) (fm_hidden_layers a)
            else Raise NotImplementedError);
    _ ← mapM_result weight_init (conv_shapes a);
    pred ← Predictor_apply pred;
    Ok (mkCB (if user_embeddings a
              then Some (initialised_Embedding (n_users a) (n_factors a)) else None)
             (if item_embeddings a
              then Some (initialised_Embedding (n_items a) (n_factors a)) else None)
             (if use_textual_content a
              then Some (initialised_Embedding (vocab_size a) (word_embeddings_size a))
              else None)
             (if use_textual_content a
              then (fun K => mkConv2d (num_filters a) (K, word_embeddings_size a))
                     <$> filter_sizes a
              else [])
             (use_numerical_content a) (use_textual_content a) (use_normalize a)
             (use_buys_visits a) pred).
Proof.
  intros Hemb Hc. pose proof (init_convs a) as Hconvs.
  unfold accepts, embedding_shapes in Hemb.
  unfold context_input_dim, item_input_dim, user_input_dim, ContextualBandit_init in *.
  destruct (user_embeddings a), (item_embeddings a), (use_textual_content a);
    cbn [app] in Hemb;
    repeat match goal with
           | H : Forall _ (_ :: _) |- _ => apply Forall_cons in H as [?%new_Embedding_accepted H]
           end;
    repeat match goal with
           | H : new_Embedding _ _ = Ok _ |- _ => rewrite H; clear H
           end;
    cbn [mbind result_bind];
    destruct (context_embeddings a), (use_buys_visits a), (use_numerical_content a),
      (numerical_content_dim a); simpl in Hc; simplify_eq;
    cbn [mbind result_bind]; rewrite ?Nat.add_0_r, ?Nat.add_0_l;
    (destruct (if decide (predictor a = "logistic_regression") then _ else _) as [pred|];
     cbn [mbind result_bind]; [|done]);
    rewrite Hconvs; destruct (mapM_result weight_init (conv_shapes a));
    cbn [mbind result_bind fmap result_fmap]; done.
Qed.

Lemma context_dim_None_TypeError (a : ContextualBandit_args) :
  accepts (embedding_shapes a) →
  context_input_dim a = None → ContextualBandit_init a = Raise TypeError.
Proof.
  intros Hemb Hc. unfold accepts, embedding_shapes in Hemb.
  unfold context_input_dim, ContextualBandit_init in *.
  destruct (user_embeddings a), (item_embeddings a), (use_textual_content a);
    cbn [app] in Hemb;
    repeat match goal with
           | H : Forall _ (_ :: _) |- _ => apply Forall_cons in H as [?%new_Embedding_accepted H]
           end;
    repeat match goal with
           | H : new_Embedding _ _ = Ok _ |- _ => rewrite H; clear H
           end;
    cbn [mbind result_bind];
    destruct (context_embeddings a), (use_buys_visits a), (use_numerical_content a),
      (numerical_content_dim a); simpl in Hc; by simplify_eq.
Qed.

Lemma init_accepts_embeddings (a : ContextualBandit_args) :
  succeeds (ContextualBandit_init a) → accepts (embedding_shapes a).
Proof.
  intros [cb Hcb]. apply accepts_mapM.
  destruct (mapM_result weight_init (embedding_shapes a)) as [ws|e] eqn:Hemb;
    [by eexists|].
  rewrite (embeddings_Raise a e Hemb) in Hcb. discriminate.
Qed.

(** What a constructed model is made of. *)
Lemma init_Ok_cb (a : ContextualBandit_args) (cb : ContextualBandit) :
  ContextualBandit_init a = Ok cb →
  ∃ cdim pred,
    context_input_dim a = Some cdim
    ∧ cb = mkCB (if user_embeddings a
                 then Some (initialised_Embedding (n_users a) (n_factors a)) else None)
                (if item_embeddings a
                 then Some (initialised_Embedding (n_items a) (n_factors a)) else None)
                (if use_textual_content a
                 then Some (initialised_Embedding (vocab_size a) (word_embeddings_size a))
                 else None)
                (if use_textual_content a
                 then (fun K => mkConv2d (num_filters a) (K, word_embeddings_size a))
                        <$> filter_sizes a
                 else [])
                (use_numerical_content a) (use_textual_content a) (use_normalize a)
                (use_buys_visits a) pred
    ∧ accepts (embedding_shapes a) ∧ accepts (conv_shapes a)
    ∧ ((predictor a = "logistic_regression"
        ∧ pred = PLogisticRegression
                   (mkLR (initialised (item_input_dim a + cdim + user_input_dim a) 1))
        ∧ LogisticRegression_init (item_input_dim a + cdim + user_input_dim a)
          = Ok (mkLR (initialised (item_input_dim a + cdim + user_input_dim a) 1)))
       ∨ (predictor a = "factorization_machine"
          ∧ ∃ m, pred = PDeepFactorizationMachine m
                 ∧ DeepFactorizationMachine_init (n_factors a) cdim (item_input_dim a)
                     (user_input_dim a) (fm_order a) (fm_deep a) (fm_hidden_layers a)
                   = Ok m)).
Proof.
  intros Hinit. pose proof (init_accepts_embeddings a ltac:(by eexists)) as Hemb.
  destruct (context_input_dim a) as [cdim|] eqn:Hc.
  - rewrite (init_reaches_dispatch a cdim Hemb Hc) in Hinit. exists cdim.
    destruct (mapM_result weight_init (conv_shapes a)) as [ws|] eqn:Hconv.
    2:{ repeat case_decide;
          repeat match type of Hinit with
                 | context [?f <$> ?r] => destruct r; simpl in Hinit
                 end; discriminate. }
    assert (accepts (conv_shapes a)) as Hconvs by (apply accepts_mapM; by eexists).
    repeat case_decide.
    + destruct (LogisticRegression_init _) as [lr|] eqn:Hlr; simpl in Hinit;
        [|discriminate].
      pose proof Hlr as Hlr'. apply LogisticRegression_init_Ok in Hlr' as [-> Hagain].
      simpl in Hinit. rewrite Hagain in Hinit. simpl in Hinit.
      injection Hinit as <-. eexists. split; [done|]. split; [done|].
      split; [done|]. split; [done|]. by left.
    + destruct (DeepFactorizationMachine_init _ _ _ _ _ _ _) as [m|] eqn:Hm;
        simpl in Hinit; [|discriminate].
      pose proof (proj2 (DeepFactorizationMachine_init_Ok _ _ _ _ _ _ _ _ Hm)) as Hagain.
      rewrite Hagain in Hinit. simpl in Hinit.
      injection Hinit as <-. eexists. split; [done|]. split; [done|].
      split; [done|]. split; [done|]. right. split; [done|]. by exists m.
    + discriminate.
  - rewrite (context_dim_None_TypeError a Hemb Hc) in Hinit. discriminate.
Qed.

End ModelFacts.

Section ModelProperties.
Context `{Torch}.

Lemma init_Ok_fields (a : ContextualBandit_args) (cb : ContextualBandit) :
  ContextualBandit_init a = Ok cb →
  cb_user_embeddings cb
    = (if user_embeddings a
       then Some (initialised_Embedding (n_users a) (n_factors a)) else None)
  ∧ cb_use_normalize cb = use_normalize a
  ∧ (predictor a = "logistic_regression" ∨ predictor a = "factorization_machine").
Proof.
  intros (cdim & pred & _ & -> & _ & _ & Hpred)%init_Ok_cb. split; [done|].
  split; [done|]. destruct Hpred as [[? _]|[? _]]; auto.
Qed.


(** C9.  For every [ContextualBandit] constructed with user embeddings
    and without [use_normalize], [compute_user_embeddings] fails on every
    input (with [UnboundLocalError] once the lookup went through), and so
    does [forward]; with user embeddings, [compute_user_embeddings]
    succeeds only when [use_normalize] is enabled, and then it does for
    every batch of known users. *)
Theorem compute_user_embeddings_unbound (a : ContextualBandit_args)
    (cb : ContextualBandit) :
  ContextualBandit_init a = Ok cb →
  user_embeddings a = true →
  (use_normalize a = false →
     (∀ user_ids, fails (compute_user_embeddings cb user_ids))
     ∧ (∀ user_ids, Forall (fun i => i < n_users a) user_ids →
          compute_user_embeddings cb user_ids = Raise UnboundLocalError)
     ∧ (∀ (X : Type) user_ids content (v1 v2 v3 v4 : X),
          fails (ContextualBandit_forward cb user_ids content v1 v2 v3 v4)))
  ∧ (∀ user_ids, succeeds (compute_user_embeddings cb user_ids) →
       use_normalize a = true)
  ∧ (use_normalize a = true →
     ∀ user_ids, Forall (fun i => i < n_users a) user_ids →
       succeeds (compute_user_embeddings cb user_ids)).
Proof.
  intros Hinit Huser.
  apply init_Ok_fields in Hinit as (Hemb & Hnorm & _). rewrite Huser in Hemb.
  assert (Hfail : use_normalize a = false →
                  ∀ user_ids, fails (compute_user_embeddings cb user_ids)).
  { intros Hn user_ids. unfold compute_user_embeddings.
    rewrite Hemb, Hnorm, Hn. simpl.
    destruct (Embedding_call _ user_ids) as [t|e]; simpl; eexists; reflexivity. }
  split; [intros Hn; split; [by apply Hfail|split]|split].
  - intros user_ids Hids. unfold compute_user_embeddings.
    rewrite Hemb, Hnorm, Hn. simpl. unfold Embedding_call. simpl.
    by rewrite decide_True.
  - intros X user_ids content v1 v2 v3 v4. unfold ContextualBandit_forward.
    apply fails_bind_inv; intros ctx _. apply fails_bind_inv; intros it _.
    apply fails_bind. rewrite Hemb. apply fails_fmap. by apply Hfail.
  - intros user_ids Hok. destruct (use_normalize a) eqn:Hn; [done|].
    destruct (succeeds_not_fails _ Hok). by apply Hfail.
  - intros Hn user_ids Hids. unfold compute_user_embeddings.
    rewrite Hemb, Hnorm, Hn. simpl. unfold Embedding_call. simpl.
    rewrite decide_True by done. simpl. eexists; reflexivity.
Qed.

Lemma torch_cat_pair (x y : tensor) : torch_cat [Some x; Some y] = cat2 x y.
Proof. unfold torch_cat. simpl. by destruct (cat2 x y). Qed.

Lemma torch_cat_pair_None (x : tensor) : torch_cat [Some x; None] = Raise TypeError.
Proof. reflexivity. Qed.

Lemma torch_cat_triple (x y z : tensor) :
  torch_cat [Some x; Some y; Some z] = cat2 x y ≫= fun xy => cat2 xy z.
Proof.
  unfold torch_cat. simpl. destruct (cat2 x y) as [xy|]; simpl; [|done].
  by destruct (cat2 xy z).
Qed.

Lemma first_order_fails (i u c : option tensor) :
  none_after_present i u c → fails (first_order i u c).
Proof.
  unfold none_after_present, first_order.
  intros [[[ti ->] [-> | ->]] | [[tu ->] ->]];
    [|destruct u as [tu|]|destruct i as [ti|]];
    simpl; rewrite ?torch_cat_pair, ?torch_cat_pair_None; simpl;
    try (eexists; reflexivity);
    destruct (cat2 ti tu) as [x|e]; simpl; eexists; reflexivity.
Qed.

Lemma LogisticRegression_predict_present (lr : LogisticRegression)
    (i u c : option tensor) :
  present i u c ≠ [] →
  LogisticRegression_predict lr i u c
  = torch_sigmoid <$> (torch_cat (Some <$> present i u c) ≫= Linear_call (lr_linear lr)).
Proof.
  unfold LogisticRegression_predict, present.
  destruct i as [ti|], u as [tu|], c as [tc|]; simpl; intros Hne;
    try done; rewrite ?torch_cat_pair, ?torch_cat_triple; simpl;
    repeat match goal with
           | |- context [cat2 ?a ?b] =>
               destruct (cat2 a b); simpl; rewrite ?torch_cat_pair; simpl
           end; reflexivity.
Qed.

(** C10 (amended).  The first-order loop of
    [DeepFactorizationMachine.predict] walks item, user, context, takes
    the first representation that is present and concatenates every
    later one unconditionally.  So the call fails whenever a [None]
    follows a present representation in that order (item present with
    user or context [None]; user present with context [None]) and when
    all three are [None]; a [None] item, alone or with a [None] user, is
    skipped and the loop continues with what follows.  The latent-vector
    stage skips [None] inputs, and [LogisticRegression.predict] joins
    whatever non-empty subset is present, in the order context, user,
    item, and fails when nothing is. *)
Theorem predict_None_handling (self : DeepFactorizationMachine)
    (lr : LogisticRegression) (i u c : option tensor) :
  (none_after_present i u c → fails (DeepFactorizationMachine_predict self i u c))
  ∧ (i = None → u = None → c = None →
       fails (DeepFactorizationMachine_predict self i u c)
       ∧ fails (LogisticRegression_predict lr i u c))
  ∧ (i = None → first_order i u c = cat_or_take u c)
  ∧ (∀ layer latent_vectors, append_latent layer None latent_vectors = Ok latent_vectors)
  ∧ (present i u c ≠ [] →
       LogisticRegression_predict lr i u c
       = torch_sigmoid <$> (torch_cat (Some <$> present i u c)
                              ≫= Linear_call (lr_linear lr))).
Proof.
  split; [|split; [|split; [|split]]].
  - intros Hbad. unfold DeepFactorizationMachine_predict.
    do 3 (apply fails_bind_inv; intros ? _).
    apply fails_bind. by apply first_order_fails.
  - intros -> -> ->. split; [|eexists; reflexivity].
    unfold DeepFactorizationMachine_predict. simpl. eexists; reflexivity.
  - intros ->. unfold first_order. simpl. destruct u as [tu|]; simpl; [|done].
    by destruct (torch_cat [Some tu; c]).
  - reflexivity.
  - apply LogisticRegression_predict_present.
Qed.

End ModelProperties.



(** A model with user embeddings and no normalisation: both calls fail. *)
Lemma compute_user_embeddings_unbound_witness :
  ∃ cb, @ContextualBandit_init rational_torch
          (sample_args "logistic_regression" false [64; 32]) = Ok cb
        ∧ @compute_user_embeddings rational_torch cb [0; 1] = Raise UnboundLocalError
        ∧ fails (@ContextualBandit_forward rational_torch unit cb [0; 1]
                   sample_content () () () ()).
Proof.
  eexists. split; [reflexivity|].
  destruct (@compute_user_embeddings_unbound rational_torch
              (sample_args "logistic_regression" false [64; 32]) _ eq_refl eq_refl)
    as [Hfail _].
  destruct (Hfail eq_refl) as (_ & Hunbound & Hforward).
  split; [apply Hunbound; repeat constructor | apply Hforward].
Defined.

(** [predict] runs to the end with the item representation [None], and
    with item and user representations [None]. *)
Lemma DeepFactorizationMachine_predict_without_item :
  is_ok (dfm ← dfm_without_item;
         @DeepFactorizationMachine_predict rational_torch dfm
           None (Some (sample_tensor 3 2)) (Some (sample_tensor 3 2))) = true
  ∧ is_ok (dfm ← dfm_context_only;
           @DeepFactorizationMachine_predict rational_torch dfm
             None None (Some (sample_tensor 3 2))) = true.
Proof. split; reflexivity. Qed.

(** An item representation followed by a missing user representation. *)
Lemma predict_None_handling_witness :
  fails (@DeepFactorizationMachine_predict rational_torch
           (mkDFM None None None (@initialised rational_torch 2 1) false []
              (@initialised rational_torch 4 1) 1)
           (Some (sample_tensor 3 2)) None (Some (sample_tensor 3 2))).
Proof.
  apply (proj1 (@predict_None_handling rational_torch _
                  (mkLR (@initialised rational_torch 2 1)) _ _ _)).
  left. split; [by eexists | by left].
Defined.

(** ** Sample runs *)

Example random_shuffle_sample :
  (random_shuffle [10; 20; 30; 40] sample_rng).1 = [10; 30; 20; 40].
Proof. reflexivity. Qed.

Example np_flatnonzero_sample :
  np_flatnonzero (VVec [0; 1; 0; 1; 1]%Q) = Ok [1; 3; 4].
Proof. reflexivity. Qed.

Example indicator_sample :
  set_ones [3; 1; 4] (np_zeros (max_list [3; 1; 4] + 1)) = [0; 1; 0; 1; 1]%Q.
Proof. reflexivity. Qed.

Example unique_sample : unique [2; 4; 2; 1; 4] = [2; 4; 1].
Proof. reflexivity. Qed.

Example action_scores_sample :
  action_scores [1 # 4; 3 # 4; 2 # 4; 3 # 4]%Q = [3 # 4; 3 # 4; 2 # 4; 1 # 4]%Q.
Proof. reflexivity. Qed.

Example combinations_sample : combinations [1; 2; 3] 2 = [[1; 2]; [1; 3]; [2; 3]].
Proof. reflexivity. Qed.

(** Without an available-arms column the arms are the shuffled unique
    training items, and the cache holds them in the new order. *)
Example _get_arm_indices_view_sample :
  (match _get_arm_indices (sample_task None) ∅ sample_state with
   | Ok (a, st) => Some (read_arm_array st a, _unique_items st)
   | Raise _ => None
   end) = Some ([4; 1; 2], Some [4; 1; 2]).
Proof. vm_compute. reflexivity. Qed.

(** ** Lists: shuffling, non-zero positions, slices *)

Lemma swap_Permutation (x : list nat) (i j : nat) : swap x i j ≡ₚ x.
Proof.
  unfold swap. destruct (x !! i) as [xi|] eqn:Hi; [|done].
  destruct (x !! j) as [xj|] eqn:Hj; [|done].
  by apply Permutation_insert_swap.
Qed.

Lemma shuffle_from_Permutation (i : nat) (x : list nat) (g : rng) :
  (shuffle_from i x g).1 ≡ₚ x.
Proof.
  revert x g. induction i as [|i IH]; intros x g; simpl; [done|].
  rewrite IH. apply swap_Permutation.
Qed.

Lemma random_shuffle_Permutation (x : list nat) (g : rng) :
  (random_shuffle x g).1 ≡ₚ x.
Proof. apply shuffle_from_Permutation. Qed.

Lemma elem_of_flatnonzero_from {A} (nonzero : A → bool) (v : list A) (i a : nat) :
  a ∈ flatnonzero_from nonzero i v
  ↔ i ≤ a ∧ ∃ x, v !! (a - i) = Some x ∧ nonzero x = true.
Proof.
  revert i. induction v as [|y v IH]; intros i; simpl.
  - split; [by intros ?%elem_of_nil | by intros (_ & x & ? & _)].
  - assert (Htail : a ∈ flatnonzero_from nonzero (S i) v
                    ↔ i < a ∧ ∃ x, (y :: v) !! (a - i) = Some x ∧ nonzero x = true).
    { rewrite IH. split.
      - intros (Hle & x & Hx & Hnz). split; [lia|]. exists x. split; [|done].
        replace (a - i) with (S (a - S i)) by lia. done.
      - intros (Hlt & x & Hx & Hnz). split; [lia|]. exists x. split; [|done].
        replace (a - i) with (S (a - S i)) in Hx by lia. done. }
    destruct (nonzero y) eqn:Hy.
    + rewrite elem_of_cons, Htail. split.
      * intros [-> | (Hlt & Hx)]; [|split; [lia|done]].
        split; [done|]. exists y. by rewrite Nat.sub_diag.
      * intros (Hle & x & Hx & Hnz). destruct (decide (a = i)) as [->|]; [by left|].
        right. split; [lia|]. by exists x.
    + rewrite Htail. split.
      * intros (Hlt & Hx); split; [lia|done].
      * intros (Hle & x & Hx & Hnz). split; [|by exists x].
        destruct (decide (a = i)) as [->|]; [|lia].
        rewrite Nat.sub_diag in Hx. simpl in Hx. congruence.
Qed.

Lemma elem_of_flatnonzero {A} (nonzero : A → bool) (v : list A) (a : nat) :
  a ∈ flatnonzero_from nonzero 0 v ↔ ∃ x, v !! a = Some x ∧ nonzero x = true.
Proof.
  rewrite elem_of_flatnonzero_from, Nat.sub_0_r. split; [by intros [_ ?]|].
  intros ?; split; [lia|done].
Qed.

Lemma NoDup_flatnonzero_from {A} (nonzero : A → bool) (v : list A) (i : nat) :
  NoDup (flatnonzero_from nonzero i v).
Proof.
  revert i. induction v as [|y v IH]; intros i; simpl; [constructor|].
  destruct (nonzero y); [|done]. constructor; [|done].
  intros [Hle _]%elem_of_flatnonzero_from. lia.
Qed.

Lemma np_flatnonzero_total (v : value) : ∃ idx, np_flatnonzero v = Ok idx ∧ NoDup idx.
Proof.
  unfold np_flatnonzero.
  destruct v as [n|q|s|a|l|m| |];
    [| |destruct (decide (s = "")) | | |destruct m| |];
    (eexists; split; [reflexivity|]);
    first [apply NoDup_flatnonzero_from | apply NoDup_nil_2 | apply NoDup_singleton].
Qed.

Lemma length_set_ones (arms : list nat) (items : list Q) :
  length (set_ones arms items) = length items.
Proof.
  unfold set_ones. revert items. induction arms as [|a arms IH]; intros items; simpl;
    [done|]. by rewrite IH, length_insert.
Qed.

Lemma lookup_set_ones (arms : list nat) (items : list Q) (i : nat) :
  set_ones arms items !! i
  = if decide (i ∈ arms ∧ i < length items) then Some 1%Q else items !! i.
Proof.
  unfold set_ones. revert items. induction arms as [|a arms IH]; intros items; simpl.
  - done.
  - rewrite IH, length_insert.
    destruct (decide (i ∈ arms ∧ i < length items)) as [[Hin Hlt]|Hn].
    + rewrite decide_True; [done|]. split; [by right|done].
    + destruct (decide (i = a)) as [->|Hne].
      * destruct (decide (a < length items)).
        -- rewrite decide_True by (split; [by left|done]).
           by apply list_lookup_insert_eq.
        -- rewrite decide_False by (intros [_ ?]; lia).
           by rewrite list_insert_ge by lia.
      * rewrite list_lookup_insert_ne by done. rewrite decide_False; [done|].
        intros [[?|?]%elem_of_cons ?]; [done|]. by apply Hn.
Qed.

Lemma elem_of_unique_from (seen l : list nat) (x : nat) :
  x ∈ unique_from seen l ↔ x ∈ l ∧ x ∉ seen.
Proof.
  revert seen. induction l as [|y l IH]; intros seen; simpl.
  - split; [by intros ?%elem_of_nil | by intros [?%elem_of_nil _]].
  - case_decide as Hy.
    + rewrite IH, elem_of_cons. split.
      * intros [? ?]. split; [by right|done].
      * intros [[->|?] ?]; [done|tauto].
    + rewrite !elem_of_cons, IH, elem_of_cons. split.
      * intros [->|[? Hn]]; [split; [by left|done]|].
        split; [by right|]. intros ?. apply Hn. by right.
      * intros [[->|?] Hn]; [by left|].
        destruct (decide (x = y)) as [->|Hne]; [by left|right].
        split; [done|]. intros [?|?]; done.
Qed.

Lemma NoDup_unique_from (seen l : list nat) : NoDup (unique_from seen l).
Proof.
  revert seen. induction l as [|y l IH]; intros seen; simpl; [constructor|].
  case_decide; [done|]. constructor; [|done].
  rewrite elem_of_unique_from, elem_of_cons. intros [_ Hn]. apply Hn. by left.
Qed.

Lemma unique_spec (l : list nat) :
  NoDup (unique l) ∧ ∀ x, x ∈ unique l ↔ x ∈ l.
Proof.
  split; [apply NoDup_unique_from|]. intros x. unfold unique.
  rewrite elem_of_unique_from. split; [tauto|]. intros ?; split; [done|].
  apply not_elem_of_nil.
Qed.

Lemma elem_of_values (l : list nat) (x : nat) : x ∈ values l ↔ x ∈ l.
Proof. apply elem_of_list_to_set. Qed.

Lemma values_cons (y : nat) (l : list nat) : values (y :: l) = {[y]} ∪ values l.
Proof. reflexivity. Qed.

Lemma values_seen (y : nat) (l seen : list nat) :
  y ∈ seen → ({[y]} ∪ values l) ∖ values seen = values l ∖ values seen.
Proof.
  intros Hy. apply set_eq. intros z.
  rewrite !elem_of_difference, elem_of_union, elem_of_singleton, !elem_of_values.
  split; [|tauto]. intros [[->|?] ?]; [done|tauto].
Qed.

Lemma values_fresh (y : nat) (l seen : list nat) :
  y ∉ seen →
  size (({[y]} ∪ values l) ∖ values seen) = S (size (values l ∖ values (y :: seen))).
Proof.
  intros Hy.
  replace (({[y]} ∪ values l) ∖ values seen)
    with ({[y]} ∪ (values l ∖ values (y :: seen))).
  - rewrite size_union, size_singleton; [done|].
    intros z. rewrite elem_of_singleton, elem_of_difference, !elem_of_values,
      elem_of_cons. intros -> [_ Hn]. apply Hn. by left.
  - apply set_eq. intros z.
    rewrite !elem_of_union, !elem_of_difference, !elem_of_union, elem_of_singleton,
      !elem_of_values, elem_of_cons.
    split.
    + intros [->|[? Hn]]; [tauto|]. split; [tauto|]. intros ?. apply Hn. by right.
    + intros [[->|?] Hn]; [by left|].
      destruct (decide (z = y)) as [->|Hne]; [by left|]. right. split; [done|].
      intros [?|?]; done.
Qed.

Lemma elem_of_take_unique_from (seen l : list nat) (n x : nat) :
  x ∈ take n (unique_from seen l)
  ↔ ∃ i, l !! i = Some x ∧ (x ∉ seen) ∧ size (values (take i l) ∖ values seen) < n.
Proof.
  revert seen n. induction l as [|y l IH]; intros seen n.
  - simpl. rewrite take_nil. split; [by intros ?%elem_of_nil | by intros (i & ? & _)].
  - cbn [unique_from]. case_decide as Hy.
    + rewrite IH. split.
      * intros (i & Hi & Hx & Hsz). exists (S i). split; [done|]. split; [done|].
        cbn [take]. by rewrite values_cons, values_seen.
      * intros ([|i] & Hi & Hx & Hsz); simpl in Hi; [by simplify_eq|].
        exists i. split; [done|]. split; [done|].
        cbn [take] in Hsz. by rewrite values_cons, values_seen in Hsz.
    + destruct n as [|n].
      * rewrite take_0. split; [by intros ?%elem_of_nil|]. intros (i & _ & _ & ?). lia.
      * cbn [take]. rewrite elem_of_cons, IH. split.
        -- intros [->|(i & Hi & Hx & Hsz)].
           ++ exists 0. split; [done|]. split; [done|]. cbn [take].
              assert (values [] ∖ values seen = ∅) as ->.
              { apply set_eq. intros z. rewrite elem_of_difference, elem_of_values.
                rewrite elem_of_nil, elem_of_empty. tauto. }
              rewrite size_empty. lia.
           ++ exists (S i). split; [done|]. split; [intros ?; apply Hx; by right|].
              cbn [take]. rewrite values_cons, values_fresh by done. lia.
        -- intros ([|i] & Hi & Hx & Hsz); simpl in Hi; [left; by simplify_eq|].
           destruct (decide (x = y)) as [->|Hne]; [by left|]. right.
           exists i. split; [done|]. split; [by intros [?|?]%elem_of_cons|].
           cbn [take] in Hsz. rewrite values_cons, values_fresh in Hsz by done. lia.
Qed.

Lemma elem_of_take_unique (l : list nat) (n x : nat) :
  x ∈ take n (unique l) ↔ ∃ i, l !! i = Some x ∧ distinct (take i l) < n.
Proof.
  unfold unique, distinct. rewrite elem_of_take_unique_from.
  change (values []) with (∅ : gset nat).
  split; intros (i & Hi & H); exists i; (split; [done|]).
  - destruct H as [_ H]. by rewrite difference_empty_L in H.
  - split; [apply not_elem_of_nil|]. by rewrite difference_empty_L.
Qed.

Lemma length_unique (l : list nat) : length (unique l) = distinct l.
Proof.
  destruct (unique_spec l) as [Hnd Hel]. unfold distinct, values.
  rewrite <- (size_list_to_set (C:=gset nat) (unique l)) by done.
  f_equal. apply set_eq. intros x. by rewrite !elem_of_list_to_set.
Qed.

(** ** Arm indices *)

Lemma take_drop_shuffled (shuffled u : list nat) :
  shuffled ≡ₚ take 100 u →
  take 100 (shuffled ++ drop 100 u) = shuffled
  ∧ drop 100 (shuffled ++ drop 100 u) = drop 100 u.
Proof.
  intros Hperm. apply Permutation_length in Hperm. rewrite length_take in Hperm.
  destruct (decide (100 ≤ length u)) as [Hle|Hgt].
  - assert (length shuffled = 100) as Hlen by lia.
    rewrite <- Hlen at 1 3. by rewrite take_app_length, drop_app_length.
  - rewrite (drop_ge u) by lia. rewrite app_nil_r.
    split; [apply take_ge; lia | apply drop_ge; lia].
Qed.

Lemma unique_items_inv (self : SupervisedModelTraining) (st st1 : State) (u : list nat) :
  cache_inv self st →
  unique_items self st = Ok (u, st1) →
  random_state st1 = random_state st
  ∧ _test_data_frame st1 = _test_data_frame st
  ∧ ∃ items, training_items self = Ok items
             ∧ take 100 u ≡ₚ take 100 (unique items)
             ∧ drop 100 u = drop 100 (unique items).
Proof.
  unfold unique_items. intros Hinv Hu.
  destruct (_unique_items st) as [u0|] eqn:Hcache.
  - simplify_eq. repeat split. by apply Hinv.
  - destruct (training_items self) as [items|e]; simpl in Hu; [|done].
    simplify_eq. repeat split. by exists items.
Qed.

Lemma _get_arm_indices_arms (self : SupervisedModelTraining) (ob : observation)
    (st : State) (c : string) (v : value) (idx : list nat) :
  arms_column (project_config self) = Some c →
  ob !! c = Some v →
  np_flatnonzero v = Ok idx →
  _get_arm_indices self ob st
  = Ok (Owned (random_shuffle idx (random_state st)).1,
        mkState (_unique_items st) (random_shuffle idx (random_state st)).2
          (_test_data_frame st)).
Proof.
  intros Hc Hv Hidx. unfold _get_arm_indices, getitem. rewrite Hc, Hv. simpl.
  rewrite Hidx. simpl. by destruct (random_shuffle idx (random_state st)).
Qed.

Lemma _get_arm_indices_arms_inv (self : SupervisedModelTraining) (ob : observation)
    (st st' : State) (c : string) (a : arm_array) :
  arms_column (project_config self) = Some c →
  _get_arm_indices self ob st = Ok (a, st') →
  ∃ v idx, ob !! c = Some v ∧ np_flatnonzero v = Ok idx
           ∧ a = Owned (random_shuffle idx (random_state st)).1
           ∧ _unique_items st' = _unique_items st.
Proof.
  intros Hc. unfold _get_arm_indices, getitem. rewrite Hc.
  destruct (ob !! c) as [v|]; simpl; [|intros [=]].
  destruct (np_flatnonzero v) as [idx|] eqn:Hidx; simpl; [|intros [=]].
  destruct (random_shuffle idx (random_state st)) as [sh g] eqn:Hsh.
  intros [= <- <-]. exists v, idx. rewrite Hsh. simpl. auto.
Qed.

Lemma _get_arm_indices_view_inv (self : SupervisedModelTraining) (ob : observation)
    (st st' : State) (a : arm_array) :
  arms_column (project_config self) = None →
  cache_inv self st →
  _get_arm_indices self ob st = Ok (a, st') →
  a = UniqueItemsView
  ∧ ∃ items u, training_items self = Ok items
               ∧ _unique_items st' = Some u
               ∧ take 100 u ≡ₚ take 100 (unique items)
               ∧ drop 100 u = drop 100 (unique items).
Proof.
  intros Hc Hinv. unfold _get_arm_indices. rewrite Hc.
  destruct (unique_items self st) as [[u st1]|] eqn:Hu; simpl; [|intros [=]].
  destruct (unique_items_inv self st st1 u Hinv Hu)
    as (_ & _ & items & Hitems & Hperm & Hdrop).
  destruct (random_shuffle (take 100 u) (random_state st1)) as [sh g] eqn:Hsh.
  intros [= <- <-]. split; [done|]. exists items, (sh ++ drop 100 u).
  assert (sh ≡ₚ take 100 u) as Hshp.
  { pose proof (random_shuffle_Permutation (take 100 u) (random_state st1)) as Hp.
    by rewrite Hsh in Hp. }
  destruct (take_drop_shuffled sh u Hshp) as [-> ->].
  repeat split; [done| |done]. by rewrite Hshp.
Qed.

Lemma reachable_cache_inv (self : SupervisedModelTraining) (st : State) :
  reachable self st → cache_inv self st.
Proof.
  induction 1 as [g df|st ob a st' _ IH Hcall|st g df _ IH].
  - intros u [=].
  - destruct (arms_column (project_config self)) as [c|] eqn:Hc.
    + destruct (_get_arm_indices_arms_inv self ob st st' c a Hc Hcall)
        as (_ & _ & _ & _ & _ & Hcache).
      intros u Hu. apply IH. by rewrite <- Hcache.
    + destruct (_get_arm_indices_view_inv self ob st st' a Hc IH Hcall)
        as (_ & items & u & Hitems & Hcache & Hperm & Hdrop).
      intros u' Hu'. rewrite Hcache in Hu'. simplify_eq. by exists items.
  - exact IH.
Qed.

Lemma _get_arm_indices_view (self : SupervisedModelTraining) (ob : observation)
    (st : State) (items : list nat) :
  arms_column (project_config self) = None →
  training_items self = Ok items →
  ∃ st', _get_arm_indices self ob st = Ok (UniqueItemsView, st').
Proof.
  intros Hc Hitems. unfold _get_arm_indices, unique_items. rewrite Hc.
  destruct (_unique_items st) as [u|]; [|rewrite Hitems]; simpl;
    match goal with
    | |- context [random_shuffle ?x ?g] => destruct (random_shuffle x g)
    end; eexists; reflexivity.
Qed.

Lemma lookup_indicator (arms : list nat) (i : nat) :
  i < max_list arms + 1 →
  set_ones arms (np_zeros (max_list arms + 1)) !! i
  = Some (if decide (i ∈ arms) then 1%Q else 0%Q).
Proof.
  intros Hlt. rewrite lookup_set_ones. unfold np_zeros. rewrite length_replicate.
  destruct (decide (i ∈ arms)) as [Hin|Hnin].
  - by rewrite decide_True.
  - rewrite decide_False by tauto. by apply lookup_replicate_2.
Qed.

Lemma elem_of_indicator_nonzero (arms : list nat) (x : nat) :
  x ∈ flatnonzero_from Q_nonzero 0 (set_ones arms (np_zeros (max_list arms + 1)))
  ↔ x ∈ arms.
Proof.
  rewrite elem_of_flatnonzero. split.
  - intros (q & Hq & Hnz).
    assert (x < max_list arms + 1) as Hlt.
    { apply lookup_lt_Some in Hq.
      rewrite length_set_ones in Hq. unfold np_zeros in Hq.
      by rewrite length_replicate in Hq. }
    rewrite (lookup_indicator arms x Hlt) in Hq.
    destruct (decide (x ∈ arms)); [done|]. by simplify_eq.
  - intros Hin. exists 1%Q. split; [|done].
    pose proof (max_list_elem_of_le x arms Hin).
    rewrite lookup_indicator by lia. by rewrite decide_True.
Qed.

Lemma NoDup_singleton_elems (a : list nat) (x : nat) :
  NoDup a → (∀ y, y ∈ a ↔ y = x) → a = [x].
Proof.
  intros Hnd Hel. destruct a as [|y a].
  - assert (x ∈ @nil nat) as Hx by by apply Hel. by apply elem_of_nil in Hx.
  - assert (y = x) as -> by (apply Hel; left).
    destruct a as [|z a]; [done|].
    assert (z = x) as -> by (apply Hel; right; left).
    apply NoDup_cons in Hnd as [Hnin _]. destruct Hnin. left.
Qed.

(** C3.  With an available-arms column configured, [_get_arm_indices]
    returns a permutation of what [np.flatnonzero] makes of the
    observation's cell, each position once: for an availability vector
    the positions of its non-zero entries, for a [NaN] cell the single
    position 0; only a missing key makes it raise.  Without such a
    column it returns a view of the cached unique items that holds a
    permutation of the first 100 unique items of the combined train and
    validation data: no item twice, and exactly the items before whose
    first occurrence fewer than 100 distinct items occur.  Either way,
    two calls under different generator states return permutations of
    one another: as a set the result does not depend on the shuffle. *)
Theorem _get_arm_indices_permutation (self : SupervisedModelTraining)
    (ob : observation) (st : State) :
  reachable self st →
  (∀ c, arms_column (project_config self) = Some c →
     (ob !! c = None → _get_arm_indices self ob st = Raise KeyError)
     ∧ ∀ v, ob !! c = Some v →
         ∃ a st' idx, _get_arm_indices self ob st = Ok (Owned a, st')
                      ∧ np_flatnonzero v = Ok idx
                      ∧ a ≡ₚ idx
                      ∧ NoDup a
                      ∧ (∀ vec, v = VVec vec →
                           ∀ i, i ∈ a ↔ ∃ q, vec !! i = Some q ∧ Q_nonzero q = true)
                      ∧ (v = VNaN → a = [0]))
  ∧ (∀ items, arms_column (project_config self) = None →
       training_items self = Ok items →
       ∃ st', _get_arm_indices self ob st = Ok (UniqueItemsView, st')
              ∧ read_arm_array st' UniqueItemsView ≡ₚ take 100 (unique items)
              ∧ NoDup (read_arm_array st' UniqueItemsView)
              ∧ (∀ x, x ∈ read_arm_array st' UniqueItemsView
                      ↔ ∃ i, items !! i = Some x ∧ distinct (take i items) < 100)
              ∧ length (read_arm_array st' UniqueItemsView) = 100 `min` distinct items)
  ∧ (∀ st2 a1 st1' a2 st2', reachable self st2 →
       _get_arm_indices self ob st = Ok (a1, st1') →
       _get_arm_indices self ob st2 = Ok (a2, st2') →
       read_arm_array st1' a1 ≡ₚ read_arm_array st2' a2).
Proof.
  intros Hreach. pose proof (reachable_cache_inv self st Hreach) as Hinv.
  split; [|split].
  - intros c Hc. split.
    { intros Hv. unfold _get_arm_indices, getitem. by rewrite Hc, Hv. }
    intros v Hv. destruct (np_flatnonzero_total v) as (idx & Hidx & Hnd).
    rewrite (_get_arm_indices_arms self ob st c v idx Hc Hv Hidx).
    eexists _, _, idx. split; [reflexivity|]. split; [done|].
    pose proof (random_shuffle_Permutation idx (random_state st)) as Hperm.
    split; [done|]. split; [by rewrite Hperm|]. split.
    + intros vec -> i. rewrite Hperm.
      simpl in Hidx. simplify_eq. apply elem_of_flatnonzero.
    + intros ->. simpl in Hidx. simplify_eq. by apply Permutation_singleton_r.
  - intros items Hc Hitems.
    destruct (_get_arm_indices_view self ob st items Hc Hitems) as [st' Hcall].
    exists st'. split; [done|].
    destruct (_get_arm_indices_view_inv self ob st st' _ Hc Hinv Hcall)
      as (_ & items' & u & Hitems' & Hcache & Hperm & _).
    rewrite Hitems in Hitems'. simplify_eq. simpl. rewrite Hcache. simpl.
    split; [done|]. split; [|split].
    + rewrite Hperm.
      exact (sublist_NoDup _ _ (proj1 (unique_spec items')) (sublist_take _ _)).
    + intros x. rewrite Hperm. apply elem_of_take_unique.
    + by rewrite Hperm, length_take, length_unique.
  - intros st2 a1 st1' a2 st2' Hreach2 Hcall1 Hcall2.
    pose proof (reachable_cache_inv self st2 Hreach2) as Hinv2.
    destruct (arms_column (project_config self)) as [c|] eqn:Hc.
    + destruct (_get_arm_indices_arms_inv self ob st st1' c a1 Hc Hcall1)
        as (v & idx & Hv & Hidx & -> & _).
      destruct (_get_arm_indices_arms_inv self ob st2 st2' c a2 Hc Hcall2)
        as (v' & idx' & Hv' & Hidx' & -> & _).
      rewrite Hv in Hv'. simplify_eq. rewrite Hidx in Hidx'. simplify_eq.
      simpl. by rewrite !random_shuffle_Permutation.
    + destruct (_get_arm_indices_view_inv self ob st st1' a1 Hc Hinv Hcall1)
        as (-> & items & u & Hitems & Hcache & Hperm & _).
      destruct (_get_arm_indices_view_inv self ob st2 st2' a2 Hc Hinv2 Hcall2)
        as (-> & items' & u' & Hitems' & Hcache' & Hperm' & _).
      rewrite Hitems in Hitems'. simplify_eq.
      simpl. rewrite Hcache, Hcache'. simpl. by rewrite Hperm, Hperm'.
Qed.

(** An observation whose availability vector marks arms 1 and 3, one
    whose cell is missing in the data ([NaN]), and, without an
    available-arms column, the three distinct items of the sample
    training data, which has item 2 twice. *)
Lemma _get_arm_indices_permutation_witness :
  (∃ a st', _get_arm_indices (sample_task (Some "arms"))
              {[ "arms" := VVec [0; 1; 0; 1]%Q ]} sample_state = Ok (Owned a, st')
            ∧ a ≡ₚ [1; 3])
  ∧ (∃ st', _get_arm_indices (sample_task (Some "arms"))
              {[ "arms" := VNaN ]} sample_state = Ok (Owned [0], st'))
  ∧ (∃ st', _get_arm_indices (sample_task None) ∅ sample_state
            = Ok (UniqueItemsView, st')
            ∧ read_arm_array st' UniqueItemsView ≡ₚ [2; 4; 1]
            ∧ NoDup (read_arm_array st' UniqueItemsView)).
Proof.
  split; [|split].
  - destruct (proj1 (_get_arm_indices_permutation (sample_task (Some "arms"))
                       {[ "arms" := VVec [0; 1; 0; 1]%Q ]} sample_state
                       (reachable_init _ _ _))
                "arms" eq_refl) as [_ Hcell].
    destruct (Hcell (VVec [0; 1; 0; 1]%Q))
      as (a & st' & idx & Hcall & Hidx & Hperm & _); [reflexivity|].
    exists a, st'. split; [done|]. simpl in Hidx. by simplify_eq.
  - destruct (proj1 (_get_arm_indices_permutation (sample_task (Some "arms"))
                       {[ "arms" := VNaN ]} sample_state
                       (reachable_init _ _ _))
                "arms" eq_refl) as [_ Hcell].
    destruct (Hcell VNaN) as (a & st' & idx & Hcall & _ & _ & _ & _ & Hnan);
      [reflexivity|].
    exists st'. by rewrite <- (Hnan eq_refl).
  - destruct (proj1 (proj2 (_get_arm_indices_permutation (sample_task None) ∅
                       sample_state (reachable_init _ _ _)))
                [2; 4; 2; 1] eq_refl eq_refl)
      as (st' & Hcall & Hperm & Hnd & _).
    exists st'. split; [done|]. split; [exact Hperm | exact Hnd].
Defined.

(** C2.  For an observation whose available-arms list is non-empty, the
    conversion of [_save_test_set_predictions] writes a 0/1 indicator
    vector of length [max(available_arms) + 1] with ones at the available
    positions, and [_get_arm_indices] on the converted observation
    returns exactly the original set of arms, each once.  When the list
    is empty the logged item of the observation is the single candidate
    arm. *)
Theorem available_arms_roundtrip (self : SupervisedModelTraining)
    (ob : observation) (c : string) (arms : list nat) (st : State) :
  arms_column (project_config self) = Some c →
  ob !! c = Some (VArr arms) →
  (arms = [] → ∃ logged, ob !! name (item_column (project_config self))
                         = Some (VInt logged)) →
  ∃ items a st',
    indicator_conversion self ob = Ok (<[c := VVec items]> ob)
    ∧ _get_arm_indices self (<[c := VVec items]> ob) st = Ok (Owned a, st')
    ∧ NoDup a
    ∧ (arms ≠ [] →
         length items = max_list arms + 1
         ∧ (∀ i, i < length items →
              items !! i = Some (if decide (i ∈ arms) then 1%Q else 0%Q))
         ∧ ∀ x, x ∈ a ↔ x ∈ arms)
    ∧ (∀ logged, arms = [] →
         ob !! name (item_column (project_config self)) = Some (VInt logged) →
         a = [logged]).
Proof.
  intros Hc Hob Hlogged.
  set (available := if decide (length arms = 0)
                    then match ob !! name (item_column (project_config self)) with
                         | Some (VInt logged) => [logged]
                         | _ => []
                         end
                    else arms).
  set (items := set_ones available (np_zeros (max_list available + 1))).
  assert (indicator_conversion self ob = Ok (<[c := VVec items]> ob)) as Hconv.
  { unfold indicator_conversion, getitem. rewrite Hc, Hob. simpl.
    subst items available. destruct (decide (length arms = 0)) as [Hz|Hnz]; [|done].
    destruct (Hlogged (nil_length_inv _ Hz)) as [logged Hl]. by rewrite Hl. }
  assert (np_flatnonzero (VVec items) = Ok (flatnonzero_from Q_nonzero 0 items))
    as Hnz by done.
  pose proof (_get_arm_indices_arms self (<[c := VVec items]> ob) st c (VVec items) _
                Hc (lookup_insert_eq _ _ _) Hnz) as Hcall.
  pose proof (random_shuffle_Permutation (flatnonzero_from Q_nonzero 0 items)
                (random_state st)) as Hperm.
  assert (∀ x, x ∈ (random_shuffle (flatnonzero_from Q_nonzero 0 items)
                      (random_state st)).1 ↔ x ∈ available) as Helems.
  { intros x. rewrite Hperm. apply elem_of_indicator_nonzero. }
  assert (NoDup (random_shuffle (flatnonzero_from Q_nonzero 0 items)
                   (random_state st)).1) as Hnd.
  { rewrite Hperm. apply NoDup_flatnonzero_from. }
  eexists items, _, _. split; [done|]. split; [done|]. split; [done|]. split.
  - intros Hne. assert (available = arms) as Hav.
    { subst available. rewrite decide_False; [done|]. by destruct arms. }
    subst items. rewrite Hav in *. split; [|split; [|done]].
    + rewrite length_set_ones. unfold np_zeros. by rewrite length_replicate.
    + intros i Hi. rewrite length_set_ones in Hi. unfold np_zeros in Hi.
      rewrite length_replicate in Hi. by apply lookup_indicator.
  - intros logged -> Hl. apply NoDup_singleton_elems; [done|].
    intros y. rewrite Helems. subst available. simpl. rewrite Hl.
    apply list_elem_of_singleton.
Qed.

(** The two test observations of the sample frame: arms 3, 1, 4 come
    back as a set; the empty list yields the logged item 3. *)
Lemma available_arms_roundtrip_witness :
  (∃ items a st',
     indicator_conversion (sample_task (Some "arms")) (sample_row 0 4 13 1 [3; 1; 4])
       = Ok (<["arms" := VVec items]> (sample_row 0 4 13 1 [3; 1; 4]))
     ∧ _get_arm_indices (sample_task (Some "arms"))
         (<["arms" := VVec items]> (sample_row 0 4 13 1 [3; 1; 4])) sample_state
       = Ok (Owned a, st')
     ∧ ∀ x, x ∈ a ↔ x ∈ [3; 1; 4])
  ∧ (∃ items st',
       _get_arm_indices (sample_task (Some "arms"))
         (<["arms" := VVec items]> (sample_row 1 3 14 0 [])) sample_state
       = Ok (Owned [3], st')).
Proof.
  split.
  - destruct (available_arms_roundtrip (sample_task (Some "arms"))
                (sample_row 0 4 13 1 [3; 1; 4]) "arms" [3; 1; 4] sample_state)
      as (items & a & st' & Hconv & Hcall & _ & Hset & _);
      [reflexivity | reflexivity | discriminate |].
    exists items, a, st'. split; [done|]. split; [done|]. by apply Hset.
  - destruct (available_arms_roundtrip (sample_task (Some "arms"))
                (sample_row 1 3 14 0 []) "arms" [] sample_state)
      as (items & a & st' & _ & Hcall & _ & _ & Hone);
      [reflexivity | reflexivity | by exists 3 |].
    exists items, st'. by rewrite <- (Hone 3 eq_refl eq_refl).
Defined.

(** ** Data frames *)

Lemma lookup_record_row (columns : list string) (d : gmap string value) (c : string) :
  record_row columns d !! c
  = if decide (c ∈ columns) then Some (default VNaN (d !! c)) else None.
Proof.
  unfold record_row. induction columns as [|c' columns IH].
  - rewrite fmap_nil, list_to_map_nil, lookup_empty.
    by rewrite decide_False by apply not_elem_of_nil.
  - rewrite fmap_cons, list_to_map_cons. destruct (decide (c = c')) as [->|Hne].
    + rewrite lookup_insert_eq. by rewrite decide_True by left.
    + rewrite lookup_insert_ne by done. rewrite IH.
      destruct (decide (c ∈ columns)) as [Hin|Hnin].
      * by rewrite decide_True by by right.
      * rewrite decide_False; [done|]. by intros [?|?]%elem_of_cons.
Qed.

Lemma df_len_fill_missing_column (c : string) (v : value) (df : DataFrame) :
  df_len (fill_missing_column c v df) = df_len df.
Proof.
  unfold fill_missing_column, df_len. case_decide; [done|]. simpl.
  by rewrite length_fmap.
Qed.

Lemma columns_fill_missing_column (c : string) (v : value) (df : DataFrame) (c' : string) :
  c' ∈ df_columns (fill_missing_column c v df) ↔ c' ∈ df_columns df ∨ c' = c.
Proof.
  unfold fill_missing_column. case_decide as Hin; simpl.
  - split; [by left|]. by intros [?| ->].
  - rewrite decide_False by done. rewrite elem_of_app, list_elem_of_singleton. done.
Qed.

(** A column that is present keeps its cells. *)
Lemma cell_fill_missing_column_old (c : string) (v : value) (df : DataFrame)
    (i : nat) (c' : string) :
  c' ∈ df_columns df →
  cell (fill_missing_column c v df) i c' = cell df i c'.
Proof.
  intros Hc'. unfold cell.
  rewrite !decide_True by (try apply columns_fill_missing_column; auto).
  unfold fill_missing_column. case_decide as Hin; [done|]. simpl.
  rewrite list_lookup_fmap. destruct (df_rows df !! i) as [row|]; simpl; [|done].
  apply lookup_insert_ne. by intros ->.
Qed.

(** A column that is missing is filled with the default in every row. *)
Lemma cell_fill_missing_column_new (c : string) (v : value) (df : DataFrame) (i : nat) :
  c ∉ df_columns df →
  i < df_len df →
  cell (fill_missing_column c v df) i c = Some v.
Proof.
  intros Hc Hi. unfold cell.
  rewrite decide_True by (apply columns_fill_missing_column; auto).
  unfold fill_missing_column. rewrite decide_False by done. simpl.
  rewrite list_lookup_fmap.
  destruct (lookup_lt_is_Some_2 (df_rows df) i Hi) as [row ->]. simpl.
  apply lookup_insert_eq.
Qed.

Lemma df_len_fill_missing_columns (columns : list Column) (v : value) (df : DataFrame) :
  df_len (fill_missing_columns columns v df) = df_len df.
Proof.
  unfold fill_missing_columns. revert df.
  induction columns as [|a l IH]; intros df; simpl; [done|].
  by rewrite IH, df_len_fill_missing_column.
Qed.

Lemma cell_fill_missing_columns_old (columns : list Column) (v : value)
    (df : DataFrame) (i : nat) (c : string) :
  c ∈ df_columns df →
  cell (fill_missing_columns columns v df) i c = cell df i c.
Proof.
  unfold fill_missing_columns. revert df.
  induction columns as [|a l IH]; intros df Hc; simpl; [done|].
  rewrite IH by (apply columns_fill_missing_column; auto).
  by apply cell_fill_missing_column_old.
Qed.

Lemma cell_fill_missing_columns_new (columns : list Column) (v : value)
    (df : DataFrame) (i : nat) (column : Column) :
  column ∈ columns →
  name column ∉ df_columns df →
  i < df_len df →
  cell (fill_missing_columns columns v df) i (name column) = Some v.
Proof.
  revert df. induction columns as [|a l IH]; intros df Hin Hc Hi;
    [by apply elem_of_nil in Hin|].
  change (fill_missing_columns (a :: l) v df)
    with (fill_missing_columns l v (fill_missing_column (name a) v df)).
  destruct (decide (name column = name a)) as [Heq|Hne].
  - rewrite cell_fill_missing_columns_old
      by (apply columns_fill_missing_column; auto).
    rewrite Heq. apply cell_fill_missing_column_new; [by rewrite <- Heq|done].
  - apply elem_of_cons in Hin as [->|Hin]; [done|].
    apply IH; [done| |by rewrite df_len_fill_missing_column].
    rewrite columns_fill_missing_column. by intros [?|?].
Qed.

Section CreateObDataFrame.
Variable self : SupervisedModelTraining.

Let cfg := project_config self.
Let item_name := name (item_column cfg).

Lemma df_len_ob_frame (ob : observation) (arm_indices : list nat) :
  df_len (ob_frame self ob arm_indices) = length arm_indices.
Proof. unfold df_len, ob_frame, pd_DataFrame. simpl. by rewrite !length_fmap. Qed.

Lemma cell_ob_frame (ob : observation) (arm_indices : list nat) (i arm_index : nat)
    (c : string) :
  arm_indices !! i = Some arm_index →
  c ∈ obs_columns self ++ [item_name] →
  cell (ob_frame self ob arm_indices) i c
  = Some (default VNaN (<[item_name := VInt arm_index]> ob !! c)).
Proof.
  intros Harm Hc. unfold cell, ob_frame, pd_DataFrame. simpl.
  rewrite decide_True by done. rewrite !list_lookup_fmap, Harm. simpl.
  rewrite lookup_record_row. by rewrite decide_True.
Qed.

Lemma columns_ob_frame (ob : observation) (arm_indices : list nat) (c : string) :
  c ∈ df_columns (ob_frame self ob arm_indices) ↔ c ∈ obs_columns self ∨ c = item_name.
Proof.
  change (df_columns (ob_frame self ob arm_indices))
    with (obs_columns self ++ [item_name]).
  by rewrite elem_of_app, list_elem_of_singleton.
Qed.

Lemma df_len_create_ob_data_frame (ob : observation) (arm_indices : list nat) :
  df_len (_create_ob_data_frame self ob arm_indices) = length arm_indices.
Proof.
  unfold _create_ob_data_frame, fill_auxiliar_columns, fill_output_column,
    _fill_hist_columns.
  by rewrite df_len_fill_missing_columns, !df_len_fill_missing_column, df_len_ob_frame.
Qed.

(** A cell that exists once the frame is built survives the three
    filling steps. *)
Lemma cell_create_ob_data_frame_old (ob : observation) (arm_indices : list nat)
    (i : nat) (c : string) :
  c ∈ df_columns (ob_frame self ob arm_indices) →
  cell (_create_ob_data_frame self ob arm_indices) i c
  = cell (ob_frame self ob arm_indices) i c.
Proof.
  intros Hc. unfold _create_ob_data_frame, fill_auxiliar_columns, fill_output_column,
    _fill_hist_columns.
  rewrite cell_fill_missing_columns_old
    by (rewrite !columns_fill_missing_column; auto).
  rewrite cell_fill_missing_column_old
    by (rewrite !columns_fill_missing_column; auto).
  rewrite cell_fill_missing_column_old
    by (rewrite !columns_fill_missing_column; auto).
  by apply cell_fill_missing_column_old.
Qed.

(** C4.  [_create_ob_data_frame] returns one row per arm index, in the
    order of the list; row [i] has the [i]-th arm index in the item
    column and the observation's values (NaN where it has none) in the
    user column and the other input columns; the hist-view and
    hist-output columns hold 0 where the frame built from the
    observation lacked them, the output column holds 1 where it was
    absent when checked, and every auxiliary output column that was
    absent before its loop holds 0. *)
Theorem _create_ob_data_frame_rows (ob : observation) (arm_indices : list nat) :
  let df := _create_ob_data_frame self ob arm_indices in
  let built := ob_frame self ob arm_indices in
  df_len df = length arm_indices
  ∧ ∀ i arm_index, arm_indices !! i = Some arm_index →
      cell df i item_name = Some (VInt arm_index)
      ∧ (∀ c, c ∈ obs_columns self → c ≠ item_name →
           cell df i c = Some (default VNaN (ob !! c)))
      ∧ (hist_view_column_name cfg ∉ df_columns built →
           cell df i (hist_view_column_name cfg) = Some (VInt 0))
      ∧ (hist_output_column_name cfg ∉ df_columns built →
           cell df i (hist_output_column_name cfg) = Some (VInt 0))
      ∧ (name (output_column cfg) ∉ df_columns (_fill_hist_columns self built) →
           cell df i (name (output_column cfg)) = Some (VInt 1))
      ∧ (∀ aux, aux ∈ auxiliar_output_columns cfg →
           name aux ∉ df_columns (fill_output_column self
                                     (_fill_hist_columns self built)) →
           cell df i (name aux) = Some (VInt 0)).
Proof.
  intros df built. split; [apply df_len_create_ob_data_frame|].
  intros i arm_index Harm.
  assert (i < df_len built) as Hi.
  { unfold built. rewrite df_len_ob_frame. by apply lookup_lt_Some in Harm. }
  split; [|split; [|split; [|split; [|split]]]].
  - unfold df. rewrite cell_create_ob_data_frame_old.
    + rewrite (cell_ob_frame ob arm_indices i arm_index) by
        (done || (apply elem_of_app; right; by apply list_elem_of_singleton)).
      by rewrite lookup_insert_eq.
    + apply columns_ob_frame. by right.
  - intros c Hc Hne. unfold df. rewrite cell_create_ob_data_frame_old.
    + rewrite (cell_ob_frame ob arm_indices i arm_index) by
        (done || (apply elem_of_app; by left)).
      by rewrite lookup_insert_ne.
    + apply columns_ob_frame. by left.
  - intros Habsent. unfold df, _create_ob_data_frame, fill_auxiliar_columns,
      fill_output_column, _fill_hist_columns. fold built.
    rewrite cell_fill_missing_columns_old
      by (rewrite !columns_fill_missing_column; auto).
    rewrite !cell_fill_missing_column_old
      by (rewrite !columns_fill_missing_column; auto).
    by apply cell_fill_missing_column_new.
  - intros Habsent. unfold df, _create_ob_data_frame, fill_auxiliar_columns,
      fill_output_column, _fill_hist_columns. fold built.
    rewrite cell_fill_missing_columns_old
      by (rewrite !columns_fill_missing_column; auto).
    rewrite cell_fill_missing_column_old
      by (rewrite !columns_fill_missing_column; auto).
    destruct (decide (hist_output_column_name cfg = hist_view_column_name cfg))
      as [Heq|Hne].
    + rewrite cell_fill_missing_column_old
        by (rewrite !columns_fill_missing_column; auto).
      rewrite Heq. apply cell_fill_missing_column_new; [by rewrite <- Heq|done].
    + apply cell_fill_missing_column_new.
      * rewrite columns_fill_missing_column. by intros [?|?].
      * by rewrite df_len_fill_missing_column.
  - intros Habsent. unfold df, _create_ob_data_frame, fill_auxiliar_columns,
      fill_output_column. fold built.
    rewrite cell_fill_missing_columns_old
      by (rewrite !columns_fill_missing_column; auto).
    apply cell_fill_missing_column_new; [done|].
    unfold _fill_hist_columns. by rewrite !df_len_fill_missing_column.
  - intros aux Haux Habsent. unfold df, _create_ob_data_frame, fill_auxiliar_columns.
    fold built. apply cell_fill_missing_columns_new; [done|done|].
    unfold fill_output_column, _fill_hist_columns.
    by rewrite !df_len_fill_missing_column.
Qed.

End CreateObDataFrame.

(** The first sample observation with the arms 4 and 1: the second row
    is for arm 1, keeps user 0 and hour 13, and gets the defaults. *)
Lemma _create_ob_data_frame_rows_witness :
  let df := _create_ob_data_frame (sample_task (Some "arms"))
              (sample_row 0 4 13 1 [3; 1; 4]) [4; 1] in
  df_len df = 2
  ∧ cell df 1 "item" = Some (VInt 1)
  ∧ cell df 1 "user" = Some (VInt 0)
  ∧ cell df 1 "hour" = Some (VInt 13)
  ∧ cell df 1 "hist_view" = Some (VInt 0)
  ∧ cell df 1 "hist_clicked" = Some (VInt 0)
  ∧ cell df 1 "clicked" = Some (VInt 1)
  ∧ cell df 1 "ps" = Some (VInt 0).
Proof.
  destruct (_create_ob_data_frame_rows (sample_task (Some "arms"))
              (sample_row 0 4 13 1 [3; 1; 4]) [4; 1]) as [Hlen Hrows].
  destruct (Hrows 1 1 eq_refl) as (Hitem & Hobs & Hview & Hout & Hclicked & Haux).
  split; [exact Hlen|]. split; [exact Hitem|].
  split; [apply (Hobs "user"); [by left | discriminate]|].
  split; [apply (Hobs "hour"); [by right; left | discriminate]|].
  split; [apply Hview; compute_done|].
  split; [apply Hout; compute_done|].
  split; [apply Hclicked; compute_done|].
  apply (Haux (mkColumn "ps")); [by left|]. compute_done.
Defined.

(** ** Sorting the scores *)

Lemma StronglySorted_lookup_lt {A} (R : relation A) (l : list A) (i j : nat) (x y : A) :
  StronglySorted R l → l !! i = Some x → l !! j = Some y → i < j → R x y.
Proof.
  intros Hsorted. revert i j. induction Hsorted as [|z l Hsorted IH Hall];
    intros i j Hi Hj Hlt; [done|].
  destruct j as [|j]; [lia|]. destruct i as [|i]; simpl in *.
  - simplify_eq. rewrite Forall_forall in Hall. by apply Hall, list_elem_of_lookup_2 with j.
  - apply (IH i j); [done..|lia].
Qed.

Lemma StronglySorted_weaken {A} (R R' : relation A) (l : list A) :
  (∀ x y, R x y → R' x y) → StronglySorted R l → StronglySorted R' l.
Proof.
  intros Himpl. induction 1 as [|x l Hsorted IH Hall]; constructor; [done|].
  eapply Forall_impl; [exact Hall|]. intros y. apply Himpl.
Qed.

Section ListSortFacts.
Context {A : Type} (lt : A → A → bool).

Lemma binary_insert_Permutation (before : list A) (pivot : A) :
  binary_insert lt before pivot ≡ₚ pivot :: before.
Proof.
  unfold binary_insert. rewrite <- Permutation_middle. by rewrite take_drop.
Qed.

Lemma binarysort_Permutation (run rest : list A) :
  binarysort lt run rest ≡ₚ run ++ rest.
Proof.
  unfold binarysort. revert run. induction rest as [|x rest IH]; intros run; simpl.
  - by rewrite app_nil_r.
  - rewrite IH, binary_insert_Permutation. by rewrite <- Permutation_middle.
Qed.

Lemma list_sort_Permutation (l : list A) : list_sort lt l ≡ₚ l.
Proof.
  unfold list_sort. destruct (count_run lt l) as [n descending].
  rewrite binarysort_Permutation. destruct descending.
  - by rewrite reverse_Permutation, take_drop.
  - by rewrite take_drop.
Qed.

(** What the order has to satisfy for the sort to order: [le x y], that
    is "not [y < x]", is transitive, and [x < y] excludes [y < x]. *)
Definition le (x y : A) : Prop := lt y x = false.

Hypothesis le_trans : ∀ x y z, le x y → le y z → le x z.
Hypothesis lt_le : ∀ x y, lt x y = true → le x y.

Lemma lt_le_trans (x y z : A) : lt x y = true → le y z → lt x z = true.
Proof.
  intros Hxy Hyz. destruct (lt x z) eqn:Hxz; [done|].
  assert (le y x) as Hyx by (by apply (le_trans y z x)).
  unfold le in Hyx. congruence.
Qed.

Lemma run_ascending_sorted (prev : A) (l : list A) :
  StronglySorted le (prev :: take (run_ascending lt prev l) l).
Proof.
  revert prev. induction l as [|x l IH]; intros prev; simpl.
  - repeat constructor.
  - destruct (lt x prev) eqn:Hx; simpl; [repeat constructor|].
    specialize (IH x). constructor; [done|].
    constructor; [done|]. apply StronglySorted_inv in IH as [_ Hall].
    eapply Forall_impl; [exact Hall|]. intros y Hy. by apply (le_trans prev x y).
Qed.

Lemma run_descending_sorted (prev : A) (l : list A) :
  StronglySorted le (reverse (prev :: take (run_descending lt prev l) l)).
Proof.
  revert prev. induction l as [|x l IH]; intros prev; simpl.
  - repeat constructor.
  - destruct (lt x prev) eqn:Hx; simpl; [|repeat constructor].
    specialize (IH x). rewrite reverse_cons.
    apply StronglySorted_app_2; [|done|repeat constructor].
    intros y z Hy ->%list_elem_of_singleton.
    apply elem_of_reverse, elem_of_cons in Hy as [->|Hy]; [by apply lt_le|].
    apply (le_trans y x prev); [|by apply lt_le].
    rewrite reverse_cons in IH.
    apply elem_of_reverse in Hy.
    assert (StronglySorted le (reverse (take (run_descending lt x l) l) ++ [x])) as Hs
      by done.
    clear -Hs Hy. induction (reverse (take (run_descending lt x l) l)) as [|w ws IHw];
      [by apply elem_of_nil in Hy|].
    simpl in Hs. apply StronglySorted_inv in Hs as [Hs Hall].
    apply elem_of_cons in Hy as [->|Hy]; [|by apply IHw].
    rewrite Forall_forall in Hall. apply Hall, elem_of_app. right. left.
Qed.

Lemma count_run_sorted (l : list A) :
  StronglySorted le
    (if (count_run lt l).2 then reverse (take (count_run lt l).1 l)
     else take (count_run lt l).1 l).
Proof.
  destruct l as [|x [|y l]]; simpl; [repeat constructor..|].
  destruct (lt y x) eqn:Hyx; simpl.
  - pose proof (run_descending_sorted y l) as Hs.
    change (x :: y :: take (run_descending lt y l) l)
      with ([x] ++ (y :: take (run_descending lt y l) l)).
    rewrite reverse_app. apply StronglySorted_app_2; [|done|repeat constructor].
    intros z w Hz ->%list_elem_of_singleton. change (reverse [x]) with [x] in *.
    apply elem_of_reverse, elem_of_cons in Hz as [->|Hz]; [by apply lt_le|].
    apply (le_trans z y x); [|by apply lt_le].
    rewrite reverse_cons in Hs. apply elem_of_reverse in Hz. clear -Hs Hz.
    induction (reverse (take (run_descending lt y l) l)) as [|v vs IHv];
      [by apply elem_of_nil in Hz|].
    simpl in Hs. apply StronglySorted_inv in Hs as [Hs Hall].
    apply elem_of_cons in Hz as [->|Hz]; [|by apply IHv].
    rewrite Forall_forall in Hall. apply Hall, elem_of_app. right. left.
  - pose proof (run_ascending_sorted y l) as Hs.
    constructor; [done|]. apply StronglySorted_inv in Hs as Hs'. destruct Hs' as [_ Hall].
    constructor; [done|]. eapply Forall_impl; [exact Hall|].
    intros z Hz. by apply (le_trans x y z).
Qed.

(** The search ends between the elements that are not above the pivot
    and those that are. *)
Lemma bisect_spec (steps : nat) (before : list A) (pivot : A) (l r : nat) :
  StronglySorted le before →
  l ≤ r ≤ length before → r - l ≤ steps →
  (∀ i x, i < l → before !! i = Some x → le x pivot) →
  (∀ i x, r ≤ i → before !! i = Some x → lt pivot x = true) →
  bisect lt steps before pivot l r ≤ length before
  ∧ (∀ i x, i < bisect lt steps before pivot l r → before !! i = Some x → le x pivot)
  ∧ (∀ i x, bisect lt steps before pivot l r ≤ i → before !! i = Some x →
            lt pivot x = true).
Proof.
  intros Hsorted. revert l r.
  induction steps as [|steps IH]; intros l r Hlr Hsteps Hlow Hhigh; cbn [bisect].
  - assert (l = r) as -> by lia. split; [lia|]. by split.
  - case_decide as Hlt; [|assert (l = r) as -> by lia; split; [lia|]; by split].
    assert (l + (r - l) / 2 < r) as Hp.
    { pose proof (Nat.Div0.div_lt_upper_bound (r - l) 2 (r - l)). lia. }
    destruct (lookup_lt_is_Some_2 before (l + (r - l) / 2)) as [x Hx]; [lia|].
    rewrite Hx. destruct (lt pivot x) eqn:Hpx.
    + apply IH; [lia|lia|done|].
      intros i y Hi Hy. destruct (decide (i = l + (r - l) / 2)) as [->|Hne];
        [congruence|].
      apply (lt_le_trans pivot x y Hpx).
      apply (StronglySorted_lookup_lt le before (l + (r - l) / 2) i x y); [done..|lia].
    + apply IH; [lia|lia| |done].
      intros i y Hi Hy. destruct (decide (i = l + (r - l) / 2)) as [->|Hne];
        [by simplify_eq|].
      apply (le_trans y x pivot); [|done].
      apply (StronglySorted_lookup_lt le before i (l + (r - l) / 2) y x); [done..|lia].
Qed.

Lemma binary_insert_sorted (before : list A) (pivot : A) :
  StronglySorted le before → StronglySorted le (binary_insert lt before pivot).
Proof.
  intros Hsorted. unfold binary_insert.
  destruct (bisect_spec (length before) before pivot 0 (length before) Hsorted)
    as (Hk & Hlow & Hhigh); [lia|lia|intros; lia| |].
  { intros i x Hi Hx. apply lookup_lt_Some in Hx. lia. }
  set (k := bisect lt (length before) before pivot 0 (length before)) in *.
  rewrite <- (take_drop k before) in Hsorted.
  apply StronglySorted_app_2.
  - intros x y Hx [->|Hy]%elem_of_cons.
    + apply list_elem_of_lookup in Hx as [i Hi].
      pose proof (lookup_lt_Some _ _ _ Hi) as Hlt. rewrite length_take in Hlt.
      rewrite lookup_take_lt in Hi by lia. apply (Hlow i); [lia|done].
    + apply StronglySorted_app_1_elem_of with (take k before) (drop k before); done.
  - by apply StronglySorted_app_1_l in Hsorted.
  - constructor; [by apply StronglySorted_app_1_r in Hsorted|].
    apply Forall_forall. intros y Hy. apply list_elem_of_lookup in Hy as [i Hi].
    rewrite lookup_drop in Hi. apply lt_le. apply (Hhigh (k + i)); [lia|done].
Qed.

Lemma binarysort_sorted (run rest : list A) :
  StronglySorted le run → StronglySorted le (binarysort lt run rest).
Proof.
  unfold binarysort. revert run. induction rest as [|x rest IH]; intros run Hrun; simpl;
    [done|]. by apply IH, binary_insert_sorted.
Qed.

Lemma list_sort_sorted (l : list A) : StronglySorted le (list_sort lt l).
Proof.
  unfold list_sort. pose proof (count_run_sorted l) as Hrun.
  destruct (count_run lt l) as [n descending]. by apply binarysort_sorted.
Qed.

End ListSortFacts.

Lemma sorted_Permutation (l : list Q) : sorted l ≡ₚ l.
Proof. apply list_sort_Permutation. Qed.

Lemma sorted_StronglySorted (l : list Q) : StronglySorted Qle (sorted l).
Proof.
  eapply StronglySorted_weaken; [|apply (list_sort_sorted Qlt_bool)].
  - intros x y Hle. unfold le, Qlt_bool in Hle.
    apply negb_false_iff, Qle_bool_iff in Hle. exact Hle.
  - intros x y z Hxy Hyz. unfold le, Qlt_bool in *.
    apply negb_false_iff, Qle_bool_iff in Hxy, Hyz.
    apply negb_false_iff, Qle_bool_iff. by apply Qle_trans with y.
  - intros x y Hxy. unfold le, Qlt_bool in *.
    apply negb_true_iff in Hxy. apply negb_false_iff, Qle_bool_iff.
    apply Qlt_le_weak, Qnot_le_lt. intros Hle. apply Qle_bool_iff in Hle. congruence.
Qed.

Lemma reverse_StronglySorted {A} (R : relation A) (l : list A) :
  StronglySorted R l → StronglySorted (flip R) (reverse l).
Proof.
  induction 1 as [|x l Hsorted IH Hall]; [constructor|].
  rewrite reverse_cons. apply StronglySorted_app_2; [|done|repeat constructor].
  intros x1 x2 Hx1 ->%list_elem_of_singleton. unfold flip.
  rewrite Forall_forall in Hall. apply Hall. by apply elem_of_reverse.
Qed.

Lemma action_scores_Permutation (arm_scores : list Q) :
  action_scores arm_scores ≡ₚ arm_scores.
Proof.
  unfold action_scores. rewrite reverse_Permutation. apply sorted_Permutation.
Qed.

Lemma action_scores_nonincreasing (arm_scores : list Q) :
  StronglySorted (fun a b => (b <= a)%Q) (action_scores arm_scores).
Proof. apply (reverse_StronglySorted Qle), sorted_StronglySorted. Qed.

(** The sort sees its elements through [<] only. *)
Section ListSortFmap.
Context {A B : Type} (lt : A → A → bool) (lt' : B → B → bool) (f : A → B).
Hypothesis lt_f : ∀ x y, lt' (f x) (f y) = lt x y.

Lemma run_ascending_fmap (prev : A) (l : list A) :
  run_ascending lt' (f prev) (f <$> l) = run_ascending lt prev l.
Proof.
  revert prev. induction l as [|x l IH]; intros prev; [done|].
  rewrite fmap_cons. cbn [run_ascending]. by rewrite lt_f, IH.
Qed.

Lemma run_descending_fmap (prev : A) (l : list A) :
  run_descending lt' (f prev) (f <$> l) = run_descending lt prev l.
Proof.
  revert prev. induction l as [|x l IH]; intros prev; [done|].
  rewrite fmap_cons. cbn [run_descending]. by rewrite lt_f, IH.
Qed.

Lemma count_run_fmap (l : list A) : count_run lt' (f <$> l) = count_run lt l.
Proof.
  destruct l as [|x [|y l]]; [done..|]. rewrite !fmap_cons. cbn [count_run].
  by rewrite lt_f, run_ascending_fmap, run_descending_fmap.
Qed.

Lemma bisect_fmap (steps : nat) (before : list A) (pivot : A) (l r : nat) :
  bisect lt' steps (f <$> before) (f pivot) l r = bisect lt steps before pivot l r.
Proof.
  revert l r. induction steps as [|steps IH]; intros l r; [done|].
  cbn [bisect]. case_decide; [|done]. rewrite list_lookup_fmap.
  destruct (before !! (l + (r - l) / 2)) as [x|]; [|done].
  cbn [fmap option_fmap option_map]. by rewrite lt_f, !IH.
Qed.

Lemma binary_insert_fmap (before : list A) (pivot : A) :
  binary_insert lt' (f <$> before) (f pivot) = f <$> binary_insert lt before pivot.
Proof.
  unfold binary_insert.
  by rewrite length_fmap, bisect_fmap, fmap_app, fmap_cons, fmap_take, fmap_drop.
Qed.

Lemma binarysort_fmap (run rest : list A) :
  binarysort lt' (f <$> run) (f <$> rest) = f <$> binarysort lt run rest.
Proof.
  unfold binarysort. revert run. induction rest as [|x rest IH]; intros run; [done|].
  rewrite fmap_cons. cbn [foldl]. by rewrite binary_insert_fmap, IH.
Qed.

Lemma list_sort_fmap (l : list A) : list_sort lt' (f <$> l) = f <$> list_sort lt l.
Proof.
  unfold list_sort. rewrite count_run_fmap. destruct (count_run lt l) as [n descending].
  rewrite <- fmap_take, <- fmap_drop.
  destruct descending; [rewrite <- fmap_reverse|]; apply binarysort_fmap.
Qed.

End ListSortFmap.

Lemma action_scores_float_Finite (arm_scores : list Q) :
  action_scores_float (Finite <$> arm_scores) = Finite <$> action_scores arm_scores.
Proof.
  unfold action_scores_float, action_scores, sorted.
  by rewrite (list_sort_fmap Qlt_bool float_lt Finite), fmap_reverse.
Qed.

(** ** Writing the prediction columns *)

Lemma set_column_list_Ok (c : string) (vs : list value) (df df' : DataFrame) :
  set_column_list c vs df = Ok df' →
  length vs = df_len df
  ∧ df_len df' = df_len df
  ∧ df_columns df'
    = (if decide (c ∈ df_columns df) then df_columns df else df_columns df ++ [c])
  ∧ (∀ i c', c' ≠ c → cell df' i c' = cell df i c')
  ∧ (∀ i v, vs !! i = Some v → cell df' i c = Some v).
Proof.
  unfold set_column_list. case_decide as Hlen; [|intros [=]]. intros [= <-].
  unfold df_len in *. simpl. split; [done|]. split.
  { rewrite length_zip_with. lia. }
  split; [done|]. split.
  - intros i c' Hne. unfold cell. simpl.
    assert (c' ∈ (if decide (c ∈ df_columns df) then df_columns df
                  else df_columns df ++ [c]) ↔ c' ∈ df_columns df) as Hcols.
    { case_decide; [done|]. rewrite elem_of_app, list_elem_of_singleton. tauto. }
    destruct (decide (c' ∈ df_columns df)) as [Hin|Hnin].
    + rewrite decide_True by by apply Hcols.
      rewrite lookup_zip_with. destruct (df_rows df !! i) as [row|] eqn:Hrow; [|done].
      simpl. destruct (lookup_lt_is_Some_2 vs i) as [v ->].
      { rewrite Hlen. by apply lookup_lt_Some in Hrow. }
      simpl. by apply lookup_insert_ne.
    + rewrite decide_False; [done|]. by rewrite Hcols.
  - intros i v Hv. unfold cell. simpl.
    rewrite decide_True.
    + rewrite lookup_zip_with, Hv.
      destruct (lookup_lt_is_Some_2 (df_rows df) i) as [row ->].
      { rewrite <- Hlen. by apply lookup_lt_Some in Hv. }
      simpl. apply lookup_insert_eq.
    + case_decide; [done|]. apply elem_of_app. right. by apply list_elem_of_singleton.
Qed.

Section PredictionFacts.
Variable ITEM_METADATA_KEY : string.
Variable self : SupervisedModelTraining.

Lemma _get_arm_indices_frame (ob : observation) (st st' : State) (a : arm_array) :
  _get_arm_indices self ob st = Ok (a, st') →
  _test_data_frame st' = _test_data_frame st.
Proof.
  unfold _get_arm_indices, unique_items.
  destruct (arms_column (project_config self)) as [c|].
  - destruct (getitem ob c) as [v|]; simpl; [|intros [=]].
    destruct (np_flatnonzero v) as [idx|]; simpl; [|intros [=]].
    destruct (random_shuffle idx (random_state st)). by intros [= <- <-].
  - destruct (_unique_items st) as [u|]; simpl.
    + destruct (random_shuffle (take 100 u) (random_state st)). by intros [= <- <-].
    + destruct (training_items self) as [items|]; simpl; [|intros [=]].
      destruct (random_shuffle (take 100 (unique items)) (random_state st)).
      by intros [= <- <-].
Qed.

Lemma get_all_arm_indices_frame (obs : list observation) (st st' : State)
    (arrays : list arm_array) :
  get_all_arm_indices self obs st = Ok (arrays, st') →
  _test_data_frame st' = _test_data_frame st.
Proof.
  revert st arrays. induction obs as [|ob obs IH]; intros st arrays; simpl.
  - by intros [= <- <-].
  - destruct (_get_arm_indices self ob st) as [[a st1]|] eqn:Hcall; simpl; [|intros [=]].
    destruct (get_all_arm_indices self obs st1) as [[rest st2]|] eqn:Hrest; simpl;
      [|intros [=]].
    intros [= <- <-]. rewrite (IH _ _ Hrest). by eapply _get_arm_indices_frame.
Qed.

Lemma _prepare_for_agent_frame (agent : BanditAgent) (obs : list observation)
    (st st' : State) r :
  _prepare_for_agent ITEM_METADATA_KEY self agent obs st = Ok (r, st') →
  _test_data_frame st' = _test_data_frame st.
Proof.
  unfold _prepare_for_agent.
  destruct (get_all_arm_indices self obs st) as [[arrays st1]|] eqn:Harms; simpl;
    [|intros [=]].
  intros Hrest. apply get_all_arm_indices_frame in Harms. rewrite <- Harms.
  repeat match type of Hrest with
         | (match ?r with _ => _ end) = _ => destruct r; simpl in Hrest; try discriminate
         | (?r ≫= _) = _ => destruct r; simpl in Hrest; try discriminate
         end.
  by simplify_eq.
Qed.

(** The scores depend on the agent through its bandit only. *)
Lemma _prepare_for_agent_bandit (agent agent' : BanditAgent) (obs : list observation)
    (st : State) :
  bandit agent' = bandit agent →
  _prepare_for_agent ITEM_METADATA_KEY self agent' obs st
  = _prepare_for_agent ITEM_METADATA_KEY self agent obs st.
Proof. intros Hb. unfold _prepare_for_agent, _get_arm_scores. by rewrite Hb. Qed.

Lemma _save_test_set_predictions_inv (agent : BanditAgent) (st st' : State)
    (csv : DataFrame) :
  _save_test_set_predictions ITEM_METADATA_KEY self agent st = Ok (csv, st') →
  ∃ obs arm_contexts_list arm_indices_list arm_scores_list st1 df1 df2,
    mapM_result (prepare_observation ITEM_METADATA_KEY self)
      (to_dict_records (_test_data_frame st)) = Ok obs
    ∧ _prepare_for_agent ITEM_METADATA_KEY self agent obs st
      = Ok ((arm_contexts_list, arm_indices_list, arm_scores_list), st1)
    ∧ set_column_list "sorted_actions"
        (VArr <$> (fst <$> rank_all agent arm_contexts_list arm_indices_list
                             arm_scores_list)) (_test_data_frame st) = Ok df1
    ∧ set_column_list "prob_actions"
        (VVec <$> (snd <$> rank_all agent arm_contexts_list arm_indices_list
                             arm_scores_list)) df1 = Ok df2
    ∧ set_column_list "action_scores" (VVec <$> (action_scores <$> arm_scores_list)) df2
      = Ok csv
    ∧ _test_data_frame st' = csv.
Proof.
  unfold _save_test_set_predictions.
  destruct (mapM_result _ _) as [obs|] eqn:Hobs; simpl; [|intros [=]].
  destruct (_prepare_for_agent _ _ _ obs st)
    as [[[[arm_contexts_list arm_indices_list] arm_scores_list] st1]|] eqn:Hprep;
    simpl; [|intros [=]].
  rewrite (_prepare_for_agent_frame _ _ _ _ _ Hprep).
  destruct (set_column_list "sorted_actions" _ _) as [df1|] eqn:H1; simpl; [|intros [=]].
  destruct (set_column_list "prob_actions" _ _) as [df2|] eqn:H2; simpl; [|intros [=]].
  destruct (set_column_list "action_scores" _ _) as [df3|] eqn:H3; simpl; [|intros [=]].
  intros [= <- <-]. by eexists obs, _, _, _, st1, df1, df2.
Qed.

End PredictionFacts.

Lemma filter_ext_elem_of {A} (P Q : A → Prop) `{∀ x, Decision (P x)}
    `{∀ x, Decision (Q x)} (l : list A) :
  (∀ x, x ∈ l → (P x ↔ Q x)) → filter P l = filter Q l.
Proof.
  induction l as [|x l IH]; intros Hext; [done|].
  rewrite !filter_cons. rewrite IH by (intros y Hy; apply Hext; by right).
  destruct (decide (P x)) as [HP|HP], (decide (Q x)) as [HQ|HQ]; try done.
  - destruct HQ. apply Hext; [left|done].
  - destruct HP. apply Hext; [left|done].
Qed.

Lemma filter_Forall_id {A} (P : A → Prop) `{∀ x, Decision (P x)} (l : list A) :
  Forall P l → filter P l = l.
Proof.
  induction 1 as [|x l HP _ IH]; [done|].
  by rewrite filter_cons, decide_True, IH.
Qed.

Lemma foldl_add_column (columns added : list string) :
  NoDup added →
  foldl add_column columns added = columns ++ filter (fun c => c ∉ columns) added.
Proof.
  intros Hnd. revert columns.
  induction Hnd as [|c added Hc Hnd IH]; intros columns; simpl.
  - by rewrite app_nil_r.
  - rewrite IH. unfold add_column. rewrite filter_cons.
    destruct (decide (c ∈ columns)) as [Hin|Hnin].
    + by rewrite decide_False by tauto.
    + rewrite decide_True by done. rewrite <- app_assoc. simpl. do 2 f_equal.
      apply filter_ext_elem_of. intros c' Hc'.
      rewrite elem_of_app, list_elem_of_singleton.
      split; [tauto|]. intros Hn [?| ->]; done.
Qed.

Section PredictionProperties.
Variable ITEM_METADATA_KEY : string.
Variable self : SupervisedModelTraining.

(** C5 (amended).  For every test observation whose arm scores are
    numbers, none of them NaN, the value written to the [action_scores]
    column is a permutation of that observation's arm scores in
    non-increasing order, and it is what
    [list(reversed(sorted(...)))] makes of them as floats; it is
    computed from the scores alone, so two agents that share the bandit
    and rank differently write the same column. *)
Theorem action_scores_column (agent : BanditAgent) (st st' : State) (csv : DataFrame) :
  _save_test_set_predictions ITEM_METADATA_KEY self agent st = Ok (csv, st') →
  ∃ obs arm_contexts_list arm_indices_list arm_scores_list st1,
    mapM_result (prepare_observation ITEM_METADATA_KEY self)
      (to_dict_records (_test_data_frame st)) = Ok obs
    ∧ _prepare_for_agent ITEM_METADATA_KEY self agent obs st
      = Ok ((arm_contexts_list, arm_indices_list, arm_scores_list), st1)
    ∧ length arm_scores_list = df_len csv
    ∧ (∀ i arm_scores, arm_scores_list !! i = Some arm_scores →
         ∃ written, cell csv i "action_scores" = Some (VVec written)
                    ∧ written ≡ₚ arm_scores
                    ∧ StronglySorted (fun a b => (b <= a)%Q) written
                    ∧ Finite <$> written = action_scores_float (Finite <$> arm_scores))
    ∧ (∀ agent' csv' st'', bandit agent' = bandit agent →
         _save_test_set_predictions ITEM_METADATA_KEY self agent' st = Ok (csv', st'') →
         ∀ i, cell csv' i "action_scores" = cell csv i "action_scores").
Proof.
  intros Hsave.
  destruct (_save_test_set_predictions_inv _ _ _ _ _ _ Hsave)
    as (obs & ctxs & idxs & scores & st1 & df1 & df2 & Hobs & Hprep & H1 & H2 & H3 & _).
  exists obs, ctxs, idxs, scores, st1. split; [done|]. split; [done|].
  destruct (set_column_list_Ok _ _ _ _ H3) as (Hlen & Hlen3 & _ & _ & Hcell).
  rewrite !length_fmap in Hlen. split; [congruence|]. split.
  - intros i arm_scores Hi. exists (action_scores arm_scores).
    split; [apply Hcell; by rewrite !list_lookup_fmap, Hi|].
    split; [apply action_scores_Permutation|].
    split; [apply action_scores_nonincreasing|].
    by rewrite action_scores_float_Finite.
  - intros agent' csv' st'' Hb Hsave' i.
    destruct (_save_test_set_predictions_inv _ _ _ _ _ _ Hsave')
      as (obs' & ctxs' & idxs' & scores' & st1' & df1' & df2'
          & Hobs' & Hprep' & _ & _ & H3' & _).
    rewrite Hobs in Hobs'. simplify_eq.
    rewrite (_prepare_for_agent_bandit _ _ _ _ _ _ Hb), Hprep in Hprep'. simplify_eq.
    destruct (set_column_list_Ok _ _ _ _ H3') as (Hlen' & Hlen3' & _ & _ & Hcell').
    rewrite !length_fmap in Hlen'.
    destruct (scores' !! i) as [s|] eqn:Hs.
    + rewrite (Hcell i (VVec (action_scores s))), (Hcell' i (VVec (action_scores s)));
        [done|by rewrite !list_lookup_fmap, Hs..].
    + apply lookup_ge_None in Hs. unfold cell.
      assert (df_rows csv !! i = None) as ->.
      { apply lookup_ge_None. unfold df_len in *. lia. }
      assert (df_rows csv' !! i = None) as ->.
      { apply lookup_ge_None. unfold df_len in *. lia. }
      by repeat case_decide.
Qed.

(** C7 (amended).  [_save_test_set_predictions] assigns the three
    columns [sorted_actions], [prob_actions] and [action_scores]: those
    the test data frame lacks are appended in this order, those it
    already has are overwritten in place.  Every other column, the row
    count and the row order are unchanged in the CSV it writes; when the
    frame has none of the three names, exactly these three columns are
    added and every pre-existing column is unchanged. *)
Theorem _save_test_set_predictions_frame (agent : BanditAgent) (st st' : State)
    (csv : DataFrame) :
  _save_test_set_predictions ITEM_METADATA_KEY self agent st = Ok (csv, st') →
  let test := _test_data_frame st in
  df_columns csv
    = df_columns test ++ filter (fun c => c ∉ df_columns test) prediction_columns
  ∧ df_len csv = df_len test
  ∧ (∀ i c, c ∉ prediction_columns → cell csv i c = cell test i c)
  ∧ (Forall (fun c => c ∉ df_columns test) prediction_columns →
       df_columns csv = df_columns test ++ prediction_columns
       ∧ ∀ i c, c ∈ df_columns test → cell csv i c = cell test i c)
  ∧ _test_data_frame st' = csv.
Proof.
  intros Hsave test. subst test.
  destruct (_save_test_set_predictions_inv _ _ _ _ _ _ Hsave)
    as (obs & ctxs & idxs & scores & st1 & df1 & df2 & _ & _ & H1 & H2 & H3 & Hst').
  destruct (set_column_list_Ok _ _ _ _ H1) as (_ & Hlen1 & Hcols1 & Hold1 & _).
  destruct (set_column_list_Ok _ _ _ _ H2) as (_ & Hlen2 & Hcols2 & Hold2 & _).
  destruct (set_column_list_Ok _ _ _ _ H3) as (_ & Hlen3 & Hcols3 & Hold3 & _).
  assert (df_columns csv
          = df_columns (_test_data_frame st) ++ filter (fun c => c ∉ df_columns (_test_data_frame st)) prediction_columns)
    as Hcols.
  { rewrite <- foldl_add_column by compute_done.
    simpl. unfold add_column. by rewrite <- Hcols1, <- Hcols2. }
  assert (∀ i c, c ∉ prediction_columns → cell csv i c = cell (_test_data_frame st) i c) as Hold.
  { intros i c Hc. unfold prediction_columns in Hc.
    rewrite !not_elem_of_cons in Hc. destruct Hc as (? & ? & ? & _).
    by rewrite Hold3, Hold2, Hold1. }
  split; [done|]. split; [congruence|]. split; [done|]. split; [|done].
  intros Hfresh. split.
  - rewrite Hcols. f_equal. by apply filter_Forall_id.
  - intros i c Hc. apply Hold. intros Hin.
    rewrite Forall_forall in Hfresh. by apply (Hfresh c).
Qed.

End PredictionProperties.

Lemma _save_test_set_predictions_len (KEY : string) (self : SupervisedModelTraining)
    (agent : BanditAgent) (st st' : State) (csv : DataFrame) :
  _save_test_set_predictions KEY self agent st = Ok (csv, st') →
  df_len csv = df_len (_test_data_frame st).
Proof.
  intros Hsave.
  destruct (_save_test_set_predictions_inv _ _ _ _ _ _ Hsave)
    as (obs & ctxs & idxs & scores & st1 & df1 & df2 & _ & _ & H1 & H2 & H3 & _).
  destruct (set_column_list_Ok _ _ _ _ H1) as (_ & Hlen1 & _).
  destruct (set_column_list_Ok _ _ _ _ H2) as (_ & Hlen2 & _).
  destruct (set_column_list_Ok _ _ _ _ H3) as (_ & Hlen3 & _).
  congruence.
Qed.

(** On the sample test frame the first row gets its three scores in
    non-increasing order, whichever way the agent ranks. *)
Lemma action_scores_column_witness :
  ∃ csv st' written,
    _save_test_set_predictions "item_metadata" (sample_task (Some "arms"))
      sample_agent sample_state = Ok (csv, st')
    ∧ cell csv 0 "action_scores" = Some (VVec written)
    ∧ StronglySorted (fun a b => (b <= a)%Q) written
    ∧ ∀ csv' st'',
        _save_test_set_predictions "item_metadata" (sample_task (Some "arms"))
          sample_agent_in_order sample_state = Ok (csv', st'') →
        cell csv' 0 "action_scores" = cell csv 0 "action_scores".
Proof.
  assert (∃ r, _save_test_set_predictions "item_metadata" (sample_task (Some "arms"))
                 sample_agent sample_state = Ok r) as [[csv st'] Hsave]
    by (eexists; vm_compute; reflexivity).
  destruct (action_scores_column "item_metadata" _ _ _ _ _ Hsave)
    as (obs & ctxs & idxs & scores & st1 & _ & _ & Hlen & Hcells & Hrank).
  rewrite (_save_test_set_predictions_len _ _ _ _ _ _ Hsave) in Hlen.
  destruct (lookup_lt_is_Some_2 scores 0) as [s Hs]; [rewrite Hlen; vm_compute; lia|].
  destruct (Hcells 0 s Hs) as (written & Hcell & _ & Hsorted & _).
  exists csv, st', written. split; [done|]. split; [done|]. split; [done|].
  intros csv' st'' Hsave'. by apply (Hrank sample_agent_in_order csv' st'').
Defined.

(** Scores with a NaN among them: nothing is below or above NaN, so the
    list counts as one ascending run and is only reversed. *)
Lemma action_scores_float_NaN :
  ∃ written,
    action_scores_float [Finite 2; NaN; Finite 1] = written
    ∧ written = [Finite 1; NaN; Finite 2]
    ∧ written !! 0 = Some (Finite 1) ∧ written !! 2 = Some (Finite 2)
    ∧ (1 < 2)%Q.
Proof. eexists. repeat split. Qed.

(** On the sample test frame the three columns are appended and the
    logged item of the second row is still 3. *)
Lemma _save_test_set_predictions_frame_witness :
  ∃ csv st',
    _save_test_set_predictions "item_metadata" (sample_task (Some "arms"))
      sample_agent sample_state = Ok (csv, st')
    ∧ df_columns csv = df_columns sample_test_frame ++ prediction_columns
    ∧ df_len csv = 2
    ∧ cell csv 1 "item" = Some (VInt 3).
Proof.
  assert (∃ r, _save_test_set_predictions "item_metadata" (sample_task (Some "arms"))
                 sample_agent sample_state = Ok r) as [[csv st'] Hsave]
    by (eexists; vm_compute; reflexivity).
  destruct (_save_test_set_predictions_frame "item_metadata" _ _ _ _ _ Hsave)
    as (_ & Hlen & _ & Hfresh & _).
  destruct Hfresh as [Hcols Hcells]; [compute_done|].
  exists csv, st'. split; [done|]. split; [exact Hcols|]. split; [exact Hlen|].
  rewrite Hcells; [reflexivity | compute_done].
Defined.

(** A test frame that already has an [action_scores] column: the column
    is overwritten and only two columns are added. *)
Lemma _save_test_set_predictions_overwrites :
  ∃ csv st',
    _save_test_set_predictions "item_metadata" (sample_task (Some "arms"))
      sample_agent scored_state = Ok (csv, st')
    ∧ cell (_test_data_frame scored_state) 0 "action_scores" = Some (VInt 7)
    ∧ cell csv 0 "action_scores" = Some (VVec [3 # 4; 2 # 4; 1 # 4]%Q)
    ∧ length (df_columns csv) = length (df_columns (_test_data_frame scored_state)) + 2.
Proof. eexists _, _. split; [vm_compute; reflexivity|]. vm_compute. repeat split. Qed.

(** ** Preparing the arms for the agent *)






Lemma length_column_cells (rs : list (gmap string value)) (c : string) :
  length (column_cells rs c) = length rs.
Proof. unfold column_cells. by rewrite length_fmap. Qed.


Section PrepareFacts.
Variable self : SupervisedModelTraining.




End PrepareFacts.








Section PrepareContexts.
Variable self : SupervisedModelTraining.




End PrepareContexts.

#[local] Arguments dataset_getitem : simpl never.

Section PrepareProperties.
Variable ITEM_METADATA_KEY : string.
Variable self : SupervisedModelTraining.



End PrepareProperties.





(** ** Running a task *)

Lemma rmtree_Dir (p : path) (f : filesystem) :
  f !! p = Some Dir →
  ∃ f', rmtree p f = Ok f'
        ∧ (∀ q, p `prefix_of` q → f' !! q = None)
        ∧ (∀ q, ¬ p `prefix_of` q → f' !! q = f !! q).
Proof.
  intros Hp. unfold rmtree. rewrite Hp. eexists. split; [reflexivity|]. split.
  - intros q Hq. apply map_lookup_filter_None. right. intros n _ Hn. by apply Hn.
  - intros q Hq. apply option_eq. intros n. rewrite map_lookup_filter_Some.
    split; [by intros [? _]|]. by intros ?.
Qed.

Lemma release_device_fs (self : TrainingTask) (w : World) :
  fs (release_device self w) = fs w.
Proof. unfold release_device. by case_decide. Qed.

(** The [try] statement when [train] raises an [Exception] and the
    output directory is still there: the directory goes, the exception
    stays. *)
Lemma guarded_train_Exception (self : TrainingTask) (w w' : World) (e : exn) :
  train self w = (Raise e, w') →
  is_Exception e = true →
  fs w' !! output_path self = Some Dir →
  ∃ w'', guarded_train self w = (Raise e, w'')
         ∧ (∀ q, output_path self `prefix_of` q → fs w'' !! q = None)
         ∧ (∀ q, ¬ output_path self `prefix_of` q → fs w'' !! q = fs w' !! q).
Proof.
  intros Htrain He Hdir. unfold guarded_train. rewrite Htrain, He.
  destruct (rmtree_Dir _ _ Hdir) as (f' & -> & Hgone & Hkept).
  eexists. split; [reflexivity|]. by rewrite release_device_fs.
Qed.

(** Any other exception passes the [except] clause by. *)
Lemma guarded_train_BaseException (self : TrainingTask) (w w' : World) (e : exn) :
  train self w = (Raise e, w') →
  is_Exception e = false →
  guarded_train self w = (Raise e, release_device self w').
Proof. intros Htrain He. unfold guarded_train. by rewrite Htrain, He. Qed.

(** C6 (amended).  In both task classes, once [run] has created the
    output directory and saved the parameters: if [train] raises an
    exception that is an instance of [Exception] and the output
    directory is still in place, the whole directory is removed,
    nothing else is touched, and the same exception is re-raised (the
    older class also closes its mlflow run as failed); an exception
    outside [Exception], such as [KeyboardInterrupt], propagates with
    the files exactly as [train] left them. *)
Theorem run_removes_output_on_Exception (self : TrainingTask) (e : exn) :
  (∀ w w1 w2,
     _BaseModelTraining_prologue self w = (Ok (), w1) →
     train self w1 = (Raise e, w2) →
     (is_Exception e = true → fs w2 !! output_path self = Some Dir →
        ∃ w3, _BaseModelTraining_run self w = (Raise e, w3)
              ∧ (∀ q, output_path self `prefix_of` q → fs w3 !! q = None)
              ∧ (∀ q, ¬ output_path self `prefix_of` q → fs w3 !! q = fs w2 !! q))
     ∧ (is_Exception e = false →
          ∃ w3, _BaseModelTraining_run self w = (Raise e, w3) ∧ fs w3 = fs w2))
  ∧ (∀ w w1 w2,
       BaseModelTraining_prologue self w = (Ok (), w1) →
       train self w1 = (Raise e, w2) →
       (is_Exception e = true → fs w2 !! output_path self = Some Dir →
          ∃ w3, BaseModelTraining_run self w = (Raise e, w3)
                ∧ (∀ q, output_path self `prefix_of` q → fs w3 !! q = None)
                ∧ (∀ q, ¬ output_path self `prefix_of` q → fs w3 !! q = fs w2 !! q)
                ∧ last (mlflow_log w3) = Some (EndRun false))
       ∧ (is_Exception e = false →
            ∃ w3, BaseModelTraining_run self w = (Raise e, w3) ∧ fs w3 = fs w2)).
Proof.
  split; intros w w1 w2 Hpro Htrain; split.
  - intros He Hdir. unfold _BaseModelTraining_run. rewrite Hpro.
    by apply guarded_train_Exception.
  - intros He. unfold _BaseModelTraining_run. rewrite Hpro.
    rewrite (guarded_train_BaseException self w1 w2 e Htrain He).
    eexists. split; [reflexivity|]. apply release_device_fs.
  - intros He Hdir. unfold BaseModelTraining_run. rewrite Hpro.
    destruct (guarded_train_Exception self w1 w2 e Htrain He Hdir)
      as (w3 & -> & Hgone & Hkept).
    eexists. split; [reflexivity|]. simpl. split; [done|]. split; [done|].
    apply last_snoc.
  - intros He. unfold BaseModelTraining_run. rewrite Hpro.
    rewrite (guarded_train_BaseException self w1 w2 e Htrain He).
    eexists. split; [reflexivity|]. simpl. apply release_device_fs.
Qed.

(** A [train] that writes its summary and fails with [RuntimeError]:
    nothing is left below the output directory. *)
Lemma run_removes_output_on_Exception_witness :
  ∃ w3, _BaseModelTraining_run (sample_training (Raise RuntimeError)) empty_world
        = (Raise RuntimeError, w3)
        ∧ fs w3 !! sample_output = None
        ∧ fs w3 !! (sample_output ++ ["summary.txt"]) = None
        ∧ fs w3 !! (sample_output ++ ["params.json"]) = None.
Proof.
  destruct (proj1 (run_removes_output_on_Exception
                     (sample_training (Raise RuntimeError)) RuntimeError)
              empty_world
              (_BaseModelTraining_prologue (sample_training (Raise RuntimeError))
                 empty_world).2
              (train_then (Raise RuntimeError)
                 (_BaseModelTraining_prologue (sample_training (Raise RuntimeError))
                    empty_world).2).2)
    as [Hremoved _]; [vm_compute; reflexivity..|].
  destruct Hremoved as (w3 & Hrun & Hgone & _); [reflexivity | vm_compute; reflexivity|].
  exists w3. split; [exact Hrun|].
  repeat split; apply Hgone; [done | by eexists..].
Defined.

(** A [train] that writes its summary and is interrupted: the exception
    propagates and the directory stays, with the parameter file and the
    summary in it. *)
Lemma run_KeyboardInterrupt_leaves_output :
  ∃ w3, _BaseModelTraining_run (sample_training (Raise KeyboardInterrupt)) empty_world
        = (Raise KeyboardInterrupt, w3)
        ∧ fs w3 !! sample_output = Some Dir
        ∧ fs w3 !! (sample_output ++ ["summary.txt"]) = Some (File "summary")
        ∧ fs w3 !! (sample_output ++ ["params.json"]) = Some (File "seed: 42").
Proof. eexists. split; [vm_compute; reflexivity|]. vm_compute. auto. Qed.

(** ** Shapes through the layers *)

Lemma Linear_call_sized (l : Linear) (x : tensor) (B : nat) :
  sized B (in_features l) x →
  ∃ y, Linear_call l x = Ok y ∧ sized B (out_features l) y.
Proof.
  intros [Hr Hc]. unfold Linear_call. rewrite decide_True by done.
  eexists. split; [reflexivity|]. by split.
Qed.

Lemma Linear_call_mismatch (l : Linear) (x : tensor) :
  cols x ≠ in_features l → Linear_call l x = Raise RuntimeError.
Proof. intros Hne. unfold Linear_call. by rewrite decide_False. Qed.

Lemma cat2_sized (a b : tensor) (B wa wb : nat) :
  sized B wa a → sized B wb b →
  ∃ y, cat2 a b = Ok y ∧ sized B (wa + wb) y.
Proof.
  intros [Hra Hca] [Hrb Hcb]. unfold cat2. rewrite decide_True by congruence.
  eexists. split; [reflexivity|]. split; simpl; congruence.
Qed.

Lemma cat2_Ok_sized (a b y : tensor) :
  cat2 a b = Ok y → rows y = rows a ∧ rows a = rows b ∧ cols y = cols a + cols b.
Proof.
  unfold cat2. case_decide; [|intros [=]]. intros [= <-]. by repeat split.
Qed.

Lemma bmm_dot_sized (a b : tensor) (B w : nat) :
  sized B w a → sized B w b → ∃ y, bmm_dot a b = Ok y ∧ sized B 1 y.
Proof.
  intros [Hra Hca] [Hrb Hcb]. unfold bmm_dot.
  rewrite decide_True by (split; congruence).
  eexists. split; [reflexivity|]. by split.
Qed.

Lemma torch_cat_from_sized (acc : tensor) (ts : list tensor) (B w n : nat) :
  sized B n acc → Forall (sized B w) ts →
  ∃ y, torch_cat_from acc (Some <$> ts) = Ok y ∧ sized B (n + length ts * w) y.
Proof.
  revert acc n. induction ts as [|t ts IH]; intros acc n Hacc Hts.
  - exists acc. split; [done|]. simpl. by rewrite Nat.add_0_r.
  - apply Forall_cons in Hts as [Ht Hts]. rewrite fmap_cons. cbn [torch_cat_from].
    destruct (cat2_sized acc t B n w Hacc Ht) as (y & -> & Hy).
    cbn [mbind result_bind].
    destruct (IH y (n + w) Hy Hts) as (z & -> & [Hzr Hzc]).
    exists z. split; [done|]. split; [done|]. simpl. lia.
Qed.

Lemma torch_cat_sized (ts : list tensor) (B w : nat) :
  ts ≠ [] → Forall (sized B w) ts →
  ∃ y, torch_cat (Some <$> ts) = Ok y ∧ sized B (length ts * w) y.
Proof.
  intros Hne Hts. destruct ts as [|t ts]; [done|].
  apply Forall_cons in Hts as [Ht Hts]. unfold torch_cat.
  rewrite decide_True by (apply Forall_fmap, Forall_true; by eexists).
  rewrite fmap_cons.
  destruct (torch_cat_from_sized t ts B w w Ht Hts) as (y & -> & Hy).
  by exists y.
Qed.

Section LayerFacts.
Context `{Torch}.

Lemma last_initialised_hidden_layers (prev : nat) (sizes : list nat) :
  out_features <$> last (initialised_hidden_layers prev sizes) = last sizes.
Proof.
  revert prev. induction sizes as [|s sizes IH]; intros prev; [done|].
  destruct sizes as [|s' sizes]; [done|].
  change (initialised_hidden_layers prev (s :: s' :: sizes))
    with (initialised prev s :: initialised s s' :: initialised_hidden_layers s' sizes).
  rewrite !last_cons_cons. apply (IH s).
Qed.

Lemma initialised_hidden_layers_chained (prev : nat) (sizes : list nat) :
  chained prev (initialised_hidden_layers prev sizes)
  ∧ chain_out prev (initialised_hidden_layers prev sizes) = default prev (last sizes).
Proof.
  split.
  - revert prev. induction sizes as [|s sizes IH]; intros prev; [done|].
    split; [done|]. apply IH.
  - unfold chain_out. by rewrite last_initialised_hidden_layers.
Qed.

Lemma hidden_layers_sized (layers : list Linear) (v : tensor) (B w : nat) :
  chained w layers → sized B w v →
  ∃ y, foldM (fun v layer => relu <$> Linear_call layer v) v layers = Ok y
       ∧ sized B (chain_out w layers) y.
Proof.
  revert v w. induction layers as [|l layers IH]; intros v w Hch Hv; simpl.
  - by exists v.
  - destruct Hch as [Hin Hch]. rewrite <- Hin in Hv.
    destruct (Linear_call_sized l v B Hv) as (y & -> & Hy). simpl.
    destruct (IH (relu y) (out_features l) Hch) as (z & -> & Hz); [exact Hy|].
    exists z. split; [done|]. unfold chain_out in *.
    destruct layers as [|l' layers]; [exact Hz|]. rewrite last_cons_cons.
    destruct (last (l' :: layers)) eqn:Hlast; [exact Hz|]. by apply last_None in Hlast.
Qed.

End LayerFacts.

(** ** Loops that may raise *)

Lemma foldM_app {A B} (f : A → B → result A) (a : A) (l1 l2 : list B) :
  foldM f a (l1 ++ l2) = foldM f a l1 ≫= fun a' => foldM f a' l2.
Proof.
  revert a. induction l1 as [|b l1 IH]; intros a; simpl; [done|].
  destruct (f a b) as [a'|e]; simpl; [apply IH | done].
Qed.

Lemma foldM_fails_at {A B} (f : A → B → result A) (a : A) (l : list B) (b : B) :
  b ∈ l → (∀ a, fails (f a b)) → fails (foldM f a l).
Proof.
  intros Hb Hf. revert a. induction l as [|b' l IH]; intros a; [by apply elem_of_nil in Hb|].
  simpl. apply elem_of_cons in Hb as [->|Hb].
  - by apply fails_bind.
  - apply fails_bind_inv. intros a' _. by apply IH.
Qed.

Lemma foldM_skip {A B} (f : A → B → result A) (a : A) (l : list B) :
  (∀ b a, b ∈ l → f a b = Ok a) → foldM f a l = Ok a.
Proof.
  induction l as [|b l IH]; intros Hf; simpl; [done|].
  rewrite Hf by left. simpl. apply IH. intros b' a' Hb'. apply Hf. by right.
Qed.

(** ** Combinations *)

Lemma combinations_short {A} (l : list A) (k : nat) :
  length l < k → combinations l k = [].
Proof.
  revert k. induction l as [|x l IH]; intros [|k] Hlt; simpl in *; try lia; [done|].
  by rewrite !IH by lia.
Qed.

Lemma combinations_all {A} (l : list A) : combinations l (length l) = [l].
Proof.
  induction l as [|x l IH]; simpl; [done|].
  by rewrite IH, combinations_short by lia.
Qed.

Lemma length_combination {A} (l combo : list A) (k : nat) :
  combo ∈ combinations l k → length combo = k ∧ combo ⊆ l.
Proof.
  revert k combo. induction l as [|x l IH]; intros [|k] combo; simpl.
  - intros ->%list_elem_of_singleton. split; [done|]. apply list_subseteq_nil.
  - by intros ?%elem_of_nil.
  - intros ->%list_elem_of_singleton. split; [done|]. apply list_subseteq_nil.
  - intros [Hin|Hin]%elem_of_app.
    + apply list_elem_of_fmap in Hin as (combo' & -> & Hin).
      apply IH in Hin as [Hlen Hsub]. split; [simpl; lia|].
      intros y [->|Hy]%elem_of_cons; [left | right; by apply Hsub].
    + apply IH in Hin as [Hlen Hsub]. split; [done|].
      intros y Hy. right. by apply Hsub.
Qed.

(** ** The factorization machine, stage by stage *)

Section PredictFacts.
Context `{Torch}.

Lemma interaction_step_triple (x a b c : tensor) (rest : list tensor) :
  interaction_step x (a :: b :: c :: rest) = Raise ValueError.
Proof. reflexivity. Qed.

Lemma interactions_sized (combos : list (list tensor)) (x : tensor) (B w : nat) :
  rows x = B →
  Forall (fun combo => ∃ a b, combo = [a; b] ∧ sized B w a ∧ sized B w b) combos →
  ∃ y, foldM interaction_step x combos = Ok y ∧ rows y = B.
Proof.
  revert x. induction combos as [|combo combos IH]; intros x Hx Hcombos.
  - by exists x.
  - apply Forall_cons in Hcombos as [(a & b & -> & Ha & Hb) Hcombos].
    cbn [foldM interaction_step].
    destruct (bmm_dot_sized a b B w Ha Hb) as (dot & -> & Hdot).
    cbn [mbind result_bind].
    destruct (cat2_sized x dot B (cols x) 1) as (y & -> & [Hy _]); [done..|].
    cbn [mbind result_bind]. by apply IH.
Qed.

Lemma pairs_sized (lv : list tensor) (B w : nat) :
  Forall (sized B w) lv →
  Forall (fun combo => ∃ a b, combo = [a; b] ∧ sized B w a ∧ sized B w b)
    (combinations lv 2).
Proof.
  intros Hlv. apply Forall_forall. intros combo Hin.
  apply length_combination in Hin as [Hlen Hsub].
  destruct combo as [|a [|b [|c combo]]]; simplify_eq/=.
  exists a, b. rewrite Forall_forall in Hlv.
  split; [done|]. split; apply Hlv, Hsub; set_solver.
Qed.

(** The loop over [k] goes through when it stops at the pairs, or when
    there are too few latent vectors for anything larger. *)
Lemma higher_order_sized (lv : list tensor) (x : tensor) (B w order : nat) :
  rows x = B → Forall (sized B w) lv → order ≤ 2 ∨ length lv ≤ 2 →
  ∃ y, foldM (fun x k => foldM interaction_step x (combinations lv k))
         x (seq 2 (order - 1)) = Ok y
       ∧ rows y = B.
Proof.
  intros Hx Hlv Hsmall. destruct (order - 1) as [|n] eqn:Hn; [by exists x|].
  cbn [seq foldM].
  destruct (interactions_sized (combinations lv 2) x B w Hx (pairs_sized lv B w Hlv))
    as (y & -> & Hy).
  cbn [mbind result_bind]. exists y. split; [|done].
  apply foldM_skip. intros k a [Hk Hk']%elem_of_seq.
  destruct Hsmall as [Ho|Hl]; [lia|]. by rewrite combinations_short by lia.
Qed.

(** With three latent vectors the loop reaches the triple and stops
    there. *)
Lemma higher_order_triple (lv : list tensor) (x : tensor) (order : nat) :
  3 ≤ order → length lv = 3 →
  fails (foldM (fun x k => foldM interaction_step x (combinations lv k))
           x (seq 2 (order - 1))).
Proof.
  intros Ho Hl. apply (foldM_fails_at _ _ _ 3); [apply elem_of_seq; lia|].
  intros a. rewrite <- Hl, combinations_all.
  destruct lv as [|t1 [|t2 [|t3 lv]]]; simplify_eq/=. by eexists.
Qed.

Lemma higher_order_triple_sized (lv : list tensor) (x : tensor) (B w order : nat) :
  3 ≤ order → length lv = 3 → rows x = B → Forall (sized B w) lv →
  foldM (fun x k => foldM interaction_step x (combinations lv k))
    x (seq 2 (order - 1)) = Raise ValueError.
Proof.
  intros Ho Hl Hx Hlv. destruct (order - 1) as [|[|n]] eqn:Hn; [lia..|].
  cbn [seq foldM].
  destruct (interactions_sized (combinations lv 2) x B w Hx (pairs_sized lv B w Hlv))
    as (y & -> & Hy).
  cbn [mbind result_bind]. rewrite <- Hl, combinations_all.
  by destruct lv as [|t1 [|t2 [|t3 lv]]]; simplify_eq/=.
Qed.

(** The deep part of a machine built by the constructor. *)
Lemma deep_part_sized (lv : list tensor) (x : tensor) (B nf s : nat)
    (hidden : list nat) :
  lv ≠ [] → Forall (sized B nf) lv → rows x = B → last hidden = Some s →
  ∃ y, (v ← torch_cat (Some <$> lv);
        v ← foldM (fun v layer => relu <$> Linear_call layer v) v
              (initialised_hidden_layers (length lv * nf) hidden);
        v ← Linear_call (initialised s 1) v;
        cat2 x v) = Ok y
       ∧ rows y = B.
Proof.
  intros Hne Hlv Hx Hlast.
  destruct (torch_cat_sized lv B nf Hne Hlv) as (v & -> & Hv).
  cbn [mbind result_bind].
  destruct (initialised_hidden_layers_chained (length lv * nf) hidden) as [Hch Hout].
  destruct (hidden_layers_sized _ v B _ Hch Hv) as (v' & -> & Hv').
  cbn [mbind result_bind]. rewrite Hout, Hlast in Hv'.
  destruct (Linear_call_sized (initialised s 1) v' B Hv') as (o & -> & Ho).
  cbn [mbind result_bind].
  destruct (cat2_sized x o B (cols x) 1) as (y & -> & [Hy _]); [done..|].
  by exists y.
Qed.

End PredictFacts.

Section PredictShape.
Context `{Torch}.

Lemma append_latent_length (layer : option Linear) (r : option tensor)
    (lv lv' : list tensor) :
  append_latent layer r lv = Ok lv' →
  length lv' = length lv + (if r is Some _ then 1 else 0).
Proof.
  destruct r as [t|]; simpl; [|intros [= <-]; lia].
  destruct layer as [l|]; simpl; [|intros [=]].
  destruct (Linear_call l t); simpl; intros [= <-]. rewrite length_app. simpl. lia.
Qed.

Lemma append_latent_sized (d nf B : nat) (r : option tensor) (lv : list tensor) :
  fits B d r → Forall (sized B nf) lv →
  ∃ lv', append_latent (if decide (0 < d) then Some (initialised d nf) else None) r lv
         = Ok lv'
       ∧ Forall (sized B nf) lv'
       ∧ length lv' * nf = length lv * nf + (if decide (0 < d) then nf else 0).
Proof.
  intros Hr Hlv. destruct r as [t|]; simpl in Hr.
  - destruct Hr as [Hd Ht]. rewrite !decide_True by done. cbn [append_latent getattr].
    cbn [mbind result_bind].
    destruct (Linear_call_sized (initialised d nf) t B Ht) as (y & -> & Hy).
    cbn [mbind result_bind]. eexists. split; [done|]. split.
    + apply Forall_app. split; [done|]. by apply Forall_singleton.
    + rewrite length_app. simpl. lia.
  - subst d. rewrite !decide_False by lia. exists lv. split; [done|]. split; [done|lia].
Qed.

Lemma first_order_sized (B cd id ud : nat) (i u c : option tensor) :
  fits B cd c → fits B id i → fits B ud u → joinable i u c →
  ∃ x, first_order i u c = Ok (Some x) ∧ sized B (cd + id + ud) x.
Proof.
  intros Hc Hi Hu [[tc ->] Hiu]. destruct Hc as [_ Hc]. unfold first_order.
  destruct i as [ti|], u as [tu|]; simpl in Hi, Hu.
  - destruct Hi as [_ Hi], Hu as [_ Hu]. cbn [foldM cat_or_take mbind result_bind].
    rewrite torch_cat_pair.
    destruct (cat2_sized ti tu B id ud Hi Hu) as (x & -> & Hx).
    cbn [fmap result_fmap foldM cat_or_take mbind result_bind]. rewrite torch_cat_pair.
    destruct (cat2_sized x tc B (id + ud) cd Hx Hc) as (y & -> & [Hy1 Hy2]).
    exists y. split; [done|]. split; [done|lia].
  - destruct (Hiu ltac:(by eexists)) as [? [=]].
  - subst id. destruct Hu as [_ Hu]. cbn [foldM cat_or_take mbind result_bind].
    rewrite torch_cat_pair.
    destruct (cat2_sized tu tc B ud cd Hu Hc) as (y & -> & [Hy1 Hy2]).
    exists y. split; [done|]. split; [done|lia].
  - subst id ud. exists tc. split; [done|]. by rewrite !Nat.add_0_r.
Qed.

Lemma predict_needs_joinable (self : DeepFactorizationMachine) (i u c : option tensor) :
  ¬ joinable i u c → fails (DeepFactorizationMachine_predict self i u c).
Proof.
  intros Hnot. unfold DeepFactorizationMachine_predict.
  do 3 (apply fails_bind_inv; intros ? _).
  destruct c as [tc|].
  - apply fails_bind, first_order_fails. left.
    destruct i as [ti|]; [|destruct Hnot; split; [by eexists | by intros [? [=]]]].
    split; [by eexists|]. left. destruct u as [tu|]; [|done].
    destruct Hnot. split; by eexists.
  - destruct i as [ti|]; [|destruct u as [tu|]].
    + apply fails_bind, first_order_fails. left. split; [by eexists | by right].
    + apply fails_bind, first_order_fails. right. split; [by eexists | done].
    + simpl. by eexists.
Qed.

Lemma predict_order3 (self : DeepFactorizationMachine) (ti tu tc : tensor) :
  3 ≤ dfm_order self →
  fails (DeepFactorizationMachine_predict self (Some ti) (Some tu) (Some tc)).
Proof.
  intros Ho. unfold DeepFactorizationMachine_predict.
  apply fails_bind_inv; intros lv1 H1%append_latent_length.
  apply fails_bind_inv; intros lv2 H2%append_latent_length.
  apply fails_bind_inv; intros lv3 H3%append_latent_length.
  apply fails_bind_inv; intros x _. apply fails_bind_inv; intros x' _.
  apply fails_bind, higher_order_triple; [done|]. simpl in *. lia.
Qed.

Lemma predict_sized (nf cd id ud order B : nat) (deep : bool) (hidden : list nat)
    (m : DeepFactorizationMachine) (i u c : option tensor) :
  DeepFactorizationMachine_init nf cd id ud order deep hidden = Ok m →
  fits B cd c → fits B id i → fits B ud u →
  joinable i u c → (is_Some i → order ≤ 2) →
  ∃ v, DeepFactorizationMachine_predict m i u c = Ok v ∧ len v = B.
Proof.
  intros [(s & Hlast & ->) _]%DeepFactorizationMachine_init_Ok Hc Hi Hu Hjoin Horder.
  unfold DeepFactorizationMachine_predict.
  cbn [dfm_context dfm_item dfm_user dfm_linear dfm_deep dfm_hidden_layers
       dfm_deep_linear_out dfm_order].
  destruct (append_latent_sized cd nf B c [] Hc (Forall_nil_2 _)) as (lv1 & E1 & Hlv1 & Hw1).
  rewrite E1. cbn [mbind result_bind].
  destruct (append_latent_sized id nf B i lv1 Hi Hlv1) as (lv2 & E2 & Hlv2 & Hw2).
  rewrite E2. cbn [mbind result_bind].
  destruct (append_latent_sized ud nf B u lv2 Hu Hlv2) as (lv3 & E3 & Hlv3 & Hw3).
  rewrite E3. cbn [mbind result_bind].
  apply append_latent_length in E1, E2, E3.
  destruct (first_order_sized B cd id ud i u c Hc Hi Hu Hjoin) as (x & -> & Hx).
  cbn [mbind result_bind Linear_call_py].
  destruct (Linear_call_sized (initialised (cd + id + ud) 1) x B Hx) as (x1 & -> & [Hx1 _]).
  cbn [mbind result_bind].
  destruct (higher_order_sized lv3 x1 B nf order Hx1 Hlv3) as (x2 & -> & Hx2).
  { destruct i as [ti|]; [left; apply Horder; by eexists|].
    right. destruct c, u; simpl in *; lia. }
  cbn [mbind result_bind]. destruct deep.
  - replace (_ + _ + _) with (length lv3 * nf) by (simpl in Hw1; lia).
    destruct (deep_part_sized lv3 x2 B nf s hidden) as (y & -> & Hy); [|done..|].
    { destruct Hjoin as [[tc ->] _]. intros ->. simpl in *. lia. }
    cbn [mbind result_bind]. by eexists.
  - cbn [mbind result_bind]. by eexists.
Qed.

Lemma predict_triple (nf cd id ud order B : nat) (deep : bool) (hidden : list nat)
    (m : DeepFactorizationMachine) (ti tu tc : tensor) :
  DeepFactorizationMachine_init nf cd id ud order deep hidden = Ok m →
  fits B cd (Some tc) → fits B id (Some ti) → fits B ud (Some tu) → 3 ≤ order →
  DeepFactorizationMachine_predict m (Some ti) (Some tu) (Some tc) = Raise ValueError.
Proof.
  intros [(s & Hlast & ->) _]%DeepFactorizationMachine_init_Ok Hc Hi Hu Horder.
  unfold DeepFactorizationMachine_predict.
  cbn [dfm_context dfm_item dfm_user dfm_linear dfm_deep dfm_hidden_layers
       dfm_deep_linear_out dfm_order].
  destruct (append_latent_sized cd nf B _ [] Hc (Forall_nil_2 _)) as (lv1 & E1 & Hlv1 & _).
  rewrite E1. cbn [mbind result_bind].
  destruct (append_latent_sized id nf B _ lv1 Hi Hlv1) as (lv2 & E2 & Hlv2 & _).
  rewrite E2. cbn [mbind result_bind].
  destruct (append_latent_sized ud nf B _ lv2 Hu Hlv2) as (lv3 & E3 & Hlv3 & _).
  rewrite E3. cbn [mbind result_bind].
  apply append_latent_length in E1, E2, E3.
  destruct (first_order_sized B cd id ud _ _ _ Hc Hi Hu) as (x & -> & Hx).
  { split; by eexists. }
  cbn [mbind result_bind Linear_call_py].
  destruct (Linear_call_sized (initialised (cd + id + ud) 1) x B Hx) as (x1 & -> & [Hx1 _]).
  cbn [mbind result_bind].
  rewrite (higher_order_triple_sized lv3 x1 B nf order); [done..| |done|done].
  simpl in *. lia.
Qed.

(** X1.  For a factorization machine built by the constructor and
    representations that fit its input dimensions (a batch of [B] rows
    of the declared width where the dimension is positive, [None] where
    it is zero), [predict] returns exactly when there is a context
    representation, an item representation comes with a user
    representation, and the order is at most two whenever all three are
    present; what it returns has one probability per batch row. *)
Theorem DeepFactorizationMachine_predict_returns
    (nf cd id ud order B : nat) (deep : bool) (hidden : list nat)
    (m : DeepFactorizationMachine) (i u c : option tensor) :
  DeepFactorizationMachine_init nf cd id ud order deep hidden = Ok m →
  fits B cd c → fits B id i → fits B ud u →
  (succeeds (DeepFactorizationMachine_predict m i u c)
   ↔ joinable i u c ∧ (is_Some i → order ≤ 2))
  ∧ (∀ v, DeepFactorizationMachine_predict m i u c = Ok v → len v = B).
Proof.
  intros Hm Hc Hi Hu.
  assert (Hnec : succeeds (DeepFactorizationMachine_predict m i u c) →
                 joinable i u c ∧ (is_Some i → order ≤ 2)).
  { intros Hok. destruct (decide (is_Some c ∧ (is_Some i → is_Some u))) as [Hj|Hj].
    - split; [exact Hj|]. intros [ti ->]. destruct Hj as [[tc ->] [tu ->]]; [by eexists|].
      destruct (decide (order ≤ 2)) as [|Hgt]; [done|].
      destruct (succeeds_not_fails _ Hok).
      rewrite (predict_triple nf cd id ud order B deep hidden m ti tu tc) by (done || lia).
      by eexists.
    - destruct (succeeds_not_fails _ Hok). by apply predict_needs_joinable. }
  split; [split; [exact Hnec|]|].
  - intros [Hj Ho].
    destruct (predict_sized nf cd id ud order B deep hidden m i u c) as (v & -> & _);
      [done..|]. by eexists.
  - intros v Hv. destruct Hnec as [Hj Ho]; [by eexists|].
    destruct (predict_sized nf cd id ud order B deep hidden m i u c) as (v' & Hv' & Hlen);
      [done..|]. congruence.
Qed.

(** X2.  The loop over the higher orders unpacks every combination of
    latent vectors into a pair.  With all three representations present
    and an order of three or more [predict] fails for every machine and
    every input; for a machine built by the constructor on inputs of
    the declared widths the error is the [ValueError] of unpacking the
    triple. *)
Theorem DeepFactorizationMachine_predict_third_order
    (self : DeepFactorizationMachine) (ti tu tc : tensor) :
  3 ≤ dfm_order self →
  fails (DeepFactorizationMachine_predict self (Some ti) (Some tu) (Some tc))
  ∧ (∀ nf cd id ud deep hidden B,
       DeepFactorizationMachine_init nf cd id ud (dfm_order self) deep hidden = Ok self →
       fits B cd (Some tc) → fits B id (Some ti) → fits B ud (Some tu) →
       DeepFactorizationMachine_predict self (Some ti) (Some tu) (Some tc)
       = Raise ValueError).
Proof.
  intros Ho. split; [by apply predict_order3|].
  intros nf cd id ud deep hidden B Hm Hc Hi Hu.
  by apply (predict_triple nf cd id ud (dfm_order self) B deep hidden).
Qed.

End PredictShape.

(** A deep machine of order two without item features, on a batch of
    five rows. *)
Lemma DeepFactorizationMachine_predict_returns_witness :
  ∃ m, @DeepFactorizationMachine_init rational_torch 2 3 0 2 2 true [4; 3] = Ok m
       ∧ succeeds (@DeepFactorizationMachine_predict rational_torch m
                     None (Some (sample_tensor 5 2)) (Some (sample_tensor 5 3))).
Proof.
  eexists. split; [reflexivity|].
  destruct (@DeepFactorizationMachine_predict_returns rational_torch 2 3 0 2 2 5 true
              [4; 3] _ None (Some (sample_tensor 5 2)) (Some (sample_tensor 5 3)) eq_refl)
    as [[_ Hok] _].
  - split; [lia | by split].
  - reflexivity.
  - split; [lia | by split].
  - apply Hok. split; [split; [by eexists | by intros [? [=]]] | by intros [? [=]]].
Defined.

(** A machine of order three on item, user and context features. *)
Lemma DeepFactorizationMachine_predict_third_order_witness :
  ∃ m, @DeepFactorizationMachine_init rational_torch 2 3 2 2 3 false [4] = Ok m
       ∧ @DeepFactorizationMachine_predict rational_torch m (Some (sample_tensor 5 2))
           (Some (sample_tensor 5 2)) (Some (sample_tensor 5 3)) = Raise ValueError.
Proof.
  eexists. split; [reflexivity|].
  refine (proj2 (@DeepFactorizationMachine_predict_third_order rational_torch _
                   (sample_tensor 5 2) (sample_tensor 5 2) (sample_tensor 5 3) _)
            2 3 2 2 false [4] 5 eq_refl _ _ _);
    [simpl; lia | split; [lia | by split]..].
Defined.

(** ** The representations [forward] computes *)

Section ForwardFacts.
Context `{Torch}.

Lemma shaped_normalize (B w : nat) (on : bool) (norm : bool) (r : option tensor) :
  keeps_shape F_normalize → shaped B w on r →
  shaped B w on (if norm then ContextualBandit_normalize r else r).
Proof.
  intros Hn Hr. destruct norm; [|done]. destruct r as [t|]; [|done].
  destruct Hr as [Hon [Hr Hc]], (Hn t) as [Hr' Hc']. simpl.
  split; [done|]. split; congruence.
Qed.

Lemma compute_context_embeddings_shaped (self : ContextualBandit)
    (info : tensor) (visits buys : vector) (B : nat) :
  keeps_shape F_normalize → rows info = B → len visits = B → len buys = B →
  ∃ r, compute_context_embeddings self info visits buys = Ok r
       ∧ shaped B ((if cb_use_numerical_content self then cols info else 0)
                   + (if cb_use_buys_visits self then 2 else 0))
           (cb_use_numerical_content self || cb_use_buys_visits self) r.
Proof.
  intros Hn Hi Hv Hb. unfold compute_context_embeddings.
  destruct (cb_use_numerical_content self), (cb_use_buys_visits self),
    (cb_use_normalize self);
    cbn [cat_or_take mbind result_bind fmap result_fmap orb];
    rewrite ?torch_cat_pair, ?torch_cat_triple; unfold cat2; simpl;
    rewrite ?decide_True by (simpl; congruence); simpl;
    rewrite ?decide_True by (simpl; congruence); simpl;
    (eexists; split; [reflexivity|]); simpl; try done;
    (split; [done|]); split;
    rewrite ?(proj1 (Hn _)), ?(proj2 (Hn _)); simpl; congruence || lia.
Qed.

Lemma compute_context_embeddings_present (self : ContextualBandit)
    (info : tensor) (visits buys : vector) (r : option tensor) :
  compute_context_embeddings self info visits buys = Ok r →
  is_Some r ↔ cb_use_numerical_content self || cb_use_buys_visits self = true.
Proof.
  unfold compute_context_embeddings.
  destruct (cb_use_numerical_content self), (cb_use_buys_visits self),
    (cb_use_normalize self);
    cbn [cat_or_take mbind result_bind fmap result_fmap orb];
    repeat match goal with
           | |- context [torch_cat ?l] => destruct (torch_cat l)
           end;
    cbn [cat_or_take mbind result_bind fmap result_fmap orb];
    intros [= <-]; simpl; split; try done; try (by eexists); by intros [? [=]].
Qed.

Lemma compute_item_embeddings_present (self : ContextualBandit)
    (item_ids : list nat) (name description category : list (list nat))
    (r : option tensor) :
  compute_item_embeddings self item_ids name description category = Ok r →
  is_Some r ↔ cb_use_textual_content self = true ∨ is_Some (cb_item_embeddings self).
Proof.
  unfold compute_item_embeddings. intros Hr.
  destruct (cb_use_textual_content self).
  - match type of Hr with (?text ≫= _) = _ => destruct text as [x|] eqn:Hx end;
      [|discriminate].
    assert (is_Some x) as [t ->].
    { repeat match type of Hx with
             | (?r ≫= _) = _ => destruct r; [|discriminate]; cbn [mbind result_bind] in Hx
             end.
      destruct (torch_cat _); [|discriminate]. injection Hx as <-. by eexists. }
    cbn [mbind result_bind] in Hr.
    destruct (cb_item_embeddings self) as [emb|].
    + destruct (Embedding_call emb item_ids) as [e|]; [|discriminate].
      cbn [mbind result_bind cat_or_take] in Hr.
      destruct (torch_cat _); [|discriminate]. injection Hr as <-.
      destruct (cb_use_normalize self); (split; [by left | intros _; by eexists]).
    + injection Hr as <-. destruct (cb_use_normalize self); (split; [by left | intros _; by eexists]).
  - cbn [mbind result_bind] in Hr.
    destruct (cb_item_embeddings self) as [emb|].
    + destruct (Embedding_call emb item_ids) as [e|]; [|discriminate].
      injection Hr as <-. destruct (cb_use_normalize self); (split; intros _; try right; by eexists).
    + injection Hr as <-.
      destruct (cb_use_normalize self); (split; [by intros [? [=]]|]);
        by intros [[=]|[? [=]]].
Qed.

Lemma compute_item_embeddings_shaped (self : ContextualBandit)
    (item_ids : list nat) (name description category : list (list nat)) (B : nat) :
  keeps_shape F_normalize → cb_use_textual_content self = false →
  (∀ emb, cb_item_embeddings self = Some emb →
          Forall (fun i => i < num_embeddings emb) item_ids) →
  length item_ids = B →
  ∃ r, compute_item_embeddings self item_ids name description category = Ok r
       ∧ shaped B (default 0 (embedding_dim <$> cb_item_embeddings self))
           (bool_decide (is_Some (cb_item_embeddings self))) r.
Proof.
  intros Hn Htext Hids Hlen. unfold compute_item_embeddings. rewrite Htext.
  cbn [mbind result_bind].
  destruct (cb_item_embeddings self) as [emb|].
  - unfold Embedding_call. rewrite decide_True by by apply Hids.
    cbn [mbind result_bind cat_or_take]. eexists. split; [reflexivity|].
    apply shaped_normalize; [done|]. by repeat split.
  - eexists. split; [reflexivity|]. by apply shaped_normalize.
Qed.

(** The user representation as [forward] computes it. *)
Lemma user_representation_shaped (self : ContextualBandit) (user_ids : list nat)
    (B : nat) :
  keeps_shape F_normalize →
  (∀ emb, cb_user_embeddings self = Some emb →
          cb_use_normalize self = true
          ∧ Forall (fun i => i < num_embeddings emb) user_ids) →
  length user_ids = B →
  ∃ r, (if cb_user_embeddings self is Some _
        then Some <$> compute_user_embeddings self user_ids else Ok None) = Ok r
       ∧ shaped B (default 0 (embedding_dim <$> cb_user_embeddings self))
           (bool_decide (is_Some (cb_user_embeddings self))) r.
Proof.
  intros Hn Hemb Hlen. unfold compute_user_embeddings.
  destruct (cb_user_embeddings self) as [emb|]; [|by exists None].
  destruct (Hemb emb eq_refl) as [-> Hids]. cbn [mbind result_bind].
  unfold Embedding_call. rewrite decide_True by done.
  cbn [mbind result_bind fmap result_fmap ContextualBandit_normalize option_fmap option_map].
  eexists. split; [reflexivity|]. destruct (Hn (Tensor (length user_ids) (embedding_dim emb)
    (fun i j => table emb (nth i user_ids 0) j))) as [Hr Hc].
  split; [done|]. split; simpl in *; congruence.
Qed.

(** Without normalisation the user representation cannot be computed. *)
Lemma user_representation_unbound (self : ContextualBandit) (user_ids : list nat) :
  is_Some (cb_user_embeddings self) → cb_use_normalize self = false →
  fails (if cb_user_embeddings self is Some _
         then Some <$> compute_user_embeddings self user_ids else Ok None).
Proof.
  intros [emb Hemb] Hnorm. unfold compute_user_embeddings. rewrite Hemb, Hnorm.
  cbn [mbind result_bind]. destruct (Embedding_call emb user_ids); by eexists.
Qed.

Lemma LogisticRegression_predict_shaped (n B wi wu wc : nat) (oi ou oc : bool)
    (i u c : option tensor) :
  shaped B wi oi i → shaped B wu ou u → shaped B wc oc c →
  (succeeds (LogisticRegression_predict (mkLR (initialised n 1)) i u c)
   ↔ oi || ou || oc = true
     ∧ n = (if oc then wc else 0) + (if ou then wu else 0) + (if oi then wi else 0))
  ∧ (∀ t, LogisticRegression_predict (mkLR (initialised n 1)) i u c = Ok t →
          sized B 1 t).
Proof.
  intros Hi Hu Hc. unfold LogisticRegression_predict.
  cbn [lr_linear].
  destruct i as [ti|], u as [tu|], c as [tc|]; simpl in Hi, Hu, Hc;
    repeat match goal with
           | H : _ = true ∧ sized _ _ _ |- _ => destruct H as [-> [? ?]]
           | H : _ = false |- _ => rewrite H; clear H
           end;
    cbn [cat_or_take mbind result_bind fmap result_fmap orb];
    rewrite ?torch_cat_pair; unfold cat2;
    rewrite ?decide_True by congruence;
    cbn [cat_or_take mbind result_bind fmap result_fmap orb];
    rewrite ?torch_cat_pair; unfold cat2; cbn [rows cols];
    rewrite ?decide_True by congruence;
    cbn [cat_or_take mbind result_bind fmap result_fmap orb];
    unfold Linear_call_py, Linear_call; cbn [in_features out_features initialised rows cols].
  all: try case_decide; cbn [fmap result_fmap].
  all: split; [split|].
  all: first
    [ intros [t [=]]; split; [done | simpl in *; lia]
    | by intros [t [=]]
    | intros [_ ->]; first [exfalso; simpl in *; lia | by eexists]
    | by intros [[=] _]
    | intros t [= <-]; split; simpl; congruence
    | by intros t [=] ].
Qed.

Lemma init_Ok_flags (a : ContextualBandit_args) (cb : ContextualBandit) :
  ContextualBandit_init a = Ok cb →
  cb_user_embeddings cb
    = (if user_embeddings a then Some (initialised_Embedding (n_users a) (n_factors a)) else None)
  ∧ cb_item_embeddings cb
    = (if item_embeddings a then Some (initialised_Embedding (n_items a) (n_factors a)) else None)
  ∧ cb_use_numerical_content cb = use_numerical_content a
  ∧ cb_use_textual_content cb = use_textual_content a
  ∧ cb_use_normalize cb = use_normalize a
  ∧ cb_use_buys_visits cb = use_buys_visits a.
Proof. intros (cdim & pred & _ & -> & _)%init_Ok_cb. by repeat split. Qed.

Lemma shaped_embedding (B : nat) (o : bool) (e : Embedding) (r : option tensor) :
  shaped B (default 0 (embedding_dim <$> (if o then Some e else None)))
    (bool_decide (is_Some (if o then Some e else None))) r →
  shaped B (embedding_dim e) o r.
Proof.
  destruct o, r as [t|]; simpl.
  - intros [_ ?]. by split.
  - done.
  - by intros [[=] _].
  - done.
Qed.

(** The three representations of a model without text features, on one
    batch of known users and items. *)
Lemma representations_shaped (a : ContextualBandit_args) (cb : ContextualBandit)
    (user_ids : list nat) (content : item_content) (B : nat) :
  ContextualBandit_init a = Ok cb → use_textual_content a = false →
  keeps_shape F_normalize → batch B user_ids content → known_ids a user_ids content →
  (user_embeddings a = true → use_normalize a = true) →
  ∃ rc ri ru,
    compute_context_embeddings cb (ic_info content) (ic_visits content) (ic_buys content)
      = Ok rc
    ∧ compute_item_embeddings cb (ic_item_ids content) (ic_name content)
        (ic_description content) (ic_category content) = Ok ri
    ∧ (if cb_user_embeddings cb is Some _
       then Some <$> compute_user_embeddings cb user_ids else Ok None) = Ok ru
    ∧ shaped B (context_width a (ic_info content))
        (use_numerical_content a || use_buys_visits a) rc
    ∧ shaped B (n_factors a) (item_embeddings a) ri
    ∧ shaped B (n_factors a) (user_embeddings a) ru.
Proof.
  intros Hinit Htext Hn (Hb1 & Hb2 & Hb3 & Hb4 & Hb5) [Hk1 Hk2] Hnorm.
  destruct (init_Ok_flags a cb Hinit) as (Eu & Ei & Enum & Etext & Enorm & Ebv).
  destruct (compute_context_embeddings_shaped cb (ic_info content) (ic_visits content)
              (ic_buys content) B Hn Hb3 Hb4 Hb5) as (rc & Hrc & Sc).
  destruct (compute_item_embeddings_shaped cb (ic_item_ids content) (ic_name content)
              (ic_description content) (ic_category content) B Hn) as (ri & Hri & Si);
    [congruence| |done|].
  { intros emb. rewrite Ei. destruct (item_embeddings a); intros [= <-]. exact Hk2. }
  destruct (user_representation_shaped cb user_ids B Hn) as (ru & Hru & Su); [|done|].
  { intros emb. rewrite Eu, Enorm. destruct (user_embeddings a); intros [= <-].
    split; [by apply Hnorm | exact Hk1]. }
  exists rc, ri, ru. rewrite Enum, Ebv in Sc. rewrite Ei in Si. rewrite Eu in Su.
  repeat split; try done.
  - exact (shaped_embedding B _ (initialised_Embedding (n_items a) (n_factors a)) _ Si).
  - exact (shaped_embedding B _ (initialised_Embedding (n_users a) (n_factors a)) _ Su).
Qed.

(** X3.  [forward] of a logistic-regression model without text
    features, on one batch of [B] known users and items, with a
    normalisation that keeps shapes: it returns exactly when user
    embeddings come with [use_normalize], at least one feature is
    switched on, and the context dimension the constructor counted is
    the width of the context features that [forward] puts together.
    What it returns is a column of [B] probabilities and the four
    trailing arguments untouched. *)
Theorem ContextualBandit_forward_logistic_regression {X : Type}
    (a : ContextualBandit_args) (cb : ContextualBandit)
    (user_ids : list nat) (content : item_content) (v1 v2 v3 v4 : X) (B : nat) :
  ContextualBandit_init a = Ok cb →
  predictor a = "logistic_regression" →
  use_textual_content a = false →
  keeps_shape F_normalize →
  batch B user_ids content → known_ids a user_ids content →
  (succeeds (ContextualBandit_forward cb user_ids content v1 v2 v3 v4)
   ↔ (user_embeddings a = true → use_normalize a = true)
     ∧ user_embeddings a || item_embeddings a
       || use_numerical_content a || use_buys_visits a = true
     ∧ context_input_dim a = Some (context_width a (ic_info content)))
  ∧ (∀ p, ContextualBandit_forward cb user_ids content v1 v2 v3 v4 = Ok p →
          ∃ t, p = (Prob2 t, v1, v2, v3, v4) ∧ sized B 1 t).
Proof.
  intros Hinit Hpred Htext Hn Hbatch Hknown.
  destruct (init_Ok_flags a cb Hinit) as (Eu & _ & _ & _ & Enorm & _).
  destruct (decide (user_embeddings a = true → use_normalize a = true)) as [Hnorm|Hnorm].
  - destruct (representations_shaped a cb user_ids content B)
      as (rc & ri & ru & Hrc & Hri & Hru & Sc & Si & Su); [done..|].
    destruct (init_Ok_cb a cb Hinit) as (cdim & pred & Hcdim & Hcb & _ & _ & Hdisp).
    assert (cb_predictor cb = pred) as Epred by (by rewrite Hcb).
    destruct Hdisp as [(_ & -> & _) | [Hfm _]]; [|congruence].
    unfold ContextualBandit_forward. rewrite Hrc, Hri. cbn [mbind result_bind].
    rewrite Hru, Epred. cbn [mbind result_bind Predictor_predict].
    destruct (LogisticRegression_predict_shaped
                (item_input_dim a + cdim + user_input_dim a) B _ _ _ _ _ _
                ri ru rc Si Su Sc) as [Hiff Hshape].
    assert (Hdims :
      (item_embeddings a || user_embeddings a
         || (use_numerical_content a || use_buys_visits a) = true
       ∧ item_input_dim a + cdim + user_input_dim a
         = (if use_numerical_content a || use_buys_visits a
            then context_width a (ic_info content) else 0)
           + (if user_embeddings a then n_factors a else 0)
           + (if item_embeddings a then n_factors a else 0))
      ↔ (user_embeddings a || item_embeddings a
           || use_numerical_content a || use_buys_visits a = true
         ∧ Some cdim = Some (context_width a (ic_info content)))).
    { unfold item_input_dim, user_input_dim, context_width. rewrite Htext.
      destruct (user_embeddings a), (item_embeddings a), (use_numerical_content a),
        (use_buys_visits a); simpl; split; intros [? Heq]; split; try done;
        try (f_equal; lia); injection Heq as ->; lia. }
    rewrite Hdims, <- Hcdim in Hiff.
    destruct (LogisticRegression_predict _ ri ru rc) as [t|e];
      cbn [fmap result_fmap mbind result_bind].
    + split; [split|].
      * intros _. split; [done|]. apply Hiff. by eexists.
      * intros _. by eexists.
      * intros p [= <-]. exists t. split; [done|]. by apply Hshape.
    + split; [split|].
      * by intros [? [=]].
      * intros [_ Hrest]. apply Hiff in Hrest as [? [=]].
      * by intros p [=].
  - assert (fails (ContextualBandit_forward cb user_ids content v1 v2 v3 v4)) as Hf.
    { unfold ContextualBandit_forward.
      apply fails_bind_inv; intros rc _. apply fails_bind_inv; intros ri _.
      apply fails_bind, user_representation_unbound.
      - rewrite Eu. destruct (user_embeddings a); [by eexists|]. by destruct Hnorm.
      - rewrite Enorm. destruct (use_normalize a); [|done]. by destruct Hnorm. }
    split; [split|].
    + intros Hok. by destruct (succeeds_not_fails _ Hok).
    + by intros [? _].
    + intros p Hp. destruct Hf as [e He]. congruence.
Qed.

End ForwardFacts.

Lemma rational_torch_keeps_shape : keeps_shape (@F_normalize rational_torch).
Proof. by intros t. Qed.

(** The sample model with every feature but text, on a batch of two. *)
Lemma ContextualBandit_forward_logistic_regression_witness :
  ∃ cb, @ContextualBandit_init rational_torch
          (sample_args "logistic_regression" true [64; 32]) = Ok cb
        ∧ succeeds (@ContextualBandit_forward rational_torch unit cb [0; 1]
                      sample_content () () () ()).
Proof.
  eexists. split; [reflexivity|].
  destruct (@ContextualBandit_forward_logistic_regression rational_torch unit
              (sample_args "logistic_regression" true [64; 32]) _ [0; 1] sample_content
              () () () () 2 eq_refl eq_refl eq_refl rational_torch_keeps_shape)
    as [[_ Hok] _].
  - by repeat split.
  - split; repeat constructor.
  - apply Hok. by repeat split.
Defined.

Section ForwardMachine.
Context `{Torch}.

Lemma forward_Ok_inv {X : Type} (cb : ContextualBandit) (user_ids : list nat)
    (content : item_content) (v1 v2 v3 v4 : X) :
  succeeds (ContextualBandit_forward cb user_ids content v1 v2 v3 v4) →
  ∃ rc ri ru,
    compute_context_embeddings cb (ic_info content) (ic_visits content) (ic_buys content)
      = Ok rc
    ∧ compute_item_embeddings cb (ic_item_ids content) (ic_name content)
        (ic_description content) (ic_category content) = Ok ri
    ∧ (if cb_user_embeddings cb is Some _
       then Some <$> compute_user_embeddings cb user_ids else Ok None) = Ok ru
    ∧ succeeds (Predictor_predict (cb_predictor cb) ri ru rc).
Proof.
  unfold ContextualBandit_forward. intros [p Hp].
  destruct (compute_context_embeddings _ _ _ _) as [rc|]; [|discriminate].
  destruct (compute_item_embeddings _ _ _ _ _) as [ri|]; [|discriminate].
  cbn [mbind result_bind] in Hp.
  match type of Hp with (?user ≫= _) = _ => destruct user as [ru|] end; [|discriminate].
  cbn [mbind result_bind] in Hp.
  destruct (Predictor_predict _ _ _ _) as [pr|] eqn:Hpr; [|discriminate].
  exists rc, ri, ru. repeat split; try done. by eexists.
Qed.

(** A representation without its layer: the attribute is missing. *)
Lemma predict_missing_context (self : DeepFactorizationMachine)
    (i u : option tensor) (tc : tensor) :
  dfm_context self = None → fails (DeepFactorizationMachine_predict self i u (Some tc)).
Proof.
  intros Hnone. unfold DeepFactorizationMachine_predict. rewrite Hnone.
  apply fails_bind. by eexists.
Qed.

Lemma predict_missing_item (self : DeepFactorizationMachine)
    (u c : option tensor) (ti : tensor) :
  dfm_item self = None → fails (DeepFactorizationMachine_predict self (Some ti) u c).
Proof.
  intros Hnone. unfold DeepFactorizationMachine_predict. rewrite Hnone.
  apply fails_bind_inv; intros lv _. apply fails_bind. by eexists.
Qed.

Lemma predict_missing_user (self : DeepFactorizationMachine)
    (i c : option tensor) (tu : tensor) :
  dfm_user self = None → fails (DeepFactorizationMachine_predict self i (Some tu) c).
Proof.
  intros Hnone. unfold DeepFactorizationMachine_predict. rewrite Hnone.
  do 2 (apply fails_bind_inv; intros ? _). apply fails_bind. by eexists.
Qed.

(** X4.  What a factorization-machine model needs for [forward] to
    return, whatever the inputs: context features (numerical content or
    buys and visits) switched on together with [context_embeddings];
    for item features (item embeddings or text) also user embeddings
    and an order of at most two; and for user embeddings
    [use_normalize] and a positive number of factors. *)
Theorem ContextualBandit_forward_factorization_machine_needs {X : Type}
    (a : ContextualBandit_args) (cb : ContextualBandit)
    (user_ids : list nat) (content : item_content) (v1 v2 v3 v4 : X) :
  ContextualBandit_init a = Ok cb →
  predictor a = "factorization_machine" →
  succeeds (ContextualBandit_forward cb user_ids content v1 v2 v3 v4) →
  (use_numerical_content a = true ∨ use_buys_visits a = true)
  ∧ context_embeddings a = true
  ∧ (item_embeddings a = true ∨ use_textual_content a = true →
     user_embeddings a = true ∧ fm_order a ≤ 2)
  ∧ (user_embeddings a = true → use_normalize a = true ∧ 0 < n_factors a).
Proof.
  intros Hinit Hpred Hok.
  destruct (init_Ok_flags a cb Hinit) as (Eu & Ei & Enum & Etext & Enorm & Ebv).
  destruct (init_Ok_cb a cb Hinit) as (cdim & pred & Hcdim & Hcb & _ & _ & Hdisp).
  assert (cb_predictor cb = pred) as Epred by (by rewrite Hcb).
  destruct Hdisp as [[Hlr _] | [_ (m & -> & Hm)]]; [congruence|].
  destruct (forward_Ok_inv _ _ _ _ _ _ _ Hok) as (rc & ri & ru & Hrc & Hri & Hru & Hp).
  rewrite Epred in Hp. cbn [Predictor_predict] in Hp.
  assert (succeeds (DeepFactorizationMachine_predict m ri ru rc)) as Hpm.
  { destruct (DeepFactorizationMachine_predict m ri ru rc); [by eexists|].
    by destruct Hp as [? [=]]. }
  clear Hp. pose proof (succeeds_not_fails _ Hpm) as Hnf.
  apply compute_context_embeddings_present in Hrc. rewrite Enum, Ebv in Hrc.
  apply compute_item_embeddings_present in Hri. rewrite Etext, Ei in Hri.
  assert (is_Some ru ↔ user_embeddings a = true) as Hu.
  { rewrite Eu in Hru. destruct (user_embeddings a).
    - destruct (compute_user_embeddings cb user_ids); [|discriminate].
      injection Hru as <-. split; [done | by eexists].
    - injection Hru as <-. split; [by intros [? [=]] | done]. }
  assert (joinable ri ru rc) as [Hc Hiu].
  { destruct (decide (is_Some rc ∧ (is_Some ri → is_Some ru))) as [|Hnot]; [done|].
    destruct Hnf. by apply predict_needs_joinable. }
  destruct Hc as [tc ->].
  destruct (DeepFactorizationMachine_init_Ok _ _ _ _ _ _ _ _ Hm) as [(s & _ & Em) _].
  split; [|split; [|split]].
  - apply orb_true_iff, Hrc. by eexists.
  - destruct (context_embeddings a) eqn:Hce; [done|]. destruct Hnf.
    apply predict_missing_context. rewrite Em. cbn [dfm_context].
    unfold context_input_dim in Hcdim. rewrite Hce in Hcdim. injection Hcdim as <-.
    by rewrite decide_False by lia.
  - intros Hitem.
    assert (is_Some ri) as Hi.
    { apply Hri. destruct Hitem as [Hie|Ht]; [right|by left].
      rewrite Hie. by eexists. }
    destruct (Hiu Hi) as [tu ->]. split; [apply Hu; by eexists|].
    destruct Hi as [ti ->].
    destruct (decide (fm_order a ≤ 2)) as [|Hgt]; [done|]. destruct Hnf.
    apply predict_order3. rewrite Em. cbn [dfm_order]. lia.
  - intros Hue. destruct (proj2 Hu Hue) as [tu ->]. split.
    + destruct (use_normalize a) eqn:Hnorm; [done|].
      rewrite Eu, Hue in Hru.
      destruct (user_representation_unbound cb user_ids) as [e He];
        [rewrite Eu, Hue; by eexists | by rewrite Enorm|].
      rewrite Eu, Hue in He. congruence.
    + destruct (decide (0 < n_factors a)) as [|Hz]; [done|]. destruct Hnf.
      apply predict_missing_user. rewrite Em. cbn [dfm_user].
      unfold user_input_dim. rewrite Hue. by rewrite decide_False.
Qed.

(** X5.  [forward] of a factorization-machine model without text
    features returns a vector of [B] probabilities, and the four
    trailing arguments untouched, on every batch of [B] known users and
    items, provided the normalisation keeps shapes, the number of
    factors is positive, user embeddings come with [use_normalize], the
    context features are non-empty and as wide as the context dimension
    the constructor counted, and item embeddings come with user
    embeddings and an order of at most two. *)
Theorem ContextualBandit_forward_factorization_machine {X : Type}
    (a : ContextualBandit_args) (cb : ContextualBandit)
    (user_ids : list nat) (content : item_content) (v1 v2 v3 v4 : X) (B : nat) :
  ContextualBandit_init a = Ok cb →
  predictor a = "factorization_machine" →
  use_textual_content a = false →
  keeps_shape F_normalize →
  batch B user_ids content → known_ids a user_ids content →
  0 < n_factors a →
  (user_embeddings a = true → use_normalize a = true) →
  0 < context_width a (ic_info content) →
  context_input_dim a = Some (context_width a (ic_info content)) →
  (item_embeddings a = true → user_embeddings a = true ∧ fm_order a ≤ 2) →
  ∃ v, ContextualBandit_forward cb user_ids content v1 v2 v3 v4
       = Ok (Prob1 v, v1, v2, v3, v4)
       ∧ len v = B.
Proof.
  intros Hinit Hpred Htext Hn Hbatch Hknown Hnf Hnorm Hpos Hwidth Hitem.
  destruct (representations_shaped a cb user_ids content B)
    as (rc & ri & ru & Hrc & Hri & Hru & Sc & Si & Su); [done..|].
  destruct (init_Ok_cb a cb Hinit) as (cdim & pred & Hcdim & Hcb & _ & _ & Hdisp).
  assert (cb_predictor cb = pred) as Epred by (by rewrite Hcb).
  destruct Hdisp as [[Hlr _] | [_ (m & -> & Hm)]]; [congruence|].
  rewrite Hwidth in Hcdim. injection Hcdim as <-.
  unfold ContextualBandit_forward. rewrite Hrc, Hri. cbn [mbind result_bind].
  rewrite Hru, Epred. cbn [mbind result_bind Predictor_predict].
  destruct (predict_sized _ _ _ _ _ B _ _ m ri ru rc Hm) as (v & -> & Hv).
  - destruct rc as [tc|]; [by destruct Sc|].
    simpl in Sc. unfold context_width in Hpos.
    apply orb_false_iff in Sc as [Hnum Hbv]. rewrite Hnum, Hbv in Hpos. simpl in Hpos. lia.
  - unfold item_input_dim. rewrite Htext, Nat.add_0_r.
    destruct ri as [ti|]; simpl in Si.
    + destruct Si as [-> Si]. by split.
    + by rewrite Si.
  - unfold user_input_dim. destruct ru as [tu|]; simpl in Su.
    + destruct Su as [-> Su]. by split.
    + by rewrite Su.
  - split.
    + destruct rc as [tc|]; [by eexists|].
      simpl in Sc. unfold context_width in Hpos.
      apply orb_false_iff in Sc as [Hnum Hbv]. rewrite Hnum, Hbv in Hpos.
      simpl in Hpos. lia.
    + intros [ti ->]. destruct Si as [Hie _]. destruct (Hitem Hie) as [Hue _].
      destruct ru as [tu|]; [by eexists|]. simpl in Su. congruence.
  - intros [ti ->]. destruct Si as [Hie _]. by destruct (Hitem Hie).
  - cbn [fmap result_fmap mbind result_bind]. by exists v.
Qed.

End ForwardMachine.

(** The sample model with a factorization machine of order one. *)
Lemma ContextualBandit_forward_factorization_machine_witness :
  ∃ cb v, @ContextualBandit_init rational_torch
            (sample_args "factorization_machine" true [64; 32]) = Ok cb
          ∧ @ContextualBandit_forward rational_torch unit cb [0; 1]
              sample_content () () () () = Ok (Prob1 v, (), (), (), ())
          ∧ len v = 2.
Proof.
  eexists.
  destruct (@ContextualBandit_forward_factorization_machine rational_torch unit
              (sample_args "factorization_machine" true [64; 32]) _ [0; 1]
              sample_content () () () () 2 eq_refl eq_refl eq_refl
              rational_torch_keeps_shape) as (v & Hv & Hlen).
  - by repeat split.
  - split; repeat constructor.
  - simpl. lia.
  - done.
  - unfold context_width. simpl. lia.
  - reflexivity.
  - intros _. split; [done | simpl; lia].
  - exists v. split; [reflexivity|]. by split.
Defined.

(** What the sample model satisfies, read off a successful [forward]. *)
Lemma ContextualBandit_forward_factorization_machine_needs_witness :
  context_embeddings (sample_args "factorization_machine" true [64; 32]) = true
  ∧ fm_order (sample_args "factorization_machine" true [64; 32]) ≤ 2.
Proof.
  destruct (@ContextualBandit_forward_factorization_machine_needs rational_torch unit
              (sample_args "factorization_machine" true [64; 32]) _ [0; 1]
              sample_content () () () () eq_refl eq_refl) as (_ & Hce & Hitem & _).
  - eexists. reflexivity.
  - split; [exact Hce|]. apply Hitem. by left.
Defined.

(** ** What [_prepare_for_agent] needs, and the arms it hands out *)

Section PrepareArms.
Variable ITEM_METADATA_KEY : string.
Variable self : SupervisedModelTraining.

Lemma _prepare_for_agent_Ok_inv (agent : BanditAgent) (obs : list observation)
    (st st' : State) (ctxs : list contexts) (idxs : list (list nat))
    (scores : list (list Q)) :
  _prepare_for_agent ITEM_METADATA_KEY self agent obs st = Ok ((ctxs, idxs, scores), st') →
  (∃ ob0, head obs = Some ob0 ∧ is_Some (ob0 !! ITEM_METADATA_KEY))
  ∧ ∃ arrays, get_all_arm_indices self obs st = Ok (arrays, st')
              ∧ length arrays = length obs
              ∧ idxs = read_arm_array st' <$> arrays.
Proof.
  unfold _prepare_for_agent.
  destruct (get_all_arm_indices self obs st) as [[arrays st1]|] eqn:Harms;
    cbn [mbind result_bind]; [|intros [=]].
  destruct (pd_concat _) as [all|]; cbn [mbind result_bind]; [|intros [=]].
  destruct obs as [|ob0 obs]; cbn [mbind result_bind]; [intros [=]|].
  unfold getitem. destruct (ob0 !! ITEM_METADATA_KEY) as [meta|] eqn:Hmeta;
    cbn [mbind result_bind]; [|intros [=]].
  intros Hrest.
  assert (st' = st1 ∧ idxs = read_arm_array st1 <$> arrays) as [-> ->].
  { destruct (reward_model (bandit agent)); cbn [mbind result_bind] in Hrest.
    - destruct (_get_arm_scores _ _); cbn [mbind result_bind] in Hrest; [|discriminate].
      by injection Hrest as _ <- _ <-.
    - by injection Hrest as _ <- _ <-. }
  split; [exists ob0; split; [done | by eexists]|].
  exists arrays. split; [done|]. split; [|done].
  clear Hrest Hmeta. revert Harms. generalize (ob0 :: obs). clear.
  intros obs. revert st arrays. induction obs as [|ob obs IH]; intros st arrays; simpl.
  - by intros [= <- _].
  - destruct (_get_arm_indices self ob st) as [[a st2]|]; simpl; [|intros [=]].
    destruct (get_all_arm_indices self obs st2) as [[rest st3]|] eqn:Hrest; simpl;
      [|intros [=]].
    intros [= <- <-]. simpl. f_equal. by eapply IH.
Qed.

(** Every array is the view on the cache when there is no column of
    available arms. *)
Lemma get_all_arm_indices_view (obs : list observation) (st st' : State)
    (arrays : list arm_array) :
  arms_column (project_config self) = None →
  cache_inv self st →
  get_all_arm_indices self obs st = Ok (arrays, st') →
  arrays = replicate (length obs) UniqueItemsView ∧ cache_inv self st'
  ∧ (is_Some (_unique_items st) ∨ obs ≠ [] → is_Some (_unique_items st')).
Proof.
  intros Hc. revert st arrays. induction obs as [|ob obs IH]; intros st arrays Hinv; simpl.
  - intros [= <- <-]. repeat split; [done|]. by intros [?|?].
  - destruct (_get_arm_indices self ob st) as [[a st1]|] eqn:Hcall; simpl; [|intros [=]].
    destruct (get_all_arm_indices self obs st1) as [[rest st2]|] eqn:Hrest; simpl;
      [|intros [=]].
    intros [= <- <-].
    destruct (_get_arm_indices_view_inv self ob st st1 a Hc Hinv Hcall)
      as (-> & items & u & Hitems & Hcache & Hperm & Hdrop).
    assert (cache_inv self st1) as Hinv1.
    { intros u' Hu'. rewrite Hcache in Hu'. simplify_eq. by exists items. }
    destruct (IH st1 rest Hinv1 Hrest) as (-> & Hinv2 & Hsome).
    repeat split; [done|]. intros _. apply Hsome. left. rewrite Hcache. by eexists.
Qed.

(** With a column of available arms the cache is left alone and every
    observation is read. *)
Lemma get_all_arm_indices_arms (obs : list observation) (st st' : State)
    (arrays : list arm_array) (c : string) :
  arms_column (project_config self) = Some c →
  get_all_arm_indices self obs st = Ok (arrays, st') →
  _unique_items st' = _unique_items st
  ∧ Forall (fun ob : observation =>
              ∃ v idx, ob !! c = Some v ∧ np_flatnonzero v = Ok idx) obs
  ∧ Forall2 (fun (ob : observation) a =>
               ∃ v idx l, ob !! c = Some v ∧ np_flatnonzero v = Ok idx
                          ∧ a = Owned l ∧ l ≡ₚ idx) obs arrays.
Proof.
  intros Hc. revert st arrays. induction obs as [|ob obs IH]; intros st arrays; simpl.
  - intros [= <- <-]. by repeat constructor.
  - destruct (_get_arm_indices self ob st) as [[a st1]|] eqn:Hcall; simpl; [|intros [=]].
    destruct (get_all_arm_indices self obs st1) as [[rest st2]|] eqn:Hrest; simpl;
      [|intros [=]].
    intros [= <- <-].
    destruct (_get_arm_indices_arms_inv self ob st st1 c a Hc Hcall)
      as (v & idx & Hv & Hidx & -> & Hcache).
    destruct (IH st1 rest Hrest) as (Hcache' & Hall & Hall2).
    split; [congruence|]. split.
    + constructor; [by exists v, idx | done].
    + constructor; [|done]. exists v, idx, (random_shuffle idx (random_state st)).1.
      repeat split; try done. apply random_shuffle_Permutation.
Qed.

(** X6.  Without a column of available arms every call of
    [_get_arm_indices] returns a view on the same cached array and
    shuffles that array in place.  So the arm lists [_prepare_for_agent]
    returns are all one list: the first hundred unique training items in
    the order the last shuffle left them, which is also what the cache
    holds afterwards. *)
Theorem _prepare_for_agent_shared_arms (agent : BanditAgent) (obs : list observation)
    (st st' : State) (ctxs : list contexts) (idxs : list (list nat))
    (scores : list (list Q)) :
  arms_column (project_config self) = None →
  reachable self st →
  _prepare_for_agent ITEM_METADATA_KEY self agent obs st = Ok ((ctxs, idxs, scores), st') →
  ∃ items arms,
    training_items self = Ok items
    ∧ arms ≡ₚ take 100 (unique items)
    ∧ idxs = replicate (length obs) arms
    ∧ _unique_items st' = Some (arms ++ drop 100 (unique items)).
Proof.
  intros Hc Hreach Hprep. apply reachable_cache_inv in Hreach.
  destruct (_prepare_for_agent_Ok_inv _ _ _ _ _ _ _ Hprep)
    as ((ob0 & Hhead & _) & arrays & Hget & _ & ->).
  destruct (get_all_arm_indices_view obs st st' arrays Hc Hreach Hget)
    as (-> & Hinv & Hsome).
  destruct Hsome as [u Hu]; [right; by destruct obs|].
  destruct (Hinv u Hu) as (items & Hitems & Hperm & Hdrop).
  exists items, (take 100 u). split; [done|]. split; [done|]. split.
  - rewrite fmap_replicate. simpl. by rewrite Hu.
  - by rewrite <- Hdrop, take_drop.
Qed.

(** With a column of available arms, an observation without a cell
    under it stops the loop over the observations. *)
Lemma get_all_arm_indices_KeyError (obs : list observation) (st : State) (c : string) :
  arms_column (project_config self) = Some c →
  Exists (fun ob : observation => ob !! c = None) obs →
  get_all_arm_indices self obs st = Raise KeyError.
Proof.
  intros Hc. revert st. induction obs as [|ob obs IH]; intros st Hex.
  - by apply Exists_nil in Hex.
  - cbn [get_all_arm_indices]. destruct (ob !! c) as [v|] eqn:Hv.
    + destruct (np_flatnonzero_total v) as (idx & Hidx & _).
      rewrite (_get_arm_indices_arms self ob st c v idx Hc Hv Hidx).
      cbn [mbind result_bind].
      apply Exists_cons in Hex as [Hob|Hex]; [congruence|].
      by rewrite IH.
    + unfold _get_arm_indices, getitem. by rewrite Hc, Hv.
Qed.

(** X8.  [_prepare_for_agent] returns only for a non-empty list of
    observations whose first element carries the item metadata; with a
    column of available arms every observation must have a cell under
    it, whatever the cell holds, or the call raises [KeyError], and the
    cache of unique items is left as it was; the cached test data frame
    is never touched.  On the empty list it raises the [ValueError] of
    [pd.concat]. *)
Theorem _prepare_for_agent_needs (agent : BanditAgent) (st : State) :
  (∀ obs st' r,
     _prepare_for_agent ITEM_METADATA_KEY self agent obs st = Ok (r, st') →
     (∃ ob0, head obs = Some ob0 ∧ is_Some (ob0 !! ITEM_METADATA_KEY))
     ∧ (∀ c, arms_column (project_config self) = Some c →
          Forall (fun ob : observation => is_Some (ob !! c)) obs
          ∧ _unique_items st' = _unique_items st)
     ∧ _test_data_frame st' = _test_data_frame st)
  ∧ (∀ obs c, arms_column (project_config self) = Some c →
       Exists (fun ob : observation => ob !! c = None) obs →
       _prepare_for_agent ITEM_METADATA_KEY self agent obs st = Raise KeyError)
  ∧ _prepare_for_agent ITEM_METADATA_KEY self agent [] st = Raise ValueError.
Proof.
  split; [|split; [|done]].
  - intros obs st' [[ctxs idxs] scores] Hprep.
    destruct (_prepare_for_agent_Ok_inv _ _ _ _ _ _ _ Hprep)
      as (Hhead & arrays & Hget & _ & _).
    split; [done|]. split.
    + intros c Hc.
      destruct (get_all_arm_indices_arms obs st st' arrays c Hc Hget) as (? & Hall & _).
      split; [|done]. eapply Forall_impl; [exact Hall|].
      intros ob (v & _ & Hv & _). by exists v.
    + by eapply get_all_arm_indices_frame.
  - intros obs c Hc Hex. unfold _prepare_for_agent.
    by rewrite (get_all_arm_indices_KeyError obs st c Hc Hex).
Qed.


End PrepareArms.

(** Two observations of a project without a column of available arms:
    both get the same three items, in the same order. *)
Lemma _prepare_for_agent_shared_arms_witness :
  ∃ ctxs arms scores st',
    _prepare_for_agent "item_metadata" (sample_task None) sample_agent
      [ <["item_metadata" := VNone]> (sample_row 0 4 13 1 []);
        <["item_metadata" := VNone]> (sample_row 1 3 14 0 []) ]
      sample_state
    = Ok ((ctxs, [arms; arms], scores), st')
    ∧ arms ≡ₚ [2; 4; 1].
Proof.
  assert (∃ ctxs idxs scores st',
            _prepare_for_agent "item_metadata" (sample_task None) sample_agent
              [ <["item_metadata" := VNone]> (sample_row 0 4 13 1 []);
                <["item_metadata" := VNone]> (sample_row 1 3 14 0 []) ]
              sample_state
            = Ok ((ctxs, idxs, scores), st')) as (ctxs & idxs & scores & st' & Hprep)
    by (eexists _, _, _, _; reflexivity).
  destruct (_prepare_for_agent_shared_arms "item_metadata" (sample_task None) sample_agent
              _ _ _ _ _ _ eq_refl (reachable_init _ _ _) Hprep)
    as (items & arms & Hitems & Hperm & Hidxs & _).
  injection Hitems as <-. exists ctxs, arms, scores, st'. by rewrite Hprep, Hidxs.
Defined.



(** On two prepared observations of the sample project the cache of
    unique items stays empty. *)
Lemma _prepare_for_agent_needs_witness :
  ∃ r st',
    _prepare_for_agent "item_metadata" (sample_task (Some "arms")) sample_agent
      [ <["item_metadata" := VNone]> (sample_row 0 4 13 1 [0; 1; 0; 1; 1]);
        <["item_metadata" := VNone]> (sample_row 1 3 14 0 [0; 0; 0; 1]) ]
      sample_state
    = Ok (r, st')
    ∧ _unique_items st' = None.
Proof.
  assert (∃ r st',
            _prepare_for_agent "item_metadata" (sample_task (Some "arms")) sample_agent
              [ <["item_metadata" := VNone]> (sample_row 0 4 13 1 [0; 1; 0; 1; 1]);
                <["item_metadata" := VNone]> (sample_row 1 3 14 0 [0; 0; 0; 1]) ]
              sample_state
            = Ok (r, st')) as (r & st' & Hprep)
    by (eexists _, _; reflexivity).
  exists r, st'. split; [done|].
  destruct (proj1 (_prepare_for_agent_needs "item_metadata" (sample_task (Some "arms"))
                     sample_agent sample_state) _ _ _ Hprep) as (_ & Harms & _).
  by destruct (Harms "arms" eq_refl) as [_ ->].
Defined.

(** ** Before and after [train] *)

Lemma makedirs_foldM_Dir (ps : list path) (f f' : filesystem) :
  foldM (fun f q => match f !! q with
                    | Some (File _) => Raise OSError
                    | _ => Ok (<[q := Dir]> f)
                    end) f ps = Ok f' →
  (∀ q, q ∈ ps → f' !! q = Some Dir)
  ∧ (∀ q, q ∉ ps → f' !! q = f !! q).
Proof.
  revert f. induction ps as [|p ps IH]; intros f; simpl.
  - intros [= <-]. split; [by intros q ?%elem_of_nil | done].
  - destruct (f !! p) as [[|content]|] eqn:Hp; simpl; [|intros [=]|];
      intros [Hin Hout]%IH; (split;
        [ intros q [->|Hq]%elem_of_cons; [|by apply Hin];
          destruct (decide (p ∈ ps)); [by apply Hin|];
          by rewrite Hout, lookup_insert_eq
        | intros q [Hne Hq]%not_elem_of_cons; rewrite Hout by done;
          by rewrite lookup_insert_ne ]).
Qed.

Lemma makedirs_Dir (p : path) (f f' : filesystem) :
  makedirs p f = Ok f' → p ≠ [] → f' !! p = Some Dir.
Proof.
  unfold makedirs. intros [Hin _]%makedirs_foldM_Dir Hne. apply Hin.
  apply list_elem_of_fmap. exists (length p). split; [by rewrite firstn_all|].
  apply elem_of_seq. destruct p; [done|]. simpl. lia.
Qed.

Lemma write_file_Ok (p : path) (content : string) (f f' : filesystem) :
  write_file p content f = Ok f' →
  f !! removelast p = Some Dir ∧ f' = <[p := File content]> f.
Proof.
  unfold write_file. destruct (f !! removelast p) as [[|?]|]; [|intros [=]..].
  destruct (f !! p) as [[|?]|]; [intros [=]|intros [= <-]..]; by split.
Qed.

Section RunFacts.
Variable self : TrainingTask.

Lemma _save_params_Ok (w w1 : World) :
  _save_params self w = (Ok (), w1) →
  fs w !! output_path self = Some Dir
  ∧ fs w1 = <[output_path self ++ [params_file self] := File (params_json self)]> (fs w)
  ∧ cuda_available w1 = cuda_available w ∧ seeded w1 = seeded w
  ∧ mlflow_log w1 = mlflow_log w.
Proof.
  unfold _save_params.
  destruct (write_file _ _ _) as [f|] eqn:Hw; [|intros [=]].
  intros [= <-]. apply write_file_Ok in Hw as [Hdir ->].
  by rewrite removelast_last in Hdir.
Qed.

Lemma makedirs_prologue (w : World) (f : filesystem) :
  makedirs (output_path self) (fs w) = Ok f →
  (∀ n, 0 < n ≤ length (output_path self) → f !! take n (output_path self) = Some Dir)
  ∧ (∀ q, ¬ q `prefix_of` output_path self → f !! q = fs w !! q).
Proof.
  unfold makedirs. intros [Hin Hout]%makedirs_foldM_Dir. split.
  - intros n Hn. apply Hin, list_elem_of_fmap. exists n. split; [done|].
    apply elem_of_seq. lia.
  - intros q Hq. apply Hout. intros (n & -> & _)%list_elem_of_fmap.
    apply Hq. apply prefix_take.
Qed.

Lemma foldl_log_mlflow (w : World) (events : list mlflow_event) :
  fs (foldl log_mlflow w events) = fs w
  ∧ cuda_available (foldl log_mlflow w events) = cuda_available w
  ∧ seeded (foldl log_mlflow w events) = seeded w
  ∧ mlflow_log (foldl log_mlflow w events) = mlflow_log w ++ events.
Proof.
  revert w. induction events as [|e events IH]; intros w; simpl.
  - by rewrite app_nil_r.
  - destruct (IH (log_mlflow w e)) as (-> & -> & -> & ->). simpl.
    by rewrite <- app_assoc.
Qed.

(** X10.  What [train] finds when [run] enters it: the seed installed,
    every directory on the way to the output directory in place, the
    parameter file written into it, every other file and the device
    pool as before; the older task class has also opened its mlflow run
    and logged one parameter per entry of [param_kwargs], in order. *)
Theorem run_prologue (w w1 : World) :
  (_BaseModelTraining_prologue self w = (Ok (), w1) →
     seeded w1 = Some (seed self)
     ∧ fs w1 !! output_path self = Some Dir
     ∧ (∀ n, 0 < n ≤ length (output_path self) →
          fs w1 !! take n (output_path self) = Some Dir)
     ∧ fs w1 !! (output_path self ++ [params_file self]) = Some (File (params_json self))
     ∧ (∀ q, ¬ q `prefix_of` output_path self →
          q ≠ output_path self ++ [params_file self] → fs w1 !! q = fs w !! q)
     ∧ cuda_available w1 = cuda_available w)
  ∧ (BaseModelTraining_prologue self w = (Ok (), w1) →
     seeded w1 = Some (seed self)
     ∧ fs w1 !! output_path self = Some Dir
     ∧ fs w1 !! (output_path self ++ [params_file self]) = Some (File (params_json self))
     ∧ mlflow_log w1
       = mlflow_log w ++ [SetExperiment (task_class_name self); StartRun (task_id self)]
           ++ ((fun kv => LogParam kv.1) <$> param_kwargs self)).
Proof.
  assert (Hne : ∀ n, take n (output_path self) ≠ output_path self ++ [params_file self]).
  { intros n Heq. apply (f_equal length) in Heq.
    rewrite length_take, length_app in Heq. simpl in Heq. lia. }
  split.
  - unfold _BaseModelTraining_prologue. simpl.
    destruct (makedirs _ _) as [f|] eqn:Hmk; [|intros [=]].
    intros Hsave. apply _save_params_Ok in Hsave as (Hdir & Hfs & Hcuda & Hseed & _).
    simpl in *.
    apply (makedirs_prologue (seed_everything self w)) in Hmk as [Hin Hout].
    rewrite Hfs. split; [done|]. split; [|split; [|split; [|split]]].
    + rewrite lookup_insert_ne; [done|]. intros Heq. apply (Hne (length (output_path self))).
      by rewrite firstn_all.
    + intros n Hn. rewrite lookup_insert_ne by (intros Heq; by apply (Hne n)).
      by apply Hin.
    + by rewrite lookup_insert_eq.
    + intros q Hq Hq'. rewrite lookup_insert_ne by done. by rewrite Hout.
    + done.
  - unfold BaseModelTraining_prologue, BaseModelTraining_save_params. simpl.
    destruct (makedirs _ _) as [f|] eqn:Hmk; [|intros [=]].
    destruct (_save_params self _) as [[[]|e] w2] eqn:Hsave; [|intros [=]].
    apply _save_params_Ok in Hsave as (Hdir & Hfs & Hcuda & Hseed & Hlog). simpl in *.
    intros [= <-].
    rewrite <- (foldl_fmap log_mlflow _ _ (fun kv : string * string => LogParam kv.1)).
    destruct (foldl_log_mlflow w2 ((fun kv => LogParam kv.1) <$> param_kwargs self))
      as (-> & _ & -> & ->).
    rewrite Hfs, Hseed, Hlog. split; [done|]. split; [|split].
    + rewrite lookup_insert_ne; [done|]. intros Heq. apply (Hne (length (output_path self))).
      by rewrite firstn_all.
    + by rewrite lookup_insert_eq.
    + by rewrite <- !app_assoc.
Qed.

End RunFacts.

(** The sample task on an empty disk. *)
Lemma run_prologue_witness :
  fs (_BaseModelTraining_prologue (sample_training (Ok ())) empty_world).2
    !! ["output"; "models"] = Some Dir.
Proof.
  destruct (proj1 (run_prologue (sample_training (Ok ())) empty_world
                     (_BaseModelTraining_prologue (sample_training (Ok ()))
                        empty_world).2) eq_refl) as (_ & _ & Hdirs & _).
  apply (Hdirs 2). simpl. lia.
Defined.

(** ** The index mapping and the cached data frames *)

Section IndexingFacts.
Import Indexing.
Context `{Utils}.

Lemma set_index_mapping_twice (m m' : Mapping) (s : Task) :
  set_index_mapping m' (set_index_mapping m s) = set_index_mapping m' s.
Proof. reflexivity. Qed.

Lemma share_index_eq (column : Column) (s : Task) (m : Mapping) :
  _index_mapping s = Some m →
  share_index column s
  = match shares_index column with
    | None => (Ok (), s)
    | Some other =>
        match dict_get m other with
        | Ok d => (Ok (), set_index_mapping (dict_set (name column) d m) s)
        | Raise e => (Raise e, s)
        end
    end.
Proof. intros Hm. unfold share_index. by rewrite Hm. Qed.

Lemma share_all_cons (column : Column) (columns : list Column) (m : Mapping) :
  share_all (column :: columns) m
  = match shares_index column with
    | None => share_all columns m
    | Some other =>
        d ← dict_get m other; share_all columns (dict_set (name column) d m)
    end.
Proof.
  unfold share_all. cbn [foldM]. destruct (shares_index column); [|done].
  by destruct (dict_get m s).
Qed.

Lemma set_index_mapping_same (s : Task) (m : Mapping) :
  _index_mapping s = Some m → set_index_mapping m s = s.
Proof. destruct s; simpl; by intros ->. Qed.

Lemma for_each_share_index (columns : list Column) (s : Task) (m : Mapping) :
  _index_mapping s = Some m →
  match share_all columns m with
  | Ok m' => for_each share_index columns s = (Ok (), set_index_mapping m' s)
  | Raise e => ∃ m', for_each share_index columns s = (Raise e, set_index_mapping m' s)
  end.
Proof.
  revert s m. induction columns as [|column columns IH]; intros s m Hm.
  - simpl. by rewrite set_index_mapping_same.
  - rewrite share_all_cons. cbn [for_each]. unfold bind.
    rewrite (share_index_eq column s m Hm).
    destruct (shares_index column) as [other|].
    + destruct (dict_get m other) as [d|e]; cbn [mbind result_bind].
      * specialize (IH (set_index_mapping (dict_set (name column) d m) s) _ eq_refl).
        destruct (share_all columns _); [by rewrite IH|].
        destruct IH as [m' IH]. exists m'. by rewrite IH.
      * exists m. by rewrite set_index_mapping_same.
    + specialize (IH s m Hm). by destruct (share_all columns m).
Qed.

(** A data frame property that does not go to the index mapping. *)
Lemma data_frame_as_read (depth : nat) (which : split) (s : Task) :
  negb (_creating_index_mapping s) && negb (indexed_attr which s) = false →
  data_frame (S depth) which s = (Ok (loaded_frame which s), load which s).
Proof.
  intros Hskip. cbn [data_frame]. unfold bind, loaded_frame, load, raw.
  destruct (data_frame_attr which s) as [df|] eqn:Hattr.
  - by rewrite Hskip.
  - replace (_creating_index_mapping (set_data_frame which _ s))
      with (_creating_index_mapping s) by done.
    replace (indexed_attr which (set_data_frame which _ s))
      with (indexed_attr which s) by by destruct which.
    by rewrite Hskip.
Qed.

Lemma load_fields (which : split) (s : Task) :
  project_config (load which s) = project_config s
  ∧ disk (load which s) = disk s
  ∧ _creating_index_mapping (load which s) = _creating_index_mapping s
  ∧ _index_mapping (load which s) = _index_mapping s
  ∧ (∀ w, indexed_attr w (load which s) = indexed_attr w s)
  ∧ data_frame_attr which (load which s) = Some (loaded_frame which s)
  ∧ (∀ w, w ≠ which → data_frame_attr w (load which s) = data_frame_attr w s).
Proof.
  unfold load, loaded_frame. destruct (data_frame_attr which s) as [df|] eqn:Hattr.
  - by repeat split.
  - split; [done|]. split; [done|]. split; [done|]. split; [done|].
    split; [intros w; by destruct which, w|].
    split; [by destruct which|]. intros w Hw. by destruct which, w.
Qed.

(** Creating the mapping: the frames it is built from are loaded and
    left as read. *)
Lemma index_mapping_create (s : Task) (depth : nat) (df : DataFrame) :
  _index_mapping s = None →
  index_mapping_file (disk s) = None →
  let loaded := load Val (load Train (set_creating_index_mapping true s)) in
  pd_concat [loaded_frame Train s; loaded_frame Val s] = Ok df →
  index_mapping (2 + depth) s
  = match mapping_of_type INDEXABLE create_index_mapping (project_config s) df with
    | Raise e => (Raise e, loaded)
    | Ok m =>
        match mapping_of_type INDEXABLE_ARRAY create_index_mapping_from_arrays
                (project_config s) df with
        | Raise e => (Raise e, set_index_mapping m loaded)
        | Ok arrays =>
            match for_each share_index (all_columns (project_config s))
                    (set_index_mapping (dict_update m arrays) loaded) with
            | (Raise e, s) => (Raise e, s)
            | (Ok _, s) =>
                match pickle_dump (default [] (_index_mapping s)) s with
                | (Raise e, s) => (Raise e, s)
                | (Ok _, s) =>
                    (Ok (default [] (_index_mapping s)),
                     set_creating_index_mapping false s)
                end
            end
        end
    end.
Proof.
  intros Hattr Hfile loaded Hdf.
  change (2 + depth) with (S (S depth)). cbn [index_mapping].
  rewrite Hattr, Hfile. unfold bind at 1. cbn [modify].
  unfold bind at 1. rewrite data_frame_as_read by done.
  destruct (load_fields Train (set_creating_index_mapping true s))
    as (Hcfg1 & Hdisk1 & Hflag1 & _ & _ & _ & Hother1).
  destruct (load_fields Val (load Train (set_creating_index_mapping true s)))
    as (Hcfg2 & _).
  unfold bind at 1. rewrite data_frame_as_read by by rewrite Hflag1.
  unfold bind at 1, lift.
  replace (loaded_frame Train (set_creating_index_mapping true s))
    with (loaded_frame Train s) by done.
  replace (loaded_frame Val (load Train (set_creating_index_mapping true s)))
    with (loaded_frame Val s)
    by (unfold loaded_frame; by rewrite Hcfg1, Hdisk1, Hother1).
  rewrite Hdf. fold loaded.
  assert (project_config loaded = project_config s) as Hcfg
    by (unfold loaded; by rewrite Hcfg2, Hcfg1).
  unfold bind at 1. cbv beta. rewrite Hcfg.
  destruct (mapping_of_type INDEXABLE _ _ df) as [m|e]; [|done].
  unfold bind at 1. cbn [modify]. unfold bind at 1. cbv beta.
  replace (project_config (set_index_mapping m loaded)) with (project_config s)
    by done.
  destruct (mapping_of_type INDEXABLE_ARRAY _ _ df) as [arrays|e]; [|done].
  unfold bind at 1. cbn [modify]. unfold bind at 1. cbv beta.
  rewrite set_index_mapping_twice.
  replace (project_config (set_index_mapping (dict_update m arrays) loaded))
    with (project_config s) by done.
  destruct (for_each _ _ _) as [[[]|e] s1]; [|done].
  unfold bind at 1.
  destruct (pickle_dump _ s1) as [[[]|e] s2]; [|done].
  reflexivity.
Qed.

(** The state in which a successful creation leaves the task. *)
Lemma index_mapping_built (s : Task) (depth : nat) (df : DataFrame) (m : Mapping) :
  _index_mapping s = None →
  index_mapping_file (disk s) = None →
  output_dir (disk s) = true →
  pd_concat [loaded_frame Train s; loaded_frame Val s] = Ok df →
  built_mapping (project_config s) df = Ok m →
  index_mapping (2 + depth) s
  = (Ok m,
     set_creating_index_mapping false
       (set_disk (mkDisk (train_csv (disk s)) (val_csv (disk s)) (test_csv (disk s))
                    true (Some m))
          (set_index_mapping m
             (load Val (load Train (set_creating_index_mapping true s)))))).
Proof.
  intros Hattr Hfile Hdir Hdf Hm. rewrite (index_mapping_create s depth df) by done.
  unfold built_mapping in Hm.
  destruct (mapping_of_type INDEXABLE _ _ df) as [m1|]; [|discriminate].
  destruct (mapping_of_type INDEXABLE_ARRAY _ _ df) as [m2|]; [|discriminate].
  cbn [mbind result_bind] in Hm.
  set (loaded := load Val (load Train (set_creating_index_mapping true s))).
  pose proof (for_each_share_index (all_columns (project_config s))
                (set_index_mapping (dict_update m1 m2) loaded) _ eq_refl) as Hshare.
  rewrite Hm in Hshare. rewrite Hshare, set_index_mapping_twice.
  destruct (load_fields Train (set_creating_index_mapping true s)) as (_ & Hdisk1 & _).
  destruct (load_fields Val (load Train (set_creating_index_mapping true s)))
    as (_ & Hdisk2 & _).
  unfold pickle_dump.
  assert (disk loaded = disk s) as Hdisk by (unfold loaded; by rewrite Hdisk2, Hdisk1).
  change (disk (set_index_mapping m loaded)) with (disk loaded).
  by rewrite !Hdisk, Hdir.
Qed.

(** The state in which a creation that raises leaves the task: the
    flag stays. *)
Lemma index_mapping_raises (s : Task) (depth : nat) (df : DataFrame) :
  _index_mapping s = None →
  index_mapping_file (disk s) = None →
  pd_concat [loaded_frame Train s; loaded_frame Val s] = Ok df →
  (∀ m, built_mapping (project_config s) df = Ok m → output_dir (disk s) = false) →
  ∃ e s1,
    index_mapping (2 + depth) s = (Raise e, s1)
    ∧ (built_mapping (project_config s) df = Raise e
       ∨ e = OSError ∧ ∃ m, built_mapping (project_config s) df = Ok m
                           ∧ _index_mapping s1 = Some m)
    ∧ _creating_index_mapping s1 = true
    ∧ project_config s1 = project_config s ∧ disk s1 = disk s
    ∧ (∀ w, indexed_attr w s1 = indexed_attr w s)
    ∧ (∀ w, data_frame_attr w s1 = if w is Test then data_frame_attr w s
                                   else Some (loaded_frame w s)).
Proof.
  intros Hattr Hfile Hdf Hbuilt. rewrite (index_mapping_create s depth df) by done.
  set (loaded := load Val (load Train (set_creating_index_mapping true s))).
  destruct (load_fields Train (set_creating_index_mapping true s))
    as (Hcfg1 & Hdisk1 & Hflag1 & _ & Hidx1 & Hthis1 & Hother1).
  destruct (load_fields Val (load Train (set_creating_index_mapping true s)))
    as (Hcfg2 & Hdisk2 & Hflag2 & _ & Hidx2 & Hthis2 & Hother2).
  fold loaded in Hcfg2, Hdisk2, Hflag2, Hidx2, Hthis2, Hother2.
  assert (Hframes : ∀ w, data_frame_attr w loaded
                         = if w is Test then data_frame_attr w s
                           else Some (loaded_frame w s)).
  { intros [].
    - by rewrite Hother2, Hthis1.
    - rewrite Hthis2. unfold loaded_frame. by rewrite Hcfg1, Hdisk1, Hother1.
    - by rewrite Hother2, Hother1. }
  assert (Hloaded : ∀ om, let s1 := match om with
                                    | Some m => set_index_mapping m loaded
                                    | None => loaded
                                    end in
            _creating_index_mapping s1 = true
            ∧ project_config s1 = project_config s ∧ disk s1 = disk s
            ∧ (∀ w, indexed_attr w s1 = indexed_attr w s)
            ∧ (∀ w, data_frame_attr w s1 = if w is Test then data_frame_attr w s
                                           else Some (loaded_frame w s))).
  { intros om. assert (∀ w, indexed_attr w loaded = indexed_attr w s) as Hidx
      by (intros w; by rewrite Hidx2, Hidx1).
    destruct om as [m|]; simpl.
    - split; [by rewrite Hflag2, Hflag1|]. split; [by rewrite Hcfg2, Hcfg1|].
      split; [by rewrite Hdisk2, Hdisk1|]. split.
      + intros w. rewrite <- Hidx. by destruct w.
      + intros w. rewrite <- Hframes. by destruct w.
    - split; [by rewrite Hflag2, Hflag1|]. split; [by rewrite Hcfg2, Hcfg1|].
      split; [by rewrite Hdisk2, Hdisk1|]. by split. }
  unfold built_mapping in *.
  destruct (mapping_of_type INDEXABLE _ _ df) as [m1|e1].
  2:{ exists e1, loaded. split; [done|]. split; [by left|]. apply (Hloaded None). }
  destruct (mapping_of_type INDEXABLE_ARRAY _ _ df) as [m2|e2].
  2:{ exists e2, (set_index_mapping m1 loaded). split; [done|]. split; [by left|].
      apply (Hloaded (Some m1)). }
  cbn [mbind result_bind] in *.
  pose proof (for_each_share_index (all_columns (project_config s))
                (set_index_mapping (dict_update m1 m2) loaded) _ eq_refl) as Hshare.
  destruct (share_all _ _) as [m|e].
  - rewrite Hshare, set_index_mapping_twice. unfold pickle_dump.
    change (disk (set_index_mapping m loaded)) with (disk loaded).
    rewrite Hdisk2, Hdisk1. change (disk (set_creating_index_mapping true s)) with (disk s).
    rewrite (Hbuilt m eq_refl).
    exists OSError, (set_index_mapping m loaded). split; [done|].
    split; [right; split; [done|]; by exists m|]. apply (Hloaded (Some m)).
  - destruct Hshare as [m' Hshare]. rewrite Hshare, set_index_mapping_twice.
    exists e, (set_index_mapping m' loaded). split; [done|]. split; [by left|].
    apply (Hloaded (Some m')).
Qed.

(** X11.  The first access to a data frame property on a fresh task
    with no pickled mapping: the mapping is built from the train and
    validation frames as read (before any indexing), cached in the
    task and pickled; the frame asked for is transformed with it and
    flagged as indexed, while the train and validation frames that
    were only loaded for the mapping stay as read and unflagged, and
    the flag [_creating_index_mapping] is gone again. *)
Theorem data_frame_first_access (cfg : ProjectConfig) (d : Disk) (which : split)
    (depth : nat) (df : DataFrame) (m : Mapping) :
  index_mapping_file d = None → output_dir d = true →
  pd_concat [raw Train cfg d; raw Val cfg d] = Ok df →
  built_mapping cfg df = Ok m →
  ∃ s1,
    data_frame (3 + depth) which (new_Task cfg d)
    = (Ok (transform_with_indexing (raw which cfg d) m cfg), s1)
    ∧ _index_mapping s1 = Some m
    ∧ index_mapping_file (disk s1) = Some m
    ∧ _creating_index_mapping s1 = false
    ∧ (∀ w, indexed_attr w s1 = bool_decide (w = which))
    ∧ (∀ w, data_frame_attr w s1
            = if decide (w = which)
              then Some (transform_with_indexing (raw w cfg d) m cfg)
              else if w is Test then None else Some (raw w cfg d)).
Proof.
  intros Hfile Hdir Hdf Hm.
  change (3 + depth) with (S (2 + depth)). cbn [data_frame]. unfold bind at 1.
  cbn [new_Task data_frame_attr _train_data_frame _val_data_frame _test_data_frame].
  assert (data_frame_attr which (new_Task cfg d) = None) as -> by by destruct which.
  cbn [project_config disk new_Task].
  set (s := set_data_frame which _ (new_Task cfg d)).
  assert (negb (_creating_index_mapping s) && negb (indexed_attr which s) = true) as ->
    by by destruct which.
  unfold bind at 1.
  rewrite (index_mapping_built s depth df m); [|done|done|done| |done].
  2:{ by destruct which. }
  subst s. destruct which;
    (eexists; split; [reflexivity|]; cbn; split; [done|]; split; [done|];
     split; [done|]; split; intros w; destruct w; reflexivity).
Qed.


(** X13.  [cache_cleanup] and [clean] delete the cached frames but not
    the flags that say they were indexed.  So a frame that had been
    indexed comes back, at the next access, as read from the disk: the
    index mapping is not applied again, and nothing raises. *)
Theorem data_frame_after_cleanup (depth : nat) (which : split) (s : Task) :
  indexed_attr which s = true →
  data_frame (S depth) which (cache_cleanup s)
  = (Ok (raw which (project_config s) (disk s)),
     set_data_frame which (Some (raw which (project_config s) (disk s)))
       (cache_cleanup s))
  ∧ (which = Train →
     train_data_frame (S depth) (clean s)
     = (Ok (raw Train (project_config s) (disk s)),
        set_data_frame Train (Some (raw Train (project_config s) (disk s))) (clean s))).
Proof.
  intros Hidx. split.
  - rewrite data_frame_as_read.
    + unfold loaded_frame, load. by destruct which.
    + replace (indexed_attr which (cache_cleanup s)) with (indexed_attr which s)
        by by destruct which.
      rewrite Hidx. apply andb_false_r.
  - intros ->. unfold train_data_frame. rewrite data_frame_as_read; [done|].
    replace (indexed_attr Train (clean s)) with (indexed_attr Train s) by done.
    rewrite Hidx. apply andb_false_r.
Qed.

(** X14.  When building the mapping raises, or the mapping cannot be
    pickled because the output directory is missing, the flag
    [_creating_index_mapping] is never deleted.  The access raises;
    from then on every data frame property returns its frame as read,
    never index-transformed, without raising; and after a failed
    pickling [index_mapping] serves the mapping that never reached the
    disk. *)
Theorem data_frame_after_failed_indexing (cfg : ProjectConfig) (d : Disk)
    (which : split) (depth : nat) (df : DataFrame) :
  index_mapping_file d = None →
  pd_concat [raw Train cfg d; raw Val cfg d] = Ok df →
  (∀ m, built_mapping cfg df = Ok m → output_dir d = false) →
  ∃ e s1,
    data_frame (3 + depth) which (new_Task cfg d) = (Raise e, s1)
    ∧ (built_mapping cfg df = Raise e
       ∨ e = OSError
         ∧ ∃ m, built_mapping cfg df = Ok m
                ∧ index_mapping_file (disk s1) = None
                ∧ ∀ depth', index_mapping (S depth') s1 = (Ok m, s1))
    ∧ _creating_index_mapping s1 = true
    ∧ ∀ w depth', ∃ s2,
        data_frame (S depth') w s1 = (Ok (raw w cfg d), s2)
        ∧ _creating_index_mapping s2 = true.
Proof.
  intros Hfile Hdf Hbuilt.
  set (s := set_data_frame which (Some (raw which cfg d)) (new_Task cfg d)).
  destruct (index_mapping_raises s depth df)
    as (e & s1 & Hcall & Hwhy & Hflag & Hcfg & Hdisk & Hidx & Hframes);
    [done|done|by destruct which|done|].
  exists e, s1. split; [|split; [|split; [done|]]].
  - change (3 + depth) with (S (2 + depth)). cbn [data_frame]. unfold bind at 1.
    assert (data_frame_attr which (new_Task cfg d) = None) as -> by by destruct which.
    cbn [project_config disk new_Task]. fold (raw which cfg d). fold s.
    assert (negb (_creating_index_mapping s) && negb (indexed_attr which s) = true) as ->
      by by destruct which.
    unfold bind at 1. by rewrite Hcall.
  - destruct Hwhy as [?|(-> & m & Hm & Hattr)]; [by left|right].
    split; [done|]. exists m. split; [done|]. split; [by rewrite Hdisk|].
    intros depth'. cbn [index_mapping]. by rewrite Hattr.
  - intros w depth'. rewrite data_frame_as_read by by rewrite Hflag.
    destruct (load_fields w s1) as (_ & _ & Hflag' & _).
    eexists. split; [|by rewrite Hflag'].
    f_equal. unfold loaded_frame. rewrite Hframes, Hcfg, Hdisk.
    subst s. by destruct w, which.
Qed.

(** X15.  A pickled mapping is trusted as it is: on a fresh task with a
    mapping file, every data frame property transforms its frame with
    the mapping from the file, whatever the train and validation data
    are now; no other frame is read, nothing is rebuilt, and the file
    is left alone. *)
Theorem data_frame_pickled_mapping (cfg : ProjectConfig) (d : Disk) (which : split)
    (depth : nat) (m : Mapping) :
  index_mapping_file d = Some m →
  ∃ s1,
    data_frame (2 + depth) which (new_Task cfg d)
    = (Ok (transform_with_indexing (raw which cfg d) m cfg), s1)
    ∧ disk s1 = d
    ∧ _index_mapping s1 = Some m
    ∧ (∀ w, w ≠ which → data_frame_attr w s1 = None).
Proof.
  intros Hfile.
  change (2 + depth) with (S (S depth)). cbn [data_frame]. unfold bind at 1.
  assert (data_frame_attr which (new_Task cfg d) = None) as -> by by destruct which.
  cbn [project_config disk new_Task].
  set (s := set_data_frame which _ (new_Task cfg d)).
  assert (negb (_creating_index_mapping s) && negb (indexed_attr which s) = true) as ->
    by by destruct which.
  unfold bind at 1. cbn [index_mapping].
  replace (_index_mapping s) with (@None Mapping) by done.
  replace (index_mapping_file (disk s)) with (Some m) by done.
  eexists. split; [reflexivity|]. split; [done|]. split; [done|].
  intros w Hw. by destruct which, w.
Qed.

End IndexingFacts.

(** The sample task on a disk without a mapping file: the train frame
    comes back tagged, the validation frame stays as read. *)
Lemma data_frame_first_access_witness :
  ∃ m s1,
    @Indexing.data_frame sample_utils 3 Indexing.Train
      (@Indexing.new_Task sample_utils sample_indexing_config (sample_disk true))
    = (Ok (set_column_scalar "indexed" (VInt (length m)) sample_train_frame), s1)
    ∧ Indexing._val_data_frame s1 = Some sample_val_frame
    ∧ Indexing._index_mapping s1 = Some m.
Proof.
  destruct (@data_frame_first_access sample_utils sample_indexing_config
              (sample_disk true) Indexing.Train 0 _ _ eq_refl eq_refl eq_refl eq_refl)
    as (s1 & Hcall & Hmap & _ & _ & _ & Hframes).
  eexists _, s1. split; [exact Hcall|]. split; [exact (Hframes Indexing.Val) | exact Hmap].
Defined.


(** The same task after its test frame was indexed and the caches were
    dropped: the frame comes back as it is on the disk. *)
Lemma data_frame_after_cleanup_witness :
  (@Indexing.data_frame sample_utils 1 Indexing.Test
     (@Indexing.cache_cleanup sample_utils
        (@Indexing.data_frame sample_utils 2 Indexing.Test
           (@Indexing.new_Task sample_utils sample_indexing_config pickled_disk)).2)).1
  = Ok sample_test_frame.
Proof.
  rewrite (proj1 (@data_frame_after_cleanup sample_utils 0 Indexing.Test
                    (@Indexing.data_frame sample_utils 2 Indexing.Test
                       (@Indexing.new_Task sample_utils sample_indexing_config
                          pickled_disk)).2 eq_refl)).
  reflexivity.
Defined.

(** The sample task without an output directory. *)
Lemma data_frame_after_failed_indexing_witness :
  ∃ e s1 s2,
    @Indexing.data_frame sample_utils 3 Indexing.Train
      (@Indexing.new_Task sample_utils sample_indexing_config (sample_disk false))
    = (Raise e, s1)
    ∧ @Indexing.data_frame sample_utils 1 Indexing.Test s1 = (Ok sample_test_frame, s2).
Proof.
  destruct (@data_frame_after_failed_indexing sample_utils sample_indexing_config
              (sample_disk false) Indexing.Train 0 _ eq_refl eq_refl)
    as (e & s1 & Hcall & _ & _ & Hlater); [done|].
  destruct (Hlater Indexing.Test 0) as (s2 & Hread & _).
  by exists e, s1, s2.
Defined.

(** A disk whose mapping file knows one column without entries. *)
Lemma data_frame_pickled_mapping_witness :
  ∃ s1,
    @Indexing.data_frame sample_utils 2 Indexing.Test
      (@Indexing.new_Task sample_utils sample_indexing_config pickled_disk)
    = (Ok (set_column_scalar "indexed" (VInt 1) sample_test_frame), s1)
    ∧ Indexing._train_data_frame s1 = None.
Proof.
  destruct (@data_frame_pickled_mapping sample_utils sample_indexing_config
              pickled_disk Indexing.Test 0 _ eq_refl)
    as (s1 & Hcall & _ & _ & Hothers).
  exists s1. split; [exact Hcall|]. by apply (Hothers Indexing.Train).
Defined.

(** ** Dictionaries, the reverse mapping and the table sizes *)

Section DictFacts.
Import Indexing.
Context {A B : Type} `{EqDecision A}.

Lemma dict_get_set (d : dict A B) (k k' : A) (v : B) :
  dict_get (dict_set k v d) k' = if decide (k = k') then Ok v else dict_get d k'.
Proof.
  induction d as [|[k0 v0] d IH]; simpl.
  - by case_decide.
  - destruct (decide (k0 = k)) as [->|Hne]; simpl.
    + by destruct (decide (k = k')).
    + destruct (decide (k0 = k')) as [->|Hne'].
      * by rewrite decide_False by done.
      * exact IH.
Qed.

Lemma keys_dict_set (d : dict A B) (k : A) (v : B) :
  NoDup d.*1 → NoDup (dict_set k v d).*1 ∧ ∀ k', k' ∈ (dict_set k v d).*1 ↔ k' = k ∨ k' ∈ d.*1.
Proof.
  induction d as [|[k0 v0] d IH]; simpl; intros Hnd.
  - split; [apply NoDup_singleton|]. intros k'. by rewrite !elem_of_cons.
  - apply NoDup_cons in Hnd as [Hk0 Hnd]. destruct (IH Hnd) as [IH1 IH2].
    destruct (decide (k0 = k)) as [->|Hne]; simpl.
    + split; [by apply NoDup_cons|]. intros k'. rewrite !elem_of_cons. tauto.
    + split.
      * apply NoDup_cons. split; [|done]. rewrite IH2. by intros [?|?].
      * intros k'. rewrite !elem_of_cons, IH2. tauto.
Qed.

(** Later items win. *)
Lemma dict_get_update (d : dict A B) (items : list (A * B)) (k : A) :
  dict_get (dict_update d items) k
  = match last (filter (fun kv => kv.1 = k) items) with
    | Some kv => Ok kv.2
    | None => dict_get d k
    end.
Proof.
  induction items as [|[k0 v0] items IH] using rev_ind; [done|].
  unfold dict_update in *. rewrite foldl_snoc, dict_get_set, filter_app, last_app. simpl.
  rewrite filter_cons, filter_nil. simpl.
  destruct (decide (k0 = k)) as [->|Hne]; [done|]. exact IH.
Qed.

Lemma keys_dict_update (d : dict A B) (items : list (A * B)) :
  NoDup d.*1 → NoDup (dict_update d items).*1.
Proof.
  revert d. induction items as [|[k v] items IH]; intros d Hnd; [done|].
  apply IH. by apply keys_dict_set.
Qed.

Lemma dict_get_elem_of (d : dict A B) (k : A) (v : B) :
  dict_get d k = Ok v → (k, v) ∈ d.
Proof.
  induction d as [|[k0 v0] d IH]; simpl; [intros [=]|].
  destruct (decide (k0 = k)) as [->|Hne].
  - intros [= ->]. left.
  - intros Hd. right. by apply IH.
Qed.

Lemma dict_get_NoDup (d : dict A B) (k : A) (v : B) :
  NoDup d.*1 → (k, v) ∈ d → dict_get d k = Ok v.
Proof.
  induction d as [|[k0 v0] d IH]; simpl; [by intros _ ?%elem_of_nil|].
  intros [Hk0 Hnd]%NoDup_cons [[= -> ->]|Hin]%elem_of_cons.
  - by rewrite decide_True.
  - rewrite decide_False; [by apply IH|]. intros ->. apply Hk0.
    apply list_elem_of_fmap. by exists (k, v).
Qed.

End DictFacts.

Lemma filter_none {A} (P : A → Prop) `{∀ x, Decision (P x)} (l : list A) :
  Forall (fun x => ¬ P x) l → filter P l = [].
Proof.
  induction 1 as [|x l Hx _ IH]; [done|]. by rewrite filter_cons, decide_False.
Qed.

Lemma list_filter_fmap {A B} (P : B → Prop) `{∀ y, Decision (P y)} (f : A → B)
    (l : list A) :
  filter P (f <$> l) = f <$> filter (fun x => P (f x)) l.
Proof.
  induction l as [|x l IH]; [done|].
  rewrite fmap_cons, !filter_cons, IH. by case_decide.
Qed.

Section ReverseMapping.
Import Indexing.
Context `{Utils}.

Lemma dict_get_reverse_dict (mapping : dict value nat) (v : nat) :
  dict_get (reverse_dict mapping) v
  = match last (filter (fun kv : value * nat => kv.2 = v) mapping) with
    | Some kv => Ok kv.1
    | None => Raise KeyError
    end.
Proof.
  unfold reverse_dict, dict_of. rewrite dict_get_update, list_filter_fmap, fmap_last.
  simpl. by destruct (last _).
Qed.

(** X16.  [reverse_index_mapping] turns every per-column mapping round:
    looking an index up in the reversed mapping gives a raw value that
    the mapping sends to this index, every index the mapping uses can
    be looked up, and when two raw values share an index the one
    inserted last wins; so for a mapping that assigns distinct indices
    the reversed mapping is its inverse.  Per column, the property
    returns the reversed dictionary of that column. *)
Theorem reverse_index_mapping_inverse (mapping : dict value nat) :
  (∀ v k, dict_get (reverse_dict mapping) v = Ok k → (k, v) ∈ mapping)
  ∧ (∀ v k, (k, v) ∈ mapping → succeeds (dict_get (reverse_dict mapping) v))
  ∧ (∀ m1 m2 k v, mapping = m1 ++ (k, v) :: m2 → v ∉ m2.*2 →
       dict_get (reverse_dict mapping) v = Ok k)
  ∧ (NoDup mapping.*2 →
       ∀ k v, (k, v) ∈ mapping → dict_get (reverse_dict mapping) v = Ok k)
  ∧ (∀ depth s r s' m column d,
       reverse_index_mapping depth s = (Ok r, s') →
       index_mapping depth s = (Ok m, s') →
       NoDup m.*1 → dict_get m column = Ok d →
       dict_get r column = Ok (reverse_dict d)).
Proof.
  assert (Hlast : ∀ m1 m2 k v, mapping = m1 ++ (k, v) :: m2 → v ∉ m2.*2 →
            dict_get (reverse_dict mapping) v = Ok k).
  { intros m1 m2 k v -> Hv. rewrite dict_get_reverse_dict, filter_app, filter_cons.
    simpl. rewrite decide_True by done.
    rewrite (filter_none _ m2); [by rewrite last_snoc|].
    apply Forall_forall. intros [k' v'] Hin Heq. simpl in Heq. subst v'. apply Hv.
    apply list_elem_of_fmap. by exists (k', v). }
  split; [|split; [|split; [|split]]].
  - intros v k. rewrite dict_get_reverse_dict.
    destruct (last _) as [[k0 v0]|] eqn:Hl; [|intros [=]].
    intros [= <-]. apply last_Some in Hl as [l' Hl].
    assert ((k0, v0) ∈ filter (fun kv : value * nat => kv.2 = v) mapping) as Hin
      by (rewrite Hl; apply elem_of_app; right; left).
    by apply list_elem_of_filter in Hin as [<- ?].
  - intros v k Hin. rewrite dict_get_reverse_dict.
    destruct (last _) as [kv|] eqn:Hl; [by eexists|].
    apply last_None in Hl.
    assert ((k, v) ∈ filter (fun kv : value * nat => kv.2 = v) mapping) as Hin'
      by by apply list_elem_of_filter.
    rewrite Hl in Hin'. by apply elem_of_nil in Hin'.
  - exact Hlast.
  - intros Hnd k v Hin. apply list_elem_of_split in Hin as (m1 & m2 & ->).
    apply (Hlast m1 m2); [done|].
    rewrite fmap_app, fmap_cons in Hnd. apply NoDup_app in Hnd as (_ & _ & Hnd).
    by apply NoDup_cons in Hnd as [? _].
  - intros depth s r s' m column d Hrev Hmap Hnd Hd.
    unfold reverse_index_mapping, bind, ret in Hrev. rewrite Hmap in Hrev.
    injection Hrev as <-. unfold dict_of. rewrite dict_get_update.
    apply dict_get_elem_of in Hd.
    apply list_elem_of_split in Hd as (m1 & m2 & ->).
    rewrite fmap_app, fmap_cons, filter_app, filter_cons. simpl.
    rewrite decide_True by done.
    rewrite (filter_none _ (_ <$> m2)); [by rewrite last_snoc|].
    rewrite fmap_app, fmap_cons in Hnd. apply NoDup_app in Hnd as (_ & _ & Hnd).
    apply NoDup_cons in Hnd as [Hcol _].
    apply Forall_forall. intros kv [[k' d'] [-> Hin]]%list_elem_of_fmap. simpl.
    intros Heq. subst k'. apply Hcol. apply list_elem_of_fmap. by exists (column, d').
Qed.

(** X17.  [n_items] is one more than the largest index of the item
    column's mapping: every index the mapping assigns is below it, the
    size minus one is assigned, and an embedding table of that size can
    be read at every batch of mapped indices.  An empty mapping of the
    column makes it raise [ValueError], a missing one [KeyError].  Once
    computed the size is cached: the property returns it again without
    looking at the mapping. *)
Theorem n_items_bounds (depth : nat) (s s1 : Task) (m : Mapping) :
  _n_items s = None →
  index_mapping depth s = (Ok m, s1) →
  (dict_get m (name (item_column (project_config s))) = Raise KeyError →
     (n_items depth s).1 = Raise KeyError)
  ∧ (dict_get m (name (item_column (project_config s))) = Ok [] →
     (n_items depth s).1 = Raise ValueError)
  ∧ (∀ d, dict_get m (name (item_column (project_config s))) = Ok d → d ≠ [] →
       ∃ n s', n_items depth s = (Ok n, s')
               ∧ Forall (fun kv => kv.2 < n) d
               ∧ (∃ k, (k, n - 1) ∈ d)
               ∧ (∀ depth', n_items depth' s' = (Ok n, s'))
               ∧ (∀ e ids, num_embeddings e = n → ids ⊆ d.*2 →
                    succeeds (Embedding_call e ids))).
Proof.
  intros Hcache Hmap. unfold n_items, bind, lift. rewrite Hcache, Hmap.
  split; [by intros ->|]. split; [by intros ->|].
  intros d -> Hne. unfold py_max.
  destruct d.*2 as [|i rest] eqn:Hvalues; [by destruct d|].
  rewrite <- Hvalues. eexists _, _. split; [reflexivity|].
  assert (Forall (fun kv : value * nat => kv.2 < max_list d.*2 + 1) d) as Hbound.
  { apply Forall_forall. intros [k v] Hin. simpl.
    assert (v ≤ max_list d.*2); [|lia].
    apply max_list_elem_of_le, list_elem_of_fmap. by exists (k, v). }
  split; [done|]. split; [|split].
  - assert (max_list d.*2 ∈ d.*2) as Hmax by (apply max_list_elem_of; by rewrite Hvalues).
    apply list_elem_of_fmap in Hmax as ([k v] & Hv & Hin). simpl in Hv.
    exists k. by rewrite Nat.add_sub, Hv.
  - by intros depth'.
  - intros e ids Hsize Hids. unfold Embedding_call. rewrite decide_True; [by eexists|].
    apply Forall_forall. intros i' Hi'. apply Hids in Hi'.
    apply list_elem_of_fmap in Hi' as ([k v] & -> & Hin). rewrite Hsize.
    by apply (proj1 (Forall_forall _ _) Hbound (k, v)).
Qed.

End ReverseMapping.

(** Two raw values with distinct indices. *)
Lemma reverse_index_mapping_inverse_witness :
  dict_get (Indexing.reverse_dict [(VStr "a", 0); (VStr "b", 1)]) 1
  = Ok (VStr "b").
Proof.
  apply (proj1 (proj2 (proj2 (proj2 (@reverse_index_mapping_inverse sample_utils
                                        [(VStr "a", 0); (VStr "b", 1)]))))).
  - compute_done.
  - right. left.
Defined.

(** The sample task whose mapping file numbers two items. *)
Lemma n_items_bounds_witness :
  ∃ n s',
    @Indexing.n_items sample_utils 1
      (@Indexing.new_Task sample_utils sample_indexing_config
         (Indexing.mkDisk sample_train_frame sample_val_frame sample_test_frame true
            (Some [("item", [(VInt 2, 0); (VInt 4, 1)])])))
    = (Ok n, s')
    ∧ Forall (fun kv : value * nat => kv.2 < n) [(VInt 2, 0); (VInt 4, 1)].
Proof.
  destruct (proj2 (proj2 (@n_items_bounds sample_utils 1
              (@Indexing.new_Task sample_utils sample_indexing_config
                 (Indexing.mkDisk sample_train_frame sample_val_frame sample_test_frame
                    true (Some [("item", [(VInt 2, 0); (VInt 4, 1)])])))
              _ _ eq_refl eq_refl)) _ eq_refl)
    as (n & s' & Hcall & Hbound & _); [done|].
  by exists n, s'.
Defined.

(** ** The evaluation plots *)

Lemma enumerate_snoc {A} (l : list A) (x : A) :
  enumerate (l ++ [x]) = enumerate l ++ [(length l, x)].
Proof.
  unfold enumerate. rewrite imap_app. simpl. by rewrite Nat.add_0_r.
Qed.

Lemma get_colors_snoc (models color : list string) (model : string) :
  get_colors (models ++ [model]) color
  = line_dict ← get_colors models color;
    c ← list_getitem color (length models `mod` 10);
    Ok (dict_set model c line_dict).
Proof.
  unfold get_colors. rewrite enumerate_snoc, foldM_app.
  destruct (foldM _ [] (enumerate models)) as [d|]; [|done]. simpl.
  by destruct (list_getitem color _).
Qed.

Lemma list_getitem_Ok {A} (l : list A) (i : nat) :
  i < length l → ∃ x, list_getitem l i = Ok x ∧ l !! i = Some x.
Proof.
  intros Hi. unfold list_getitem. destruct (lookup_lt_is_Some_2 l i Hi) as [x Hx].
  rewrite Hx. by exists x.
Qed.

Lemma list_getitem_IndexError {A} (l : list A) (i : nat) :
  length l ≤ i → list_getitem l i = Raise IndexError.
Proof. intros Hi. unfold list_getitem. by rewrite lookup_ge_None_2. Qed.

(** X18.  [get_colors] returns for a palette that covers the positions
    it reads (all ten, or as many as there are models): its keys are
    the models, each once, and a model gets the colour at its last
    position modulo ten, so that models ten places apart share a
    colour.  With a shorter palette it raises [IndexError]. *)
Theorem get_colors_palette (models color : list string) :
  (length models `min` 10 ≤ length color →
     ∃ line_dict,
       get_colors models color = Ok line_dict
       ∧ NoDup line_dict.*1
       ∧ (∀ model, model ∈ line_dict.*1 ↔ model ∈ models)
       ∧ (∀ i model, models !! i = Some model → model ∉ drop (S i) models →
            dict_get line_dict model = list_getitem color (i `mod` 10)))
  ∧ (length color < length models `min` 10 →
       get_colors models color = Raise IndexError).
Proof.
  induction models as [|model models IH] using rev_ind.
  - split; [|simpl; lia]. intros _. exists []. split; [done|].
    split; [apply NoDup_nil_2|]. split; [done|]. by intros i model [=].
  - rewrite get_colors_snoc, length_app. cbn [length]. destruct IH as [IHok IHfail].
    assert (length models `mod` 10 < 10) as Hmod by (apply Nat.mod_upper_bound; lia).
    assert (length models `mod` 10 ≤ length models) as Hle by (apply Nat.Div0.mod_le).
    split.
    + intros Hlen. destruct IHok as (d & -> & Hnd & Hkeys & Hget); [lia|].
      destruct (list_getitem_Ok color (length models `mod` 10)) as (c & Hc & _); [lia|].
      cbn [mbind result_bind]. rewrite Hc. cbn [mbind result_bind]. eexists.
      split; [reflexivity|].
      destruct (keys_dict_set d model c Hnd) as [Hnd' Hkeys'].
      split; [done|]. split.
      * intros m. rewrite Hkeys', Hkeys, elem_of_app, list_elem_of_singleton. tauto.
      * intros i m Hi Hlast. rewrite dict_get_set.
        destruct (decide (i = length models)) as [->|Hne].
        -- rewrite lookup_app_r, Nat.sub_diag in Hi by lia. injection Hi as ->.
           by rewrite decide_True, Hc.
        -- assert (i < length models) as Hlt.
           { apply lookup_lt_Some in Hi. rewrite length_app in Hi. simpl in Hi. lia. }
           rewrite lookup_app_l in Hi by done.
           rewrite drop_app_le in Hlast by lia.
           rewrite decide_False.
           ++ apply Hget; [done|]. intros Hin. apply Hlast, elem_of_app. by left.
           ++ intros ->. apply Hlast, elem_of_app. right. left.
    + intros Hlen. destruct (decide (length color < length models `min` 10)) as [Hlt|Hge].
      * by rewrite IHfail.
      * destruct IHok as (d & -> & _); [lia|]. cbn [mbind result_bind].
        rewrite Nat.mod_small by lia.
        rewrite list_getitem_IndexError; [done|lia].
Qed.

(** Twelve models on the default palette: the first and the eleventh
    share a colour. *)
Lemma get_colors_palette_witness :
  ∃ line_dict,
    get_colors ["m0"; "m1"; "m2"; "m3"; "m4"; "m5"; "m6"; "m7"; "m8"; "m9"; "m10"; "m11"]
      Plotly = Ok line_dict
    ∧ dict_get line_dict "m10" = Ok "#636EFA"
    ∧ dict_get line_dict "m0" = Ok "#636EFA".
Proof.
  destruct (proj1 (get_colors_palette
                     ["m0"; "m1"; "m2"; "m3"; "m4"; "m5"; "m6"; "m7"; "m8"; "m9";
                      "m10"; "m11"] Plotly))
    as (line_dict & Hcall & _ & _ & Hget); [simpl; lia|].
  exists line_dict. split; [exact Hcall|]. split.
  - rewrite (Hget 10 "m10" eq_refl); [reflexivity|]. compute_done.
  - rewrite (Hget 0 "m0" eq_refl); [reflexivity|]. compute_done.
Defined.
